(** * gitcodebot-worker: repository dump decoding and vector ingestion

    A shallow embedding of the worker's ingestion pipeline
    ([src/utils/platform.py], [src/services/ingest.py],
    [src/services/lang_chain.py], [src/services/qdrant.py],
    [src/worker.py]) together with the properties its specification
    states about it.

    Python [str] values are lists of Unicode code points, [bytes] values
    are lists of [Byte.byte].  Code that touches the outside world (the
    staging directory, the logger, the vector store, the dump provider)
    runs in a small state-and-exception monad over an explicit [World]. *)

From Stdlib Require Import Strings.String Strings.Byte.
From Stdlib Require Import List NArith Arith Bool Lia.
Import ListNotations.
Open Scope list_scope.

Set Implicit Arguments.

(* ================================================================== *)
(** * Python built-ins used by the worker *)
(* ================================================================== *)

Module Py.

(** A code point. *)
Definition char := N.
(** A Python [str]. *)
Definition str := list char.
(** A Python [bytes]. *)
Definition bytes := list byte.

(** ASCII literals. *)
Definition py (s : string) : str := map Byte.to_N (list_byte_of_string s).
Definition pyb (s : string) : bytes := list_byte_of_string s.

Definition LF : char := 10%N.
Definition CR : char := 13%N.
Definition SLASH : char := 47%N.
Definition DOT : char := 46%N.

(** [a == b] on strings. *)
Fixpoint str_eqb (a b : str) : bool :=
  match a, b with
  | [], [] => true
  | x :: a', y :: b' => N.eqb x y && str_eqb a' b'
  | _, _ => false
  end.

(** [s.startswith(p)] *)
Fixpoint startswith (s p : str) {struct p} : bool :=
  match p with
  | [] => true
  | c :: p' =>
      match s with
      | [] => false
      | d :: s' => N.eqb d c && startswith s' p'
      end
  end.

(** [s.endswith(p)] *)
Definition endswith (s p : str) : bool := startswith (rev s) (rev p).

(** [c in chars] for a string of characters. *)
Definition char_in (chars : str) (c : char) : bool :=
  existsb (N.eqb c) chars.

(** [str.isspace] on one code point (CPython's [_PyUnicode_IsWhitespace]). *)
Definition isspace (c : char) : bool :=
  ((9 <=? c) && (c <=? 13) || (28 <=? c) && (c <=? 32)
   || (c =? 133) || (c =? 160) || (c =? 5760)
   || (8192 <=? c) && (c <=? 8202)
   || (c =? 8232) || (c =? 8233) || (c =? 8239) || (c =? 8287)
   || (c =? 12288))%N.

Fixpoint dropwhile (p : char -> bool) (s : str) : str :=
  match s with
  | [] => []
  | c :: s' => if p c then dropwhile p s' else s
  end.

(** [s.strip()] *)
Definition strip (s : str) : str :=
  rev (dropwhile isspace (rev (dropwhile isspace s))).

(** [s.rstrip(chars)] *)
Definition rstrip (chars s : str) : str :=
  rev (dropwhile (char_in chars) (rev s)).

(** [sep.join(l)] *)
Fixpoint join (sep : str) (l : list str) : str :=
  match l with
  | [] => []
  | x :: rest =>
      match rest with
      | [] => x
      | _ :: _ => x ++ sep ++ join sep rest
      end
  end.

(** [s.partition(sep)] restricted to the case where [sep] occurs:
    the text before and after the first occurrence. *)
Fixpoint partition (sep s : str) {struct s} : option (str * str) :=
  if startswith s sep then Some ([], skipn (length sep) s)
  else
    match s with
    | [] => None
    | c :: s' =>
        match partition sep s' with
        | Some (a, b) => Some (c :: a, b)
        | None => None
        end
    end.

(** [sep in s] *)
Definition contains (sep s : str) : bool :=
  match partition sep s with Some _ => true | None => false end.

(** [s.split(sep, 1)[0]] *)
Definition split1_head (sep s : str) : str :=
  match partition sep s with Some (a, _) => a | None => s end.

(** [s.split(sep)[1]]; [None] is [IndexError]. *)
Definition split_second (sep s : str) : option str :=
  match partition sep s with
  | Some (_, b) => Some (split1_head sep b)
  | None => None
  end.

(** Line boundaries recognised by [str.splitlines]. *)
Definition is_linebreak (c : char) : bool :=
  ((10 <=? c) && (c <=? 13) || (28 <=? c) && (c <=? 30)
   || (c =? 133) || (c =? 8232) || (c =? 8233))%N.

Definition cons_first (c : char) (ls : list str) : list str :=
  match ls with
  | [] => [[c]]
  | l :: ls' => (c :: l) :: ls'
  end.

(** [s.splitlines()] (line ends dropped, [\r\n] is one boundary). *)
Fixpoint splitlines (s : str) : list str :=
  match s with
  | [] => []
  | c :: rest =>
      if is_linebreak c then
        [] :: (if N.eqb c CR then
                 match rest with
                 | d :: rest' =>
                     if N.eqb d LF then splitlines rest' else splitlines rest
                 | [] => splitlines rest
                 end
               else splitlines rest)
      else cons_first c (splitlines rest)
  end.

(** Continuation byte value in [lo, hi]. *)
Definition in_range (lo hi : N) (b : byte) : bool :=
  ((lo <=? Byte.to_N b) && (Byte.to_N b <=? hi))%N.

Definition cont (b : byte) : N := (Byte.to_N b - 128)%N.

(** [b.decode('utf-8')] with the default strict error handler;
    [None] is [UnicodeDecodeError]. *)
Fixpoint utf8_decode (b : bytes) : option str :=
  match b with
  | [] => Some []
  | b0 :: r0 =>
      let n0 := Byte.to_N b0 in
      if (n0 <? 128)%N then option_map (cons n0) (utf8_decode r0)
      else if ((194 <=? n0) && (n0 <=? 223))%N then
        match r0 with
        | b1 :: r1 =>
            if in_range 128 191 b1
            then option_map (cons ((n0 - 192) * 64 + cont b1)%N)
                            (utf8_decode r1)
            else None
        | _ => None
        end
      else if ((224 <=? n0) && (n0 <=? 239))%N then
        match r0 with
        | b1 :: b2 :: r2 =>
            let lo := if (n0 =? 224)%N then 160%N else 128%N in
            let hi := if (n0 =? 237)%N then 159%N else 191%N in
            if in_range lo hi b1 && in_range 128 191 b2
            then option_map
                   (cons ((n0 - 224) * 4096 + cont b1 * 64 + cont b2)%N)
                   (utf8_decode r2)
            else None
        | _ => None
        end
      else if ((240 <=? n0) && (n0 <=? 244))%N then
        match r0 with
        | b1 :: b2 :: b3 :: r3 =>
            let lo := if (n0 =? 240)%N then 144%N else 128%N in
            let hi := if (n0 =? 244)%N then 143%N else 191%N in
            if in_range lo hi b1 && in_range 128 191 b2
               && in_range 128 191 b3
            then option_map
                   (cons ((n0 - 240) * 262144 + cont b1 * 4096
                          + cont b2 * 64 + cont b3)%N)
                   (utf8_decode r3)
            else None
        | _ => None
        end
      else None
  end.

(** [s.rfind(c)] for a single character, as the number of characters
    before the last occurrence. *)
Fixpoint rfind (c : char) (s : str) : option nat :=
  match s with
  | [] => None
  | d :: s' =>
      match rfind c s' with
      | Some i => Some (S i)
      | None => if N.eqb d c then Some 0 else None
      end
  end.

(** [os.path.splitext(p)] of [posixpath]: the extension starts at the
    last dot, provided that dot comes after the last slash and is not
    one of the leading dots of the base name. *)
Definition splitext (p : str) : str * str :=
  match rfind DOT p with
  | None => (p, [])
  | Some dotIndex =>
      let filenameIndex :=
        match rfind SLASH p with Some i => S i | None => 0 end in
      if dotIndex <? filenameIndex then (p, [])
      else
        let lead := firstn (dotIndex - filenameIndex) (skipn filenameIndex p) in
        if forallb (N.eqb DOT) lead then (p, [])
        else (firstn dotIndex p, skipn dotIndex p)
  end.

(** [os.path.join(a, *ps)] of [posixpath]. *)
Definition path_join2 (path b : str) : str :=
  if startswith b [SLASH] then b
  else if match path with [] => true | _ => endswith path [SLASH] end
       then path ++ b
       else path ++ [SLASH] ++ b.

Definition path_join (a : str) (ps : list str) : str :=
  fold_left path_join2 ps a.

End Py.

Import Py.


(* ================================================================== *)
(** * The world outside the process *)
(* ================================================================== *)

Module Sys.

Inductive level := INFO | WARNING | ERROR.

(** Exceptions the modelled code can see. *)
Inductive exn :=
| UnicodeDecodeError
| UnicodeEncodeError
| ValueError
| TypeError
| IndexError
| AttributeError
| FileNotFoundError
| RemoteError.

(** A LangChain [Document] with the metadata the splitter attaches. *)
Record Document := {
  page_content : str;
  doc_name : str;
  doc_path : str;
  start_index : nat
}.

(** Log records, one constructor per logger call of the sources. *)
Inductive Msg :=
| MsgNoFilesFound
| MsgParsedDict
| MsgCollectionExists (collection : str)
| MsgIngestionFailed
| MsgSplittingFile (file_name : str)
| MsgNoDocuments (file_name : str)
| MsgCreatedDocuments (n : nat) (file_name : str)
| MsgAddedDocuments (file_name : str)
| MsgFailedToSplit (e : exn)
| MsgStartingIngestion (owner name : str)
| MsgIngested (url : str)
| MsgFailedToIngest (url : str) (e : exn)
| MsgContentFileNotFound (path : str)
| MsgTreeFileNotFound (path : str)
| MsgProcessingChunk (size : nat)
| MsgCompletedWriting (file_name : str)
| MsgParsedCount (n : nat)
| MsgErrorInferring (file_name : str) (e : exn)
| MsgLanguageNotFound (file_name : str)
| MsgFileMissing (path : str)
| MsgSplitting (file_name : str)
| MsgErrorSplitting (file_name : str) (e : exn)
| MsgCollectionCreated (collection : str)
| MsgCreateFailed (collection : str) (e : exn)
| MsgVectorStoreFailed (collection : str) (e : exn)
| MsgCollectionMissing (collection : str)
| MsgGetCollectionFailed (collection : str) (e : exn)
| MsgEmbeddingFailed (e : exn)
| MsgAddDocumentsFailed (e : exn)
| MsgStatus (status : str).

(** State of everything the worker reads and writes: the staging
    files, the logger's output, the vector store's collections, the
    calls made to [add_documents] and the status store's updates. *)
Record World := {
  fs : list (str * bytes);
  logs : list (level * Msg);
  collections : list (str * list Document);
  add_documents_calls : list (str * list Document);
  status_updates : list (str * str * bool)
}.

Definition set_fs (f : list (str * bytes)) (w : World) : World :=
  {| fs := f; logs := logs w; collections := collections w;
     add_documents_calls := add_documents_calls w;
     status_updates := status_updates w |}.

Definition set_logs (l : list (level * Msg)) (w : World) : World :=
  {| fs := fs w; logs := l; collections := collections w;
     add_documents_calls := add_documents_calls w;
     status_updates := status_updates w |}.

Definition set_collections (c : list (str * list Document)) (w : World)
  : World :=
  {| fs := fs w; logs := logs w; collections := c;
     add_documents_calls := add_documents_calls w;
     status_updates := status_updates w |}.

Definition set_calls (c : list (str * list Document)) (w : World) : World :=
  {| fs := fs w; logs := logs w; collections := collections w;
     add_documents_calls := c;
     status_updates := status_updates w |}.

Definition set_status (s : list (str * str * bool)) (w : World) : World :=
  {| fs := fs w; logs := logs w; collections := collections w;
     add_documents_calls := add_documents_calls w;
     status_updates := s |}.

(** Behaviour of the external collaborators.  Each field answers one
    library call; [None] and [false] stand for the call raising. *)
Record Env := {
  cwd : str;
  (** [gitingest.ingest(repo_url)] *)
  fetch_dump : str -> option (str * str * str);
  (** [yaml.safe_load] of [config/supported_languages.yml] *)
  supported_languages : option (list (str * list str));
  (** membership in LangChain's [Language] enumeration *)
  language_member : str -> bool;
  (** [splitter.create_documents]: the chunks with their start index *)
  create_documents : option str -> str -> option (list (nat * str));
  (** [client.recreate_collection] succeeds *)
  recreate_ok : str -> bool;
  (** [OpenAIEmbeddings(model=...)] succeeds *)
  embedding_ok : bool;
  (** [vector_store.add_documents] succeeds *)
  add_documents_ok : str -> list Document -> bool
}.

(** Computations: state passing over [World], result or exception. *)
Definition M (A : Type) : Type := World -> (exn + A) * World.

Definition ret {A} (a : A) : M A := fun w => (inr a, w).

Definition bind {A B} (m : M A) (k : A -> M B) : M B :=
  fun w =>
    match m w with
    | (inr a, w') => k a w'
    | (inl e, w') => (inl e, w')
    end.

Definition raise {A} (e : exn) : M A := fun w => (inl e, w).

(** [try: m  except Exception as e: h e] *)
Definition try_except {A} (m : M A) (h : exn -> M A) : M A :=
  fun w =>
    match m w with
    | (inr a, w') => (inr a, w')
    | (inl e, w') => h e w'
    end.

Definition get_world : M World := fun w => (inr w, w).

Definition modify (f : World -> World) : M unit := fun w => (inr tt, f w).

Definition log (l : level) (m : Msg) : M unit :=
  modify (fun w => set_logs (logs w ++ [(l, m)]) w).

(** [for x in xs: body x] threading a loop state. *)
Fixpoint for_each {A S} (xs : list A) (body : A -> S -> M S) (s : S)
  : M S :=
  match xs with
  | [] => ret s
  | x :: xs' => bind (body x s) (for_each xs' body)
  end.

End Sys.

Import Sys.

Notation "x <- m ;; k" := (bind m (fun x => k))
  (at level 61, m at next level, right associativity).
Notation "m ;;; k" := (bind m (fun _ => k))
  (at level 61, right associativity).

(* ================================================================== *)
(** * Files of the staging directory *)
(* ================================================================== *)

Module Files.

Definition byte_of (n : N) : byte :=
  match Byte.of_N n with Some b => b | None => x00 end.

(** UTF-8 encoding of one code point; [None] for surrogates and values
    past U+10FFFF, which [str.encode] refuses. *)
Definition utf8_encode_char (c : char) : option bytes :=
  if (c <? 128)%N then Some [byte_of c]
  else if (c <? 2048)%N then
    Some [byte_of (192 + c / 64); byte_of (128 + c mod 64)]
  else if (c <? 65536)%N then
    if ((55296 <=? c) && (c <=? 57343))%N then None
    else Some [byte_of (224 + c / 4096); byte_of (128 + (c / 64) mod 64);
               byte_of (128 + c mod 64)]
  else if (c <? 1114112)%N then
    Some [byte_of (240 + c / 262144); byte_of (128 + (c / 4096) mod 64);
          byte_of (128 + (c / 64) mod 64); byte_of (128 + c mod 64)]
  else None.

(** What a text-mode file object writes for [f.write(s)] (UTF-8
    locale, POSIX newlines); [None] is [UnicodeEncodeError]. *)
Fixpoint utf8_encode (s : str) : option bytes :=
  match s with
  | [] => Some []
  | c :: s' =>
      match utf8_encode_char c, utf8_encode s' with
      | Some b, Some bs => Some (b ++ bs)
      | _, _ => None
      end
  end.

(** Universal-newline translation of a text-mode read. *)
Fixpoint universal_newlines (s : str) : str :=
  match s with
  | [] => []
  | c :: rest =>
      if N.eqb c CR then
        LF :: match rest with
              | d :: rest' =>
                  if N.eqb d LF then universal_newlines rest'
                  else universal_newlines rest
              | [] => universal_newlines rest
              end
      else c :: universal_newlines rest
  end.

Fixpoint lookup {V} (k : str) (m : list (str * V)) : option V :=
  match m with
  | [] => None
  | (k', v) :: m' => if str_eqb k k' then Some v else lookup k m'
  end.

(** [m[k] = v] on an insertion-ordered mapping: an existing key keeps
    its place, a new key goes last. *)
Fixpoint assign {V} (k : str) (v : V) (m : list (str * V))
  : list (str * V) :=
  match m with
  | [] => [(k, v)]
  | (k', v') :: m' =>
      if str_eqb k k' then (k, v) :: m' else (k', v') :: assign k v m'
  end.

(** [os.path.exists(path)] *)
Definition exists_ (path : str) : M bool :=
  w <- get_world ;;
  ret (match lookup path (fs w) with Some _ => true | None => false end).

(** [with open(path, 'w') as f: f.write(text)] *)
Definition write_text (path text : str) : M unit :=
  match utf8_encode text with
  | None =>
      (* the file was opened, hence truncated, before the write failed *)
      modify (fun w => set_fs (assign path [] (fs w)) w) ;;;
      raise UnicodeEncodeError
  | Some b => modify (fun w => set_fs (assign path b (fs w)) w)
  end.

(** [with open(path, 'a') as f: f.write(text)] *)
Definition append_text (path text : str) : M unit :=
  w <- get_world ;;
  let old := match lookup path (fs w) with Some b => b | None => [] end in
  match utf8_encode text with
  | None =>
      modify (set_fs (assign path old (fs w))) ;;;
      raise UnicodeEncodeError
  | Some b => modify (set_fs (assign path (old ++ b) (fs w)))
  end.

(** [open(path, 'rb').read()]; the callers check existence first. *)
Definition read_bytes (path : str) : M bytes :=
  w <- get_world ;;
  match lookup path (fs w) with
  | Some b => ret b
  | None => raise FileNotFoundError
  end.

(** [open(path, 'r', encoding='utf-8').read()] *)
Definition read_text (path : str) : M str :=
  b <- read_bytes path ;;
  match utf8_decode b with
  | Some s => ret (universal_newlines s)
  | None => raise UnicodeDecodeError
  end.

End Files.

Import Files.

(* ================================================================== *)
(** * utils/platform.py *)
(* ================================================================== *)

Module Platform.

Definition default_chunk_size : nat := N.to_nat (1024 * 1024).

(** The chunks [chunk_read] yields for a file holding [data]: reads of
    [chunk_size] bytes until a read comes back empty.  [fuel] bounds
    the number of reads. *)
Fixpoint chunk_read_loop (fuel chunk_size : nat) (data : bytes)
  : list bytes :=
  match fuel with
  | 0 => []
  | S fuel' =>
      match firstn chunk_size data with
      | [] => []
      | chunk =>
          chunk :: chunk_read_loop fuel' chunk_size (skipn chunk_size data)
      end
  end.

(** One read per byte is always enough. *)
Definition chunk_read (data : bytes) (chunk_size : nat) : list bytes :=
  chunk_read_loop (S (length data)) chunk_size data.

End Platform.

Import Platform.

(* ================================================================== *)
(** * services/lang_chain.py *)
(* ================================================================== *)

Module LangChain.

(** Value of [self.language]: a member of the [Language] enumeration
    or the string ["PlainText"]. *)
Inductive language :=
| Language (value : str)
| PlainText.

(** The two keys of a file's metadata dictionary. *)
Record FileMeta := {
  path : str;
  extension : str
}.

Record LangChainSplitter := {
  file_name : str;
  self_path : str;
  self_extension : str;
  self_language : language
}.

Section Splitter.

Variable env : Env.

(** [LangChainSplitter._infer_language] *)
Definition _infer_language (fname ext : str) : M language :=
  match supported_languages env with
  | None => raise FileNotFoundError
  | Some table =>
      match find (fun le => existsb (str_eqb ext) (snd le)) table with
      | Some (lang, _) =>
          (* [Language(lang)] *)
          if language_member env lang then ret (Language lang)
          else raise ValueError
      | None =>
          log INFO (MsgLanguageNotFound fname) ;;;
          raise ValueError
      end
  end.

(** [LangChainSplitter.__init__]; only [ValueError] is handled. *)
Definition __init__ (fname : str) (metadata : FileMeta)
  : M LangChainSplitter :=
  lang <- try_except (_infer_language fname (extension metadata))
            (fun e =>
               match e with
               | ValueError =>
                   log WARNING (MsgErrorInferring fname e) ;;;
                   ret PlainText
               | _ => raise e
               end) ;;
  ret {| file_name := fname;
         self_path := path metadata;
         self_extension := extension metadata;
         self_language := lang |}.

(** Argument [language] given to the text splitter: the language's
    separators, or none for the generic splitter. *)
Definition splitter_language (l : language) : option str :=
  match l with
  | Language v => Some v
  | PlainText => None
  end.

(** [LangChainSplitter.split] *)
Definition split (self : LangChainSplitter) : M (list Document) :=
  let file_path := path_join (cwd env) [self_path self] in
  ex <- exists_ file_path ;;
  if negb ex then
    log ERROR (MsgFileMissing file_path) ;;;
    ret []
  else
    content <- read_text file_path ;;
    try_except
      (log INFO (MsgSplitting (file_name self)) ;;;
       rel <- match split_second (py "sourcefiles/") (self_path self) with
              | Some r => ret r
              | None => raise IndexError
              end ;;
       chunks <- match create_documents env
                         (splitter_language (self_language self)) content
                 with
                 | Some c => ret c
                 | None => raise RemoteError
                 end ;;
       ret (map (fun c => {| page_content := snd c;
                             doc_name := file_name self;
                             doc_path := rel;
                             start_index := fst c |}) chunks))
      (fun e =>
         log ERROR (MsgErrorSplitting (file_name self) e) ;;;
         ret []).

End Splitter.

End LangChain.

(* ================================================================== *)
(** * services/qdrant.py *)
(* ================================================================== *)

Module Qdrant.

(** What [client.get_collection] returns; such an object is always
    truthy. *)
Definition CollectionInfo := list Document.

(** A [QdrantVectorStore] bound to one collection. *)
Definition VectorStore := str.

Section Service.

Variable env : Env.

(** [client.get_collection(name)]: raises for a missing collection. *)
Definition client_get_collection (name : str) : M CollectionInfo :=
  w <- get_world ;;
  match lookup name (collections w) with
  | Some c => ret c
  | None => raise RemoteError
  end.

(** [client.recreate_collection(name, ...)]: drops and creates. *)
Definition client_recreate_collection (name : str) : M unit :=
  if recreate_ok env name
  then modify (fun w => set_collections (assign name [] (collections w)) w)
  else raise RemoteError.

(** [QdrantVectorStore.add_documents(documents)]: the call is noted,
    then the batch is stored or the call raises. *)
Definition vector_store_add_documents (vs : VectorStore)
           (documents : list Document) : M unit :=
  modify (fun w =>
            set_calls (add_documents_calls w ++ [(vs, documents)]) w) ;;;
  if add_documents_ok env vs documents
  then modify (fun w =>
                 let old := match lookup vs (collections w) with
                            | Some c => c
                            | None => []
                            end in
                 set_collections (assign vs (old ++ documents)
                                         (collections w)) w)
  else raise RemoteError.

(** [QdrantService.create_collection] *)
Definition create_collection (name : str) : M bool :=
  try_except
    (client_recreate_collection name ;;;
     log INFO (MsgCollectionCreated name) ;;;
     ret true)
    (fun e => log ERROR (MsgCreateFailed name e) ;;; ret false).

(** [QdrantService._get_open_ai_embedding] *)
Definition _get_open_ai_embedding : M bool :=
  try_except
    (if embedding_ok env then ret true else raise RemoteError)
    (fun e => log ERROR (MsgEmbeddingFailed e) ;;; ret false).

(** [QdrantService.get_vector_store] *)
Definition get_vector_store (name : str) : M (option VectorStore) :=
  try_except
    (embedding <- _get_open_ai_embedding ;;
     if negb embedding then raise ValueError
     else ret (Some name))
    (fun e => log ERROR (MsgVectorStoreFailed name e) ;;; ret None).


(** [QdrantService.get_collection] *)
Definition get_collection (name : str) : M (option CollectionInfo) :=
  try_except
    (_probe <- client_get_collection name ;;
     (* [if not info] never holds for a [CollectionInfo] object *)
     info <- client_get_collection name ;;
     ret (Some info))
    (fun e => log ERROR (MsgGetCollectionFailed name e) ;;; ret None).

End Service.

End Qdrant.

(* ================================================================== *)
(** * services/ingest.py *)
(* ================================================================== *)

Module Ingest.

Import LangChain.

(** [file_dict]: logical name to metadata, in insertion order. *)
Definition FileDict := list (str * FileMeta).

(** ["=" * 48] *)
Definition boundary_line : str := repeat 61%N 48.

Definition FILE_PREFIX : str := py "FILE: ".

(** Loop state of [_parse_repo_contents]. *)
Record DemuxState := {
  file_marker : bool * bool * bool;
  file_content : list str;
  cur_name : option str;
  file_dict : FileDict
}.

Definition initial_state : DemuxState :=
  {| file_marker := (false, false, false);
     file_content := [];
     cur_name := None;
     file_dict := [] |}.

(** Tree drawing characters of the listing. *)
Definition BAR : char := 9474%N.      (* U+2502 *)
Definition CORNER : char := 9492%N.   (* U+2514 *)
Definition TEE : char := 9500%N.      (* U+251C *)
Definition DASH : char := 9472%N.     (* U+2500 *)
Definition SP : char := 32%N.

Definition unit_spaces : str := [SP; SP; SP; SP].
Definition unit_bar : str := [BAR; SP; SP; SP].
Definition marker_corner : str := [CORNER; DASH; DASH; SP].
Definition marker_tee : str := [TEE; DASH; DASH; SP].

(** The longest run of indent units at the start of a line, and what
    follows it. *)
Fixpoint split_prefix (line : str) : str * str :=
  match line with
  | a :: b :: c :: d :: rest =>
      if str_eqb [a; b; c; d] unit_spaces || str_eqb [a; b; c; d] unit_bar
      then let (p, r) := split_prefix rest in (a :: b :: c :: d :: p, r)
      else ([], line)
  | _ => ([], line)
  end.

(** [line_re.match(line)] as the groups [(prefix, name)].  The lines
    come from [splitlines], so [.+$] takes all that follows the
    marker. *)
Definition line_re_match (line : str) : option (str * str) :=
  let (prefix, rest) := split_prefix line in
  if startswith rest marker_corner || startswith rest marker_tee then
    match skipn 4 rest with
    | [] => None
    | name => Some (prefix, name)
    end
  else None.

(** One iteration of the loop of [_get_file_names] over
    [(stack, file_names)]. *)
Definition tree_step (st : list str * list str) (line : str)
  : list str * list str :=
  match line_re_match line with
  | None => st
  | Some (prefix, raw_name) =>
      let depth := length prefix / 4 in
      let stack := firstn depth (fst st) in
      let is_dir := endswith raw_name [SLASH] in
      let name := rstrip [SLASH] raw_name in
      let name := if contains (py " -> ") name
                  then split1_head (py " -> ") name else name in
      let stack := stack ++ [name] in
      (stack, if is_dir then snd st else snd st ++ [join [SLASH] stack])
  end.

(** The file names decoded from the text of [tree.txt]. *)
Definition decode_tree (tree_str : str) : list str :=
  snd (fold_left tree_step (splitlines tree_str) ([], [])).

Section VectorStoreRepoIngestor.

Variable env : Env.
Variables repo_owner repo_name : str.

Definition tmp_root : str := cwd env ++ py "/tmp".

Definition repo_dir : str := path_join tmp_root [repo_owner; repo_name].

Definition content_file : str :=
  path_join tmp_root [repo_owner; repo_name; py "content.txt"].

Definition tree_file : str := path_join repo_dir [py "tree.txt"].

(** Where the body of [fname] is staged. *)
Definition source_path (fname : str) : str :=
  path_join tmp_root [repo_owner; repo_name; py "sourcefiles/"; fname].

Definition collection_name : str := repo_owner ++ py "." ++ repo_name.

Definition repo_url : str :=
  py "https://github.com/" ++ repo_owner ++ py "/" ++ repo_name.

(** [_get_file_names] *)
Definition _get_file_names : M (list str) :=
  ex <- exists_ tree_file ;;
  if negb ex then
    log ERROR (MsgTreeFileNotFound tree_file) ;;;
    ret []
  else
    tree_str <- read_text tree_file ;;
    ret (decode_tree tree_str).

(** The write, the [file_dict] entry and the log record shared by the
    two flushes of [_parse_repo_contents].  [os.makedirs] creates
    directories only, which the file map does not hold. *)
Definition flush (fname : str) (content : list str) (d : FileDict)
  : M FileDict :=
  append_text (source_path fname) (join [LF] content ++ [LF]) ;;;
  let d' := assign fname {| path := source_path fname;
                            extension := snd (splitext fname) |} d in
  log INFO (MsgCompletedWriting fname) ;;;
  ret d'.

(** Body of the loop over the lines of one chunk. *)
Definition process_line (line : str) (st : DemuxState) : M DemuxState :=
  let '(m0, m1, m2) := file_marker st in
  if str_eqb line boundary_line then
    if negb (m0 || m1 || m2) then
      ret {| file_marker := (true, m1, m2);
             file_content := file_content st;
             cur_name := cur_name st;
             file_dict := file_dict st |}
    else if m0 && m1 && negb m2 then
      ret {| file_marker := (m0, m1, true);
             file_content := file_content st;
             cur_name := cur_name st;
             file_dict := file_dict st |}
    else if m0 && m1 && m2 then
      match cur_name st with
      | None => raise TypeError
      | Some fname =>
          d <- flush fname (file_content st) (file_dict st) ;;
          ret {| file_marker := (false, false, false);
                 file_content := [];
                 cur_name := None;
                 file_dict := d |}
      end
    else ret st
  else if m0 && negb m1 && startswith line FILE_PREFIX then
    ret {| file_marker := (m0, true, m2);
           file_content := file_content st;
           cur_name := Some (strip (skipn (length FILE_PREFIX) line));
           file_dict := file_dict st |}
  else if m0 && m1 && m2 then
    ret {| file_marker := file_marker st;
           file_content := file_content st ++ [line];
           cur_name := cur_name st;
           file_dict := file_dict st |}
  else ret st.

(** Body of the loop over the chunks. *)
Definition process_chunk (chunk : bytes) (st : DemuxState)
  : M DemuxState :=
  log INFO (MsgProcessingChunk (length chunk)) ;;;
  match utf8_decode chunk with
  | None => raise UnicodeDecodeError
  | Some text => for_each (splitlines text) process_line st
  end.

(** The flush after the last chunk. *)
Definition final_flush (st : DemuxState) : M FileDict :=
  match cur_name st, file_content st with
  | Some (c :: fname), _ :: _ =>
      flush (c :: fname) (file_content st) (file_dict st)
  | _, _ => ret (file_dict st)
  end.

(** [_parse_repo_contents], for a given read size of [chunk_read].
    Paths are told apart as strings, and the loop writes under
    [sourcefiles/] only: the chunks are those of the dump as it was
    when the loop began. *)
Definition parse_repo_contents_chunked (chunk_size : nat)
  : M (option FileDict) :=
  ex <- exists_ content_file ;;
  if negb ex then
    log ERROR (MsgContentFileNotFound content_file) ;;;
    ret None
  else
    data <- read_bytes content_file ;;
    st <- for_each (chunk_read data chunk_size) process_chunk
                   initial_state ;;
    d <- final_flush st ;;
    log INFO (MsgParsedCount (length d)) ;;;
    ret (Some d).

(** [_parse_repo_contents]: [chunk_read] is called with its default
    read size. *)
Definition _parse_repo_contents : M (option FileDict) :=
  parse_repo_contents_chunked default_chunk_size.

(** [_ingest_git_repo] *)
Definition _ingest_git_repo : M bool :=
  try_except
    (log INFO (MsgStartingIngestion repo_owner repo_name) ;;;
     dump <- match fetch_dump env repo_url with
             | Some d => ret d
             | None => raise RemoteError
             end ;;
     let '(summary, tree, content) := dump in
     write_text (path_join repo_dir [py "summary.txt"]) summary ;;;
     write_text (path_join repo_dir [py "tree.txt"]) tree ;;;
     write_text (path_join repo_dir [py "content.txt"]) content ;;;
     log INFO (MsgIngested repo_url) ;;;
     ret true)
    (fun e => log ERROR (MsgFailedToIngest repo_url e) ;;; ret false).

(** Body of the loop over [file_dict.items()]. *)
Definition ingest_file (vector_store : Qdrant.VectorStore)
           (item : str * FileMeta) (_ : unit) : M unit :=
  let (fname, metadata) := item in
  log INFO (MsgSplittingFile fname) ;;;
  splitter <- __init__ env fname metadata ;;
  documents <- split env splitter ;;
  match documents with
  | [] => log WARNING (MsgNoDocuments fname)
  | _ :: _ =>
      log INFO (MsgCreatedDocuments (length documents) fname) ;;;
      Qdrant.vector_store_add_documents env vector_store documents ;;;
      log INFO (MsgAddedDocuments fname)
  end.

(** [_ingest_into_vector_store].  [QdrantService(logger=...)] builds
    the client handle and calls nothing. *)
Definition _ingest_into_vector_store (fd : FileDict) : M bool :=
  try_except
    (existing <- Qdrant.get_collection collection_name ;;
     match existing with
     | Some _ =>
         log INFO (MsgCollectionExists collection_name) ;;;
         ret true
     | None =>
         created <- Qdrant.create_collection env collection_name ;;
         vector_store <- (if created
                          then Qdrant.get_vector_store env collection_name
                          else ret None) ;;
         match vector_store with
         | None =>
             log ERROR MsgIngestionFailed ;;;
             ret false
         | Some vs =>
             for_each fd (ingest_file vs) tt ;;;
             ret true
         end
     end)
    (fun e => log ERROR (MsgFailedToSplit e) ;;; ret false).

(** [ingest] *)
Definition ingest : M bool :=
  _ingest_git_repo ;;;
  _file_dict <- _parse_repo_contents ;;
  match _file_dict with
  | None | Some [] =>
      log ERROR MsgNoFilesFound ;;;
      ret false
  | Some (item :: items) =>
      log INFO MsgParsedDict ;;;
      _ingest_into_vector_store (item :: items) ;;;
      ret true
  end.

End VectorStoreRepoIngestor.

End Ingest.

(* ================================================================== *)
(** * worker.py *)
(* ================================================================== *)

Module Worker.

(** [MongoDBService.update_repo_metadata], as the update requested. *)
Definition update_repo_metadata (url status : str) (availability : bool)
  : M unit :=
  modify (fun w =>
            set_status (status_updates w ++ [(url, status, availability)])
                       w).

(** Step 3 of [main] for one queue item already parsed into owner and
    name: the final status and availability. *)
Definition process_repo (env : Env) (url owner name : str)
  : M (str * bool) :=
  update_repo_metadata url (py "ingesting") false ;;;
  r <- try_except
         (success <- Ingest.ingest env owner name ;;
          if success then ret (py "ingested", true)
          else ret (py "failed_to_ingest", false))
         (fun e =>
            log ERROR (MsgFailedToIngest url e) ;;;
            ret (py "failed", false)) ;;
  update_repo_metadata url (fst r) (snd r) ;;;
  log INFO (MsgStatus (fst r)) ;;;
  ret r.

End Worker.

(* ================================================================== *)
(** * Shapes of the inputs the specification talks about *)
(* ================================================================== *)

Module Shapes.

Import LangChain Ingest.

(** ** Tree listings *)


(** An indent made of the units chosen by [us] ([true] for the bar
    unit, [false] for four spaces). *)
Definition units_str (us : list bool) : str :=
  flat_map (fun b : bool => if b then unit_bar else unit_spaces) us.







(** [a] is the text before the first occurrence of [sep] in [s]. *)
Definition first_split (sep s a b : str) : Prop :=
  s = a ++ sep ++ b
  /\ forall a' b', s = a' ++ sep ++ b' -> length a <= length a'.

(** ** Dumps *)

(** A block of a dump: the text after [FILE: ] on its header line and
    the lines of its body. *)
Record Block := {
  header : str;
  body : list str
}.

Definition block_name (b : Block) : str := strip (header b).

Definition header_line (b : Block) : str := FILE_PREFIX ++ header b.

(** The block without the boundary that closes it. *)
Definition open_lines (b : Block) : list str :=
  [boundary_line; header_line b; boundary_line] ++ body b.

(** The block framed by three boundary lines of its own. *)
Definition block_lines (b : Block) : list str :=
  open_lines b ++ [boundary_line].

(** A well-formed block: a name is left after trimming and no body
    line is a boundary line. *)
Definition well_formed (b : Block) : Prop :=
  block_name b <> [] /\ Forall (fun l => l <> boundary_line) (body b).

(** The lines the demuxer sees: every chunk decoded and split on its
    own; [None] when a chunk does not decode. *)
Fixpoint chunk_lines (chunks : list bytes) : option (list str) :=
  match chunks with
  | [] => Some []
  | c :: cs =>
      match utf8_decode c, chunk_lines cs with
      | Some text, Some ls => Some (splitlines text ++ ls)
      | _, _ => None
      end
  end.

(** The bytes a text-mode write of [text] adds to a file. *)
Definition written (text : str) : bytes :=
  match utf8_encode text with Some b => b | None => [] end.

(** The staging directory after [text] was appended to [path]. *)
Definition appended (path text : str) (f : list (str * bytes))
  : list (str * bytes) :=
  assign path
         (match lookup path f with Some b => b | None => [] end
          ++ written text) f.

(** Lines written with the line ending [nl] after each. *)
Definition text_of (nl : str) (ls : list str) : str :=
  flat_map (fun l => l ++ nl) ls.

(** A Unicode scalar value: what the UTF-8 codec can carry. *)
Definition scalar (c : char) : bool :=
  ((c <? 55296) || (57343 <? c) && (c <? 1114112))%N.

Definition no_linebreak (l : str) : bool :=
  forallb (fun c => negb (is_linebreak c)) l.

(** The demuxer between two blocks, with the records made so far. *)
Definition idle (d : FileDict) : DemuxState :=
  {| file_marker := (false, false, false);
     file_content := [];
     cur_name := None;
     file_dict := d |}.

(** The demuxer inside a block. *)
Definition inside (m1 m2 : bool) (content : list str) (name : option str)
           (d : FileDict) : DemuxState :=
  {| file_marker := (true, m1, m2);
     file_content := content;
     cur_name := name;
     file_dict := d |}.

Section Staging.

Variable env : Env.
Variables o n : str.

(** The record a flushed block leaves in [file_dict]. *)
Definition record_block (d : FileDict) (b : Block) : FileDict :=
  assign (block_name b)
         {| path := source_path env o n (block_name b);
            extension := snd (splitext (block_name b)) |} d.

(** The text a flushed block adds to its staged file. *)
Definition staged_text (b : Block) : str := join [LF] (body b) ++ [LF].

(** The staging directory after a block was flushed. *)
Definition stage_block (f : list (str * bytes)) (b : Block)
  : list (str * bytes) :=
  appended (source_path env o n (block_name b)) (staged_text b) f.

(** The world after a block was flushed. *)
Definition flushed (w : World) (b : Block) : World :=
  set_logs (logs w ++ [(INFO, MsgCompletedWriting (block_name b))])
           (set_fs (stage_block (fs w) b) w).

End Staging.

End Shapes.

(* ================================================================== *)
(** * Sample environments and inputs *)
(* ================================================================== *)

Module Scenario.

Import LangChain Ingest Shapes.

(** The extension table [{python: ['.py'], markdown: ['.md']}]. *)
Definition sample_table : list (str * list str) :=
  [(py "python", [py ".py"]); (py "markdown", [py ".md"])].

(** Metadata the demuxer records for a file staged at [p]. *)
Definition meta_for (p fname : str) : FileMeta :=
  {| path := p; extension := snd (splitext fname) |}.

(** A splitter that returns the whole text as one chunk. *)
Definition one_chunk (_ : option str) (content : str)
  : option (list (nat * str)) :=
  match content with
  | [] => Some []
  | _ :: _ => Some [(0, content)]
  end.

(** Collaborators: a dump provider answering [dump] (or raising), and
    a vector store refusing the batches of the files [bad]. *)
Definition env_with (dump : option (str * str * str)) (bad : list str)
  : Env :=
  {| cwd := py "/app";
     fetch_dump := fun _ => dump;
     supported_languages := Some sample_table;
     language_member :=
       fun l => existsb (str_eqb l) [py "python"; py "markdown"];
     create_documents := one_chunk;
     recreate_ok := fun _ => true;
     embedding_ok := true;
     add_documents_ok :=
       fun _ docs =>
         negb (existsb (fun d => existsb (str_eqb (doc_name d)) bad) docs) |}.

(** The dump provider is down; everything else answers. *)
Definition env_ok : Env := env_with None [].

Definition empty_world : World :=
  {| fs := []; logs := []; collections := [];
     add_documents_calls := []; status_updates := [] |}.

Definition owner : str := py "octo".
Definition repo : str := py "demo".

(** A world whose staging directory holds [content.txt] only. *)
Definition world_with_dump (env : Env) (data : bytes) : World :=
  set_fs [(content_file env owner repo, data)] empty_world.

(** Text of a dump given line by line, every line ended by [\n]. *)
Definition dump_of (ls : list string) : bytes :=
  pyb (String.concat EmptyString
         (map (fun l => String.append l
                          (String (Ascii.ascii_of_nat 10) EmptyString)) ls)).

Definition BOUNDARY : string :=
  "================================================"%string.

(** Names and recorded extensions of a parse result. *)
Definition records_of (r : (exn + option FileDict) * World)
  : option (list (str * str)) :=
  match fst r with
  | inr (Some fd) => Some (map (fun e => (fst e, extension (snd e))) fd)
  | _ => None
  end.

Definition repo_url_text : str := py "https://github.com/octo/demo".

(** Two files, each block framed by three boundary lines of its own. *)
Definition dump_two_files : list string :=
  [BOUNDARY; "FILE: a.py"%string; BOUNDARY; "print(1)"%string; BOUNDARY;
   BOUNDARY; "FILE: b.txt"%string; BOUNDARY; "hello"%string; BOUNDARY].

(** The dump provider answers with the two files; the vector store
    refuses the batch of [a.py]. *)
Definition env_a_fails : Env :=
  env_with (Some ([], [], py (String.concat EmptyString
                                (map (fun l => String.append l
                                   (String (Ascii.ascii_of_nat 10) EmptyString))
                                   dump_two_files))))
           [py "a.py"].

(** The staging directory after the two files were materialised. *)
Definition world_two_staged : World :=
  set_fs [(source_path env_a_fails owner repo (py "a.py"),
           pyb "print(1)
");
          (source_path env_a_fails owner repo (py "b.txt"),
           pyb "hello
")] empty_world.

Definition two_files : FileDict :=
  [(py "a.py", meta_for (source_path env_a_fails owner repo (py "a.py"))
                        (py "a.py"));
   (py "b.txt", meta_for (source_path env_a_fails owner repo (py "b.txt"))
                         (py "b.txt"))].

(** Names of the files whose batches reached [add_documents]. *)
Definition upserted_files (w : World) : list str :=
  flat_map (fun call => map doc_name (snd call)) (add_documents_calls w).



(** The two blocks of [dump_two_files]. *)
Definition block_a : Block := {| header := py "a.py"; body := [py "print(1)"] |}.
Definition block_b : Block := {| header := py "b.txt"; body := [py "hello"] |}.

(** The same, the last closing boundary left out. *)
Definition dump_two_files_open : list string :=
  [BOUNDARY; "FILE: a.py"%string; BOUNDARY; "print(1)"%string; BOUNDARY;
   BOUNDARY; "FILE: b.txt"%string; BOUNDARY; "hello"%string].

(** A last block for an empty file, with and without the boundary that
    closes it. *)
Definition dump_empty_last : list string :=
  [BOUNDARY; "FILE: a.py"%string; BOUNDARY; "print(1)"%string; BOUNDARY;
   BOUNDARY; "FILE: empty.py"%string; BOUNDARY; BOUNDARY].

Definition dump_empty_last_open : list string :=
  [BOUNDARY; "FILE: a.py"%string; BOUNDARY; "print(1)"%string; BOUNDARY;
   BOUNDARY; "FILE: empty.py"%string; BOUNDARY].

(** Blocks as the dump provider writes them: two boundary lines around
    the header, the body, a blank line; the next block's opening
    boundary is the only line between two bodies. *)
Definition dump_shared_two : list string :=
  [BOUNDARY; "FILE: a.py"%string; BOUNDARY; "print(1)"%string; ""%string;
   BOUNDARY; "FILE: b.txt"%string; BOUNDARY; "hello"%string; ""%string;
   BOUNDARY].

Definition dump_shared_three : list string :=
  [BOUNDARY; "FILE: a.py"%string; BOUNDARY; "print(1)"%string; ""%string;
   BOUNDARY; "FILE: b.txt"%string; BOUNDARY; "hello"%string; ""%string;
   BOUNDARY; "FILE: c.md"%string; BOUNDARY; "# c"%string; ""%string;
   BOUNDARY].

(** A dump with [\r\n] line ends that names [notes.txt] in two blocks,
    the second left open and without a line end after its body. *)
Definition dump_crlf : bytes :=
  map (fun c => Files.byte_of c)
      (text_of [CR; LF]
               [boundary_line; py "FILE: notes.txt"; boundary_line;
                py "one"; py "two"; boundary_line;
                boundary_line; py "FILE: notes.txt"; boundary_line]
       ++ py "three").

Definition notes_1 : Block :=
  {| header := py "notes.txt"; body := [py "one"; py "two"] |}.
Definition notes_2 : Block :=
  {| header := py "notes.txt"; body := [py "three"] |}.

(** A dump of two blocks in which a read of [cs] bytes ends inside the
    header of the second: the body of [a.txt] is one line of [cs - 216]
    letters, and the first [cs] bytes end with [FILE: b]. *)
Definition straddle_head : bytes :=
  dump_of [BOUNDARY; "FILE: a.txt"%string; BOUNDARY].

Definition straddle_tail : bytes :=
  dump_of [""%string; BOUNDARY; BOUNDARY; "FILE: bcd.py"%string; BOUNDARY;
           "y"%string; BOUNDARY].

Definition straddling_dump (cs : nat) : bytes :=
  straddle_head ++ repeat "x"%byte (cs - 216) ++ straddle_tail.

Definition long_line (cs : nat) : str := repeat 120%N (cs - 216).

Definition block_long (cs : nat) : Block :=
  {| header := py "a.txt"; body := [long_line cs] |}.

Definition block_bcd : Block :=
  {| header := py "bcd.py"; body := [py "y"] |}.

(** The lines that follow the first block when the second header is
    read in two pieces. *)
Definition torn_lines : list str :=
  [boundary_line; py "FILE: b"; py "cd.py"; boundary_line; py "y";
   boundary_line].

(** Content of a staged file, as text. *)
Definition staged_at (env : Env) (fname : str) (w : World) : option str :=
  match lookup (source_path env owner repo fname) (fs w) with
  | Some b => utf8_decode b
  | None => None
  end.

(** One block holding a file named [A.PY]. *)
Definition dump_upper : bytes :=
  dump_of [BOUNDARY; "FILE: A.PY"%string; BOUNDARY; "x = 1"%string; BOUNDARY].

End Scenario.

(* ================================================================== *)
(** * Notions used by the proofs *)
(* ================================================================== *)

Module Notions.

Import LangChain Ingest Shapes Scenario.

(** A record of [file_dict] holds what the name determines. *)
Definition recorded (env : Env) (o n : str) (e : str * FileMeta) : Prop :=
  extension (snd e) = snd (splitext (fst e))
  /\ path (snd e) = source_path env o n (fst e).



Definition is_marker (m : str) : Prop := m = marker_corner \/ m = marker_tee.

(** The three line endings of text files. *)
Definition line_end (nl : str) : Prop :=
  nl = [LF] \/ nl = [CR; LF] \/ nl = [CR].

(** Two runs agree when they end the same way and leave the same
    files; the log records may differ. *)
Definition agree {A} (r1 r2 : (exn + A) * World) : Prop :=
  fst r1 = fst r2 /\ fs (snd r1) = fs (snd r2).

(** [m] looks at nothing but the files. *)
Definition files_only {A} (m : M A) : Prop :=
  forall w1 w2, fs w1 = fs w2 -> agree (m w1) (m w2).

(** The first [cs] bytes of [straddling_dump cs] and the rest. *)
Definition first_read (cs : nat) : bytes :=
  straddle_head ++ repeat "x"%byte (cs - 216) ++ firstn 106 straddle_tail.

Definition second_read : bytes := skipn 106 straddle_tail.

(** Unfold the monad. *)
Ltac run :=
  unfold bind, ret, raise, log, modify, get_world, try_except in *.

(** Boolean comparisons of hypotheses as propositions. *)
Ltac b2p :=
  repeat match goal with
         | H : _ && _ = true |- _ => apply andb_true_iff in H; destruct H
         | H : (_ <=? _)%N = true |- _ => apply N.leb_le in H
         | H : (_ <? _)%N = true |- _ => apply N.ltb_lt in H
         | H : (_ <? _)%N = false |- _ => apply N.ltb_ge in H
         | H : (_ =? _)%N = true |- _ => apply N.eqb_eq in H
         | H : (_ =? _)%N = false |- _ => apply N.eqb_neq in H
         end.

End Notions.

(* ================================================================== *)
(** * services/git.py *)
(* ================================================================== *)

Module Git.

(** [s.split(c)] for a separator of one character. *)
Fixpoint split_char (c : char) (s : str) : list str :=
  match s with
  | [] => [[]]
  | d :: s' =>
      if N.eqb d c then [] :: split_char c s'
      else cons_first d (split_char c s')
  end.

(** [parse_repo_url]: the last two parts of the URL cut at [/], the
    trailing slashes dropped first.  [parts[-2]] raises [IndexError]
    when there is one part only. *)
Definition parse_repo_url (repo_url : str) : exn + (str * str) :=
  let repo_url := rstrip [SLASH] repo_url in
  let parts := split_char SLASH repo_url in
  match rev parts with
  | name :: owner :: _ => inr (owner, name)
  | _ => inl IndexError
  end.

End Git.

(* ================================================================== *)
(** * More notions used by the proofs *)
(* ================================================================== *)

Module MoreNotions.

Import LangChain Ingest Shapes.



(** Settle the comparison the goal branches on. *)
Ltac compare_step :=
  match goal with
  | |- (if ?c then _ else _) = _ =>
      match c with
      | context [(?a =? ?b)%N] => destruct (N.eqb_spec a b)
      | context [(?a <? ?b)%N] => destruct (N.ltb_spec a b)
      | context [(?a <=? ?b)%N] => destruct (N.leb_spec a b)
      end; try (exfalso; lia); cbn [andb]
  end.

Ltac compare_all := repeat compare_step.

End MoreNotions.

(* ================================================================== *)
(** * Notions about the flow of control *)
(* ================================================================== *)

Module FlowNotions.

Import LangChain Ingest Shapes.

(** No exception escapes [m]. *)
Definition returns {A} (m : M A) : Prop :=
  forall w, exists a, fst (m w) = inr a.

(** [m] leaves the part [f] of the world as it was, however it ends. *)
Definition leaves {B} (f : World -> B) {A} (m : M A) : Prop :=
  forall w, f (snd (m w)) = f w.

(** The vector store: its collections and the calls made to
    [add_documents]. *)
Definition store (w : World) :=
  (collections w, add_documents_calls w).

(** What holds of the demuxer's state between two lines: a header was
    seen only together with a name, and the lines collected can be
    written. *)
Definition demux_inv (st : DemuxState) : Prop :=
  (snd (fst (file_marker st)) = true -> cur_name st <> None)
  /\ Forall (fun l => forallb scalar l = true) (file_content st).

End FlowNotions.

(* ================================================================== *)
(** * Notions about the orchestrator *)
(* ================================================================== *)

Module OrchestratorNotions.

Import LangChain Ingest.

(** What the loop of [_ingest_into_vector_store] does to get the
    documents of one file: build the splitter, then split. *)
Definition split_file (env : Env) (item : str * FileMeta)
  : M (list Document) :=
  splitter <- __init__ env (fst item) (snd item) ;;
  split env splitter.

(** The documents of one file in the world [w]; [None] when building
    the splitter or splitting raises. *)
Definition documents_of (env : Env) (w : World) (item : str * FileMeta)
  : option (list Document) :=
  match fst (split_file env item w) with
  | inr d => Some d
  | inl _ => None
  end.

Definition nonempty {A} (l : list A) : bool :=
  match l with [] => false | _ :: _ => true end.

(** The parts of the world a splitter has no hand in. *)
Definition beside_logs (w : World) :=
  (fs w, collections w, add_documents_calls w).

End OrchestratorNotions.


(* ================================================================== *)
(** * A dump that names a file by an absolute path *)
(* ================================================================== *)

Module MoreScenario.

Import LangChain Ingest Shapes Scenario.

Definition dump_absolute : bytes :=
  dump_of [BOUNDARY; "FILE: /srv/x.txt"%string; BOUNDARY; "hello"%string;
           BOUNDARY].

Definition block_absolute : Block :=
  {| header := py "/srv/x.txt"; body := [py "hello"] |}.

(** The record [_parse_repo_contents] makes for the name [k]. *)
Definition record_for (env : Env) (o n k : str) : FileMeta :=
  {| path := source_path env o n k; extension := snd (splitext k) |}.

End MoreScenario.


(* ================================================================== *)
(** * Collaborators without a language table *)
(* ================================================================== *)

Module TableScenario.

Import LangChain Ingest Shapes Scenario.

(** [config/supported_languages.yml] cannot be loaded; everything else
    answers. *)
Definition env_no_table : Env :=
  {| cwd := py "/app";
     fetch_dump := fun _ => None;
     supported_languages := None;
     language_member := fun _ => true;
     create_documents := one_chunk;
     recreate_ok := fun _ => true;
     embedding_ok := true;
     add_documents_ok := fun _ _ => true |}.

End TableScenario.


(* ================================================================== *)
(** * Facts about the built-ins *)
(* ================================================================== *)

Module PyFacts.

Lemma str_eqb_eq (a b : str) : str_eqb a b = true <-> a = b.
Proof.
  revert b; induction a as [|x a IH]; intros [|y b]; simpl;
    try (split; [discriminate | congruence]); try tauto.
  rewrite andb_true_iff, N.eqb_eq, IH.
  split; [intros [-> ->]; reflexivity | intros H; inversion H; auto].
Qed.

Lemma str_eqb_refl (a : str) : str_eqb a a = true.
Proof. apply str_eqb_eq; reflexivity. Qed.

Lemma str_eqb_neq (a b : str) : str_eqb a b = false <-> a <> b.
Proof.
  rewrite <- str_eqb_eq. destruct (str_eqb a b); split; congruence.
Qed.

Lemma existsb_str_eqb (x : str) (l : list str) :
  existsb (str_eqb x) l = true <-> In x l.
Proof.
  rewrite existsb_exists; split.
  - intros [y [Hin He]]. apply str_eqb_eq in He. subst; assumption.
  - intros Hin. exists x. split; [assumption | apply str_eqb_refl].
Qed.

Lemma existsb_str_eqb_false (x : str) (l : list str) :
  existsb (str_eqb x) l = false <-> ~ In x l.
Proof.
  rewrite <- existsb_str_eqb. destruct (existsb _ l); split; congruence.
Qed.

(** Assignment to a mapping: what an entry of the result can be. *)
Lemma In_assign {V} (k k0 : str) (v v0 : V) (m : list (str * V)) :
  In (k, v) (assign k0 v0 m) -> (k, v) = (k0, v0) \/ In (k, v) m.
Proof.
  induction m as [|[k' v'] m IH]; simpl.
  - intros [H|[]]; left; congruence.
  - destruct (str_eqb k0 k'); simpl; intros [H|H]; auto.
    destruct (IH H); auto.
Qed.

Lemma lookup_assign_same {V} (k : str) (v : V) (m : list (str * V)) :
  lookup k (assign k v m) = Some v.
Proof.
  induction m as [|[k' v'] m IH]; simpl.
  - rewrite str_eqb_refl; reflexivity.
  - destruct (str_eqb k k') eqn:E; simpl.
    + rewrite str_eqb_refl; reflexivity.
    + rewrite E; exact IH.
Qed.

Lemma lookup_assign_other {V} (k k0 : str) (v : V) (m : list (str * V)) :
  k <> k0 -> lookup k (assign k0 v m) = lookup k m.
Proof.
  intros Hne. induction m as [|[k' v'] m IH]; simpl.
  - apply str_eqb_neq in Hne. rewrite Hne; reflexivity.
  - destruct (str_eqb k0 k') eqn:E; simpl.
    + apply str_eqb_eq in E; subst k'.
      apply str_eqb_neq in Hne. rewrite Hne; reflexivity.
    + destruct (str_eqb k k'); [reflexivity | exact IH].
Qed.

Lemma lookup_assign_some {V} (k k0 : str) (v : V) (m : list (str * V)) :
  lookup k m <> None -> lookup k (assign k0 v m) <> None.
Proof.
  intros H. destruct (str_eqb k k0) eqn:E.
  - apply str_eqb_eq in E; subst. rewrite lookup_assign_same; discriminate.
  - apply str_eqb_neq in E. rewrite lookup_assign_other; assumption.
Qed.

(** A new key goes last; the keys already present keep their order. *)
Lemma assign_fresh {V} (k : str) (v : V) (m : list (str * V)) :
  ~ In k (map fst m) -> assign k v m = m ++ [(k, v)].
Proof.
  induction m as [|[k' v'] m IH]; simpl; intros Hn; [reflexivity|].
  destruct (str_eqb k k') eqn:E.
  - apply str_eqb_eq in E. subst. tauto.
  - rewrite IH; tauto.
Qed.

End PyFacts.

Import PyFacts Notions.

(* ================================================================== *)
(** * Facts about computations *)
(* ================================================================== *)

Module MFacts.

(** A loop invariant holds of the state a [for] loop ends with. *)
Lemma for_each_invariant {A S} (I : S -> Prop) (body : A -> S -> M S) :
  (forall x s w s' w', I s -> body x s w = (inr s', w') -> I s') ->
  forall xs s w s' w',
    I s -> for_each xs body s w = (inr s', w') -> I s'.
Proof.
  intros Hbody xs; induction xs as [|x xs IH]; simpl; intros s w s' w' Hs.
  - unfold ret; intros H; inversion H; subst; assumption.
  - unfold bind. destruct (body x s w) as [[e|s1] w1] eqn:E.
    + discriminate.
    + apply IH. eapply Hbody; eauto.
Qed.

(** A loop over a concatenation runs the two loops in turn. *)
Lemma for_each_app {A S} (body : A -> S -> M S) (xs ys : list A) s w :
  for_each (xs ++ ys) body s w =
  bind (for_each xs body s) (for_each ys body) w.
Proof.
  revert s w; induction xs as [|x xs IH]; simpl; intros s w.
  - reflexivity.
  - unfold bind in *. destruct (body x s w) as [[e|s1] w1].
    + reflexivity.
    + apply IH.
Qed.

(** An exception raised by the body ends the loop: the items after
    the raising one are not visited. *)
Lemma for_each_raise {A S} (body : A -> S -> M S) pre x post s w s1 w1 e w2 :
  for_each pre body s w = (inr s1, w1) ->
  body x s1 w1 = (inl e, w2) ->
  for_each (pre ++ x :: post) body s w = (inl e, w2).
Proof.
  intros Hpre Hx. rewrite for_each_app. unfold bind at 1. rewrite Hpre.
  simpl. unfold bind. rewrite Hx. reflexivity.
Qed.

(** A sequence that returns: both parts returned. *)
Lemma bind_inr {A B} (m : M A) (k : A -> M B) w b w' :
  bind m k w = (inr b, w') ->
  exists a w1, m w = (inr a, w1) /\ k a w1 = (inr b, w').
Proof.
  unfold bind. destruct (m w) as [[e|a] w1]; [discriminate|].
  intros H. exists a, w1. split; [reflexivity | assumption].
Qed.

Lemma ret_inr {A} (a b : A) w w' :
  ret a w = (inr b, w') -> a = b /\ w = w'.
Proof. unfold ret. intros H; inversion H; auto. Qed.

End MFacts.

Import MFacts.

(* ================================================================== *)
(** * Language inference (services/lang_chain.py) *)
(* ================================================================== *)

Module LangChainProps.

Import LangChain Scenario.

Lemma find_extension_none (ext : str) (table : list (str * list str)) :
  (forall lang exts, In (lang, exts) table -> ~ In ext exts) ->
  find (fun le => existsb (str_eqb ext) (snd le)) table = None.
Proof.
  induction table as [|[lang exts] table IH]; simpl; intros H.
  - reflexivity.
  - assert (E : existsb (str_eqb ext) exts = false).
    { apply existsb_str_eqb_false. apply (H lang). left; reflexivity. }
    rewrite E. apply IH. intros l e Hin. apply (H l). right; assumption.
Qed.

(** C9. A file whose extension is in no entry of the configured table
    is classified as plain text: [__init__] returns normally, the
    failed lookup leaves an information record and a warning and no
    error record.  With the table [{python: ['.py'], markdown:
    ['.md']}], [README.md] is classified as markdown and
    [x.unknownext] gets the generic splitter. *)
Theorem C9_unknown_extension_is_plain_text
        (env : Env) (table : list (str * list str)) (w : World)
        (Htable : supported_languages env = Some table) :
  (forall fname meta,
      (forall lang exts, In (lang, exts) table -> ~ In (extension meta) exts) ->
      __init__ env fname meta w =
      (inr {| file_name := fname;
              self_path := path meta;
              self_extension := extension meta;
              self_language := PlainText |},
       set_logs (logs w ++ [(INFO, MsgLanguageNotFound fname)]
                        ++ [(WARNING, MsgErrorInferring fname ValueError)])
                w))
  /\ (table = sample_table ->
      language_member env (py "markdown") = true ->
      forall p q,
        option_map (fun s => self_language s)
          (match fst (__init__ env (py "README.md")
                               (meta_for p (py "README.md")) w) with
           | inr s => Some s | inl _ => None end)
        = Some (Language (py "markdown"))
        /\ option_map (fun s => splitter_language (self_language s))
             (match fst (__init__ env (py "x.unknownext")
                                  (meta_for q (py "x.unknownext")) w) with
              | inr s => Some s | inl _ => None end)
           = Some None).
Proof.
  split.
  - intros fname meta Hno.
    unfold __init__, _infer_language, try_except, bind.
    rewrite Htable, (find_extension_none _ _ Hno).
    unfold log, modify, raise, ret, bind; simpl.
    unfold set_logs; simpl. rewrite <- app_assoc. reflexivity.
  - intros -> Hmd p q.
    unfold __init__, _infer_language, try_except, bind.
    rewrite Htable. simpl. rewrite Hmd. simpl. split; reflexivity.
Qed.

Lemma C9_witness :
  fst (__init__ env_ok (py "notes.rst") (meta_for [] (py "notes.rst"))
                empty_world)
  = inr {| file_name := py "notes.rst";
           self_path := [];
           self_extension := py ".rst";
           self_language := PlainText |}.
Proof.
  pose proof (C9_unknown_extension_is_plain_text env_ok empty_world
                (table := sample_table) eq_refl) as [H _].
  rewrite (H (py "notes.rst") (meta_for [] (py "notes.rst"))).
  - reflexivity.
  - intros lang exts Hin Hext. simpl in Hin.
    destruct Hin as [Hin|[Hin|[]]]; inversion Hin; subst;
      simpl in Hext; destruct Hext as [Hext|[]]; discriminate Hext.
Defined.

End LangChainProps.

(* ================================================================== *)
(** * Recorded extensions (services/ingest.py) *)
(* ================================================================== *)

Module ExtensionProps.

Import LangChain Ingest Scenario.

Lemma Forall_assign {V} (P : str * V -> Prop) k v (m : list (str * V)) :
  P (k, v) -> Forall P m -> Forall P (assign k v m).
Proof.
  intros Hk Hm. apply Forall_forall. intros [k' v'] Hin.
  destruct (In_assign _ _ _ _ _ Hin) as [E|Hin'].
  - rewrite E; assumption.
  - rewrite Forall_forall in Hm. apply Hm; assumption.
Qed.

(** What a flush that returns has added to [file_dict]. *)
Lemma flush_returns env o n fname content d w d' w' :
  flush env o n fname content d w = (inr d', w') ->
  d' = assign fname {| path := source_path env o n fname;
                       extension := snd (splitext fname) |} d.
Proof.
  unfold flush, append_text. run.
  destruct (utf8_encode (join [LF] content ++ [LF])); simpl;
    intros H; inversion H; reflexivity.
Qed.

Section Invariant.

Variable env : Env.
Variables o n : str.

Lemma process_line_recorded line st w st' w' :
  Forall (recorded env o n) (file_dict st) ->
  process_line env o n line st w = (inr st', w') ->
  Forall (recorded env o n) (file_dict st').
Proof.
  intros Hinv. unfold process_line.
  destruct (file_marker st) as [[m0 m1] m2].
  destruct (str_eqb line boundary_line);
    [destruct (negb (m0 || m1 || m2));
     [|destruct (m0 && m1 && negb m2);
       [|destruct (m0 && m1 && m2);
         [destruct (cur_name st) as [fname|]|]]]
    |destruct (m0 && negb m1 && startswith line FILE_PREFIX);
     [|destruct (m0 && m1 && m2)]];
    run; try (intros H; inversion H; subst; simpl; assumption).
  destruct (flush env o n fname (file_content st) (file_dict st) w)
    as [[e|d] w1] eqn:E; intros H; inversion H; subst; simpl.
  apply flush_returns in E. subst d.
  apply Forall_assign; [split; reflexivity | assumption].
Qed.

Lemma process_chunk_recorded chunk st w st' w' :
  Forall (recorded env o n) (file_dict st) ->
  process_chunk env o n chunk st w = (inr st', w') ->
  Forall (recorded env o n) (file_dict st').
Proof.
  intros Hinv. unfold process_chunk. run.
  destruct (utf8_decode chunk) as [text|]; [|discriminate].
  apply (for_each_invariant (fun s => Forall (recorded env o n) (file_dict s)));
    [|assumption].
  intros; eapply process_line_recorded; eauto.
Qed.

Lemma parse_recorded cs w fd :
  fst (parse_repo_contents_chunked env o n cs w) = inr (Some fd) ->
  Forall (recorded env o n) fd.
Proof.
  destruct (parse_repo_contents_chunked env o n cs w) as [r w'] eqn:E.
  simpl. intros ->. unfold parse_repo_contents_chunked in E.
  apply bind_inr in E as (ex & w1 & _ & E).
  destruct ex; simpl in E.
  2:{ apply bind_inr in E as (? & ? & _ & E).
      apply ret_inr in E as [E _]. discriminate E. }
  apply bind_inr in E as (data & w2 & _ & E).
  apply bind_inr in E as (st & w3 & Eloop & E).
  apply bind_inr in E as (d & w4 & Eflush & E).
  apply bind_inr in E as (? & ? & _ & E).
  apply ret_inr in E as [E _]. inversion E; subst d. clear E.
  assert (Hst : Forall (recorded env o n) (file_dict st)).
  { revert Eloop.
    apply (for_each_invariant (fun s => Forall (recorded env o n) (file_dict s)));
      [|constructor].
    intros; eapply process_chunk_recorded; eauto. }
  unfold final_flush in Eflush.
  destruct (cur_name st) as [[|c fname]|];
    try (apply ret_inr in Eflush as [<- _]; assumption).
  destruct (file_content st) as [|l ls];
    try (apply ret_inr in Eflush as [<- _]; assumption).
  apply flush_returns in Eflush. subst.
  apply Forall_assign; [split; reflexivity | assumption].
Qed.

End Invariant.

(** The last occurrence found by [rfind] starts a suffix with no
    further occurrence. *)
Lemma rfind_Some c s i :
  rfind c s = Some i -> exists t, skipn i s = c :: t /\ ~ In c t.
Proof.
  revert i; induction s as [|d s IH]; simpl; intros i; [discriminate|].
  destruct (rfind c s) as [j|] eqn:E.
  - intros H; inversion H; subst. simpl. apply IH; reflexivity.
  - destruct (N.eqb d c) eqn:Ed; [|discriminate].
    intros H; inversion H; subst. apply N.eqb_eq in Ed. subst d.
    exists s. split; [reflexivity|].
    clear IH H. induction s as [|x s IHs]; simpl in *; [tauto|].
    destruct (rfind c s); [discriminate|].
    destruct (N.eqb x c) eqn:Ex; [discriminate|].
    apply N.eqb_neq in Ex. intros [->|Hin]; [congruence|].
    apply IHs; [reflexivity | assumption].
Qed.

Lemma rfind_None c s : rfind c s = None -> ~ In c s.
Proof.
  induction s as [|d s IH]; simpl; [tauto|].
  destruct (rfind c s); [discriminate|].
  destruct (N.eqb d c) eqn:Ed; [discriminate|].
  apply N.eqb_neq in Ed. intros _ [->|Hin]; [congruence|].
  apply IH; [reflexivity | assumption].
Qed.

Lemma not_In_rfind c s : ~ In c s -> rfind c s = None.
Proof.
  induction s as [|d s IH]; simpl; intros H; [reflexivity|].
  rewrite IH by tauto.
  destruct (N.eqb d c) eqn:Ed; [|reflexivity].
  apply N.eqb_eq in Ed. subst. tauto.
Qed.

(** Shape of the extension [os.path.splitext] returns. *)
Lemma splitext_shape (p : str) :
  fst (splitext p) ++ snd (splitext p) = p
  /\ (snd (splitext p) = []
      \/ exists t, snd (splitext p) = DOT :: t /\ ~ In DOT t)
  /\ (~ In DOT p -> snd (splitext p) = []).
Proof.
  unfold splitext. split; [|split].
  - destruct (rfind DOT p) as [i|]; simpl; [|apply app_nil_r].
    destruct (i <? _); simpl; [apply app_nil_r|].
    destruct (forallb _ _); simpl; [apply app_nil_r | apply firstn_skipn].
  - destruct (rfind DOT p) as [i|] eqn:E; simpl; [|left; reflexivity].
    destruct (i <? _); simpl; [left; reflexivity|].
    destruct (forallb _ _); simpl; [left; reflexivity|].
    right. apply rfind_Some; assumption.
  - intros H. rewrite (not_In_rfind _ _ H). reflexivity.
Qed.

(** C8, as the code has it.  Every record of the parse result holds
    the extension [os.path.splitext] gives for the logical name, in
    the case the name has it: nothing lower-cases it.  That extension
    is a suffix of the name, is empty or starts at the name's last
    dot, and is empty for a name without a dot; [A.PY] is recorded
    with [.PY]. *)
Theorem C8_extension_is_splitext
        (env : Env) (o n : str) (cs : nat) (w : World) (fd : FileDict)
        (Hrun : fst (parse_repo_contents_chunked env o n cs w)
                = inr (Some fd)) :
  Forall (fun e => extension (snd e) = snd (splitext (fst e))
                   /\ path (snd e) = source_path env o n (fst e)) fd
  /\ (forall fname,
        fst (splitext fname) ++ snd (splitext fname) = fname
        /\ (snd (splitext fname) = []
            \/ exists t, snd (splitext fname) = DOT :: t /\ ~ In DOT t)
        /\ (~ In DOT fname -> snd (splitext fname) = []))
  /\ snd (splitext (py "A.PY")) = py ".PY".
Proof.
  split; [|split].
  - exact (parse_recorded _ _ _ _ _ Hrun).
  - exact splitext_shape.
  - reflexivity.
Qed.

Lemma C8_witness :
  Forall (fun e => extension (snd e) = snd (splitext (fst e))
                   /\ path (snd e) = source_path env_ok owner repo (fst e))
         [(py "A.PY",
           {| path := source_path env_ok owner repo (py "A.PY");
              extension := py ".PY" |})].
Proof.
  apply (C8_extension_is_splitext env_ok owner repo 4096
           (world_with_dump env_ok dump_upper)
           (fd := [(py "A.PY",
                    {| path := source_path env_ok owner repo (py "A.PY");
                       extension := py ".PY" |})])).
  vm_compute. reflexivity.
Defined.

(** C8 as stated fails: the file [A.PY] is recorded with the
    extension [.PY], which is not [.py]. *)
Lemma C8_counterexample :
  records_of (_parse_repo_contents env_ok owner repo
                (world_with_dump env_ok dump_upper))
  = Some [(py "A.PY", py ".PY")]
  /\ py ".PY" <> py ".py".
Proof.
  split; [vm_compute; reflexivity | discriminate].
Qed.

End ExtensionProps.

(* ================================================================== *)
(** * The job and the orchestrator (worker.py, services/ingest.py) *)
(* ================================================================== *)

Module JobProps.

Import LangChain Ingest Qdrant Worker Scenario.

(** C3, as the code has it.  When the dump provider raises, the
    exception is handled inside [_ingest_git_repo]; with no
    [content.txt] staged for the repository the job ends with status
    [failed_to_ingest], unavailable, both updates reach the status
    store and the staging directory is untouched. *)
Theorem C3_fetch_failure_is_failed_to_ingest
        (env : Env) (url o n : str) (w : World)
        (Hfetch : fetch_dump env (repo_url o n) = None)
        (Hnone : lookup (content_file env o n) (fs w) = None) :
  fst (process_repo env url o n w) = inr (py "failed_to_ingest", false)
  /\ status_updates (snd (process_repo env url o n w))
     = status_updates w ++ [(url, py "ingesting", false)]
                        ++ [(url, py "failed_to_ingest", false)]
  /\ fs (snd (process_repo env url o n w)) = fs w.
Proof.
  unfold process_repo, update_repo_metadata, ingest, _ingest_git_repo,
    _parse_repo_contents, parse_repo_contents_chunked, exists_.
  run. rewrite Hfetch. simpl. rewrite Hnone. simpl.
  rewrite <- app_assoc. auto.
Qed.

Lemma C3_witness :
  fst (process_repo env_ok repo_url_text owner repo empty_world)
  = inr (py "failed_to_ingest", false).
Proof.
  apply (C3_fetch_failure_is_failed_to_ingest
           env_ok repo_url_text owner repo empty_world);
    reflexivity.
Defined.

(** C3 as stated fails: the provider raises for this repository and
    the job ends with status [failed_to_ingest], not [failed]. *)
Lemma C3_counterexample :
  fetch_dump env_ok (repo_url owner repo) = None
  /\ fst (process_repo env_ok repo_url_text owner repo empty_world)
     = inr (py "failed_to_ingest", false)
  /\ py "failed_to_ingest" <> py "failed".
Proof.
  split; [reflexivity | split; [vm_compute; reflexivity | discriminate]].
Qed.

(** ** The collection, once there, stays *)

Section Keeps.

Variable name : str.
















End Keeps.





(** The loop over the files stops at the first file whose processing
    raises: the world it leaves does not depend on the files after. *)
Lemma failing_file_ends_the_loop env vs pre item post w w1 e w2 :
  for_each pre (ingest_file env vs) tt w = (inr tt, w1) ->
  ingest_file env vs item tt w1 = (inl e, w2) ->
  for_each (pre ++ item :: post) (ingest_file env vs) tt w = (inl e, w2).
Proof. apply for_each_raise. Qed.

(** C1, on the code.  The store refuses the batch of [a.py], the
    first of two staged files: the orchestrator logs one error and
    returns [False], [b.txt] is never offered to [add_documents], the
    collection stays empty, and the job is still recorded as
    [ingested]. *)
Theorem C1_upsert_failure_ends_the_batch :
  let r := _ingest_into_vector_store env_a_fails owner repo two_files
                                     world_two_staged in
  let job := process_repo env_a_fails repo_url_text owner repo empty_world in
  fst r = inr false
  /\ upserted_files (snd r) = [py "a.py"]
  /\ lookup (collection_name owner repo) (collections (snd r)) = Some []
  /\ fst job = inr (py "ingested", true)
  /\ upserted_files (snd job) = [py "a.py"]
  /\ lookup (collection_name owner repo) (collections (snd job)) = Some [].
Proof.
  vm_compute. repeat split; reflexivity.
Qed.

End JobProps.

(* ================================================================== *)
(** * The tree decoder (services/ingest.py) *)
(* ================================================================== *)

Module TreeProps.

Import Ingest Shapes.

Lemma startswith_app (s p : str) :
  startswith s p = true -> s = p ++ skipn (length p) s.
Proof.
  revert s; induction p as [|c p IH]; intros s; simpl; [reflexivity|].
  destruct s as [|d s]; [discriminate|]. simpl.
  rewrite andb_true_iff, N.eqb_eq. intros [-> H].
  rewrite <- (IH s H). reflexivity.
Qed.

Lemma app_same_length {A} (x x' y y' : list A) :
  x ++ y = x' ++ y' -> length x = length x' -> x = x' /\ y = y'.
Proof.
  revert x'; induction x as [|a x IH]; intros [|a' x']; simpl;
    try discriminate; auto.
  intros H Hl. inversion H; subst.
  destruct (IH x' H2) as [-> ->]; [lia | auto].
Qed.

Lemma startswith_prefix (p r : str) : startswith (p ++ r) p = true.
Proof.
  induction p as [|c p IH]; simpl; [reflexivity|].
  rewrite N.eqb_refl. exact IH.
Qed.

(** ** The string primitive behind the symlink rule *)

Lemma partition_sound sep s a b :
  partition sep s = Some (a, b) -> s = a ++ sep ++ b.
Proof.
  revert a; induction s as [|c s IH]; intros a; simpl.
  - destruct (startswith [] sep) eqn:E; [|discriminate].
    intros H; inversion H; subst. apply startswith_app in E. exact E.
  - destruct (startswith (c :: s) sep) eqn:E.
    + intros H; inversion H; subst. apply startswith_app in E. exact E.
    + destruct (partition sep s) as [[a0 b0]|]; [|discriminate].
      intros H; inversion H; subst. simpl. f_equal. apply IH. reflexivity.
Qed.

Lemma partition_first sep s a b :
  partition sep s = Some (a, b) ->
  forall a' b', s = a' ++ sep ++ b' -> length a <= length a'.
Proof.
  revert a; induction s as [|c s IH]; intros a; simpl.
  - destruct (startswith [] sep); [|discriminate].
    intros H; inversion H; subst. intros; simpl; lia.
  - destruct (startswith (c :: s) sep) eqn:E.
    + intros H; inversion H; subst. intros; simpl; lia.
    + destruct (partition sep s) as [[a0 b0]|]; [|discriminate].
      intros H; inversion H; subst. intros [|c' a'] b' Hs.
      * simpl in Hs. rewrite Hs, startswith_prefix in E. discriminate.
      * simpl in Hs. inversion Hs; subst. simpl.
        apply le_n_S. eapply IH; reflexivity.
Qed.

Lemma partition_complete sep a b :
  exists a0 b0, partition sep (a ++ sep ++ b) = Some (a0, b0).
Proof.
  induction a as [|c a IH]; simpl.
  - destruct (sep ++ b) as [|d r] eqn:E; simpl;
      rewrite <- E, startswith_prefix; eauto.
  - destruct (startswith (c :: a ++ sep ++ b) sep); [eauto|].
    destruct IH as (a0 & b0 & ->). eauto.
Qed.

Lemma partition_of_first_split sep s a b :
  first_split sep s a b -> partition sep s = Some (a, b).
Proof.
  intros [Hs Hmin].
  destruct (partition_complete sep a b) as (a0 & b0 & Hp).
  rewrite <- Hs in Hp.
  pose proof (@partition_sound sep s a0 b0 Hp) as Hs0.
  pose proof (@partition_first sep s a0 b0 Hp a b Hs) as H1.
  pose proof (Hmin _ _ Hs0) as H2.
  assert (Hlen : length a0 = length a) by lia.
  rewrite Hs0 in Hs.
  destruct (app_same_length _ _ _ _ Hs Hlen) as [-> Hr].
  apply app_inv_head in Hr. subst. exact Hp.
Qed.

(** ** The line pattern *)




(** The prefix group is a run of indent units, the rest follows it. *)
Lemma split_prefix_cons4 a b c d rest :
  split_prefix (a :: b :: c :: d :: rest) =
  if str_eqb [a; b; c; d] unit_spaces || str_eqb [a; b; c; d] unit_bar
  then let (p, r) := split_prefix rest in (a :: b :: c :: d :: p, r)
  else ([], a :: b :: c :: d :: rest).
Proof. reflexivity. Qed.

Lemma split_prefix_spec_n (k : nat) :
  forall line p r,
    length line <= k -> split_prefix line = (p, r) ->
    (exists us, p = units_str us) /\ line = p ++ r.
Proof.
  induction k as [|k IH]; intros line p r Hlen.
  - destruct line; [|simpl in Hlen; lia]. simpl.
    intros H; inversion H; subst. split; [exists []|]; reflexivity.
  - destruct line as [|a [|b [|c [|d rest]]]];
      try (simpl; intros H; inversion H; subst;
           split; [exists []|]; reflexivity).
    rewrite split_prefix_cons4.
    destruct (str_eqb [a; b; c; d] unit_spaces || str_eqb [a; b; c; d] unit_bar)
      eqn:E.
    + destruct (split_prefix rest) as [p0 r0] eqn:Er.
      intros H; inversion H; subst.
      destruct (IH rest p0 r) as [[us Hus] Hrest];
        [simpl in Hlen; lia | assumption |].
      split; [|simpl; rewrite Hrest at 1; reflexivity].
      apply orb_true_iff in E. destruct E as [E|E];
        apply str_eqb_eq in E; inversion E; subst.
      * exists (false :: us). reflexivity.
      * exists (true :: us). reflexivity.
    + intros H; inversion H; subst. split; [exists []|]; reflexivity.
Qed.

Lemma split_prefix_spec line p r :
  split_prefix line = (p, r) ->
  (exists us, p = units_str us) /\ line = p ++ r.
Proof. apply (@split_prefix_spec_n (length line)). apply Nat.le_refl. Qed.

(** A matching line is an indent of whole units, one of the two
    markers, and a name that is not empty. *)
Lemma line_re_match_sound line prefix name :
  line_re_match line = Some (prefix, name) ->
  exists us m,
    prefix = units_str us /\ is_marker m
    /\ line = prefix ++ m ++ name /\ name <> [].
Proof.
  unfold line_re_match.
  destruct (split_prefix line) as [p r] eqn:E.
  destruct (@split_prefix_spec line p r E) as [[us Hus] Hline].
  assert (Hm : startswith r marker_corner || startswith r marker_tee = true
               -> exists m, is_marker m /\ r = m ++ skipn 4 r).
  { intros H. apply orb_true_iff in H. destruct H as [H|H];
      apply startswith_app in H; simpl length in H;
      [exists marker_corner | exists marker_tee];
      (split; [unfold is_marker; auto | exact H]). }
  destruct (startswith r marker_corner || startswith r marker_tee);
    [|discriminate].
  destruct (Hm eq_refl) as (m & Hmk & Hr).
  destruct (skipn 4 r) as [|c nm] eqn:Es; [discriminate|].
  intros H; inversion H; subst prefix name.
  exists us, m. repeat split; try assumption; [|discriminate].
  rewrite Hline at 1. rewrite Hr at 1. reflexivity.
Qed.

Lemma split_prefix_units us m name :
  is_marker m ->
  split_prefix (units_str us ++ m ++ name) = (units_str us, m ++ name).
Proof.
  intros Hm. induction us as [|u us IH].
  - destruct Hm as [->| ->]; reflexivity.
  - destruct u; simpl units_str; simpl app;
      rewrite split_prefix_cons4; simpl orb; cbv iota;
      rewrite IH; reflexivity.
Qed.

(** Every line of that form matches, with these groups. *)
Lemma line_re_match_complete us m name :
  is_marker m -> name <> [] ->
  line_re_match (units_str us ++ m ++ name) = Some (units_str us, name).
Proof.
  intros Hm Hne. unfold line_re_match.
  rewrite (split_prefix_units us name Hm).
  destruct name as [|c name']; [congruence|].
  destruct Hm as [->| ->]; reflexivity.
Qed.




(** ** One line of the listing *)




(** ** Depth of the emitted paths *)




Lemma join_cons2 sep x y rest :
  join sep (x :: y :: rest) = x ++ sep ++ join sep (y :: rest).
Proof. reflexivity. Qed.








End TreeProps.

(* ================================================================== *)
(** * The UTF-8 codec and [splitlines] *)
(* ================================================================== *)

Module CodecProps.

Import Shapes.

Lemma scalar_iff c :
  scalar c = true <-> (c < 55296 \/ 57343 < c /\ c < 1114112)%N.
Proof.
  unfold scalar. rewrite orb_true_iff, andb_true_iff, !N.ltb_lt. tauto.
Qed.

(** Strict decoding yields scalar values only. *)
Lemma utf8_decode_scalar_n (k : nat) :
  forall b s, length b <= k -> utf8_decode b = Some s ->
              forallb scalar s = true.
Proof.
  induction k as [|k IH]; intros b s Hlen.
  - destruct b; [|simpl in Hlen; lia].
    simpl; intros H; inversion H; reflexivity.
  - destruct b as [|b0 r0]; [simpl; intros H; inversion H; reflexivity|].
    simpl in Hlen. simpl utf8_decode.
    pose proof (Byte.to_N_bounded b0) as B0.
    destruct (Byte.to_N b0 <? 128)%N eqn:E1.
    { destruct (utf8_decode r0) as [s0|] eqn:Er; simpl; [|discriminate].
      intros H; inversion H; subst. simpl.
      rewrite (IH r0 s0) by (assumption || lia).
      rewrite andb_true_r. apply scalar_iff. b2p. lia. }
    destruct ((194 <=? Byte.to_N b0) && (Byte.to_N b0 <=? 223))%N eqn:E2.
    { destruct r0 as [|b1 r1]; [discriminate|].
      destruct (in_range 128 191 b1) eqn:R1; [|discriminate].
      destruct (utf8_decode r1) as [s0|] eqn:Er; simpl; [|discriminate].
      intros H; inversion H; subst. simpl.
      rewrite (IH r1 s0) by (assumption || simpl in Hlen; lia).
      rewrite andb_true_r. apply scalar_iff.
      unfold in_range, cont in *. b2p. lia. }
    destruct ((224 <=? Byte.to_N b0) && (Byte.to_N b0 <=? 239))%N eqn:E3.
    { destruct r0 as [|b1 [|b2 r2]]; try discriminate.
      match goal with
      | |- (if ?c then _ else _) = _ -> _ => destruct c eqn:R1
      end; [|discriminate].
      destruct (utf8_decode r2) as [s0|] eqn:Er; simpl; [|discriminate].
      intros H; inversion H; subst. simpl.
      rewrite (IH r2 s0) by (assumption || simpl in Hlen; lia).
      rewrite andb_true_r. apply scalar_iff.
      unfold in_range, cont in *.
      destruct (Byte.to_N b0 =? 224)%N eqn:Ea;
        destruct (Byte.to_N b0 =? 237)%N eqn:Eb; b2p; lia. }
    destruct ((240 <=? Byte.to_N b0) && (Byte.to_N b0 <=? 244))%N eqn:E4;
      [|discriminate].
    destruct r0 as [|b1 [|b2 [|b3 r3]]]; try discriminate.
    match goal with
    | |- (if ?c then _ else _) = _ -> _ => destruct c eqn:R1
    end; [|discriminate].
    destruct (utf8_decode r3) as [s0|] eqn:Er; simpl; [|discriminate].
    intros H;inversion H; subst. simpl.
    rewrite (IH r3 s0) by (assumption || simpl in Hlen; lia).
    rewrite andb_true_r. apply scalar_iff.
    unfold in_range, cont in *.
    destruct (Byte.to_N b0 =? 240)%N eqn:Ea;
      destruct (Byte.to_N b0 =? 244)%N eqn:Eb; b2p; lia.
Qed.

Lemma utf8_decode_scalar b s :
  utf8_decode b = Some s -> forallb scalar s = true.
Proof. apply (@utf8_decode_scalar_n (length b)). apply Nat.le_refl. Qed.

(** Scalar values always encode. *)
Lemma utf8_encode_char_scalar c :
  scalar c = true -> utf8_encode_char c <> None.
Proof.
  intros H. apply scalar_iff in H. unfold utf8_encode_char.
  destruct (c <? 128)%N; [discriminate|].
  destruct (c <? 2048)%N; [discriminate|].
  destruct (c <? 65536)%N eqn:E3.
  - destruct ((55296 <=? c) && (c <=? 57343))%N eqn:E; [|discriminate].
    b2p. lia.
  - destruct (c <? 1114112)%N eqn:E4; [discriminate|]. b2p. lia.
Qed.

Lemma utf8_encode_scalar s :
  forallb scalar s = true -> utf8_encode s = Some (written s).
Proof.
  unfold written. induction s as [|c s IH]; simpl; [reflexivity|].
  rewrite andb_true_iff. intros [Hc Hs].
  pose proof (utf8_encode_char_scalar _ Hc) as Hne.
  destruct (utf8_encode_char c) as [b|]; [|congruence].
  specialize (IH Hs). destruct (utf8_encode s); [reflexivity|discriminate].
Qed.

(** Bytes below 128 decode to themselves. *)
Lemma utf8_decode_ascii b :
  forallb (fun x => Byte.to_N x <? 128)%N b = true ->
  utf8_decode b = Some (map Byte.to_N b).
Proof.
  induction b as [|x b IH]; simpl; [reflexivity|].
  rewrite andb_true_iff. intros [Hx Hb].
  rewrite Hx, (IH Hb). reflexivity.
Qed.

(** ** Lines *)

Lemma is_linebreak_LF : is_linebreak LF = true.
Proof. reflexivity. Qed.

(** A line without line boundaries followed by [\n] is split off. *)
Lemma splitlines_line l rest :
  no_linebreak l = true ->
  splitlines (l ++ LF :: rest) = l :: splitlines rest.
Proof.
  unfold no_linebreak.
  induction l as [|c l IH]; simpl; [reflexivity|].
  rewrite andb_true_iff, negb_true_iff. intros [Hc Hl].
  rewrite Hc, (IH Hl). reflexivity.
Qed.

(** The last line needs no line end, unless it is empty. *)
Lemma splitlines_last c l :
  no_linebreak (c :: l) = true -> splitlines (c :: l) = [c :: l].
Proof.
  unfold no_linebreak. revert c.
  induction l as [|d l IH]; intros c; simpl.
  - rewrite andb_true_r, negb_true_iff. intros ->. reflexivity.
  - rewrite andb_true_iff, negb_true_iff. intros [Hc Hl].
    rewrite Hc.
    change (cons_first c (splitlines (d :: l)) = [c :: d :: l]).
    rewrite (IH d Hl). reflexivity.
Qed.

Lemma Forall_cons_first (Q : char -> bool) c ls :
  Q c = true ->
  Forall (fun l => forallb Q l = true) ls ->
  Forall (fun l => forallb Q l = true) (cons_first c ls).
Proof.
  intros Hc Hls. destruct ls as [|l ls]; simpl.
  - constructor; [simpl; rewrite Hc; reflexivity | constructor].
  - inversion Hls; subst. constructor; [simpl; rewrite Hc|]; assumption.
Qed.

(** Whatever holds of the characters that are not line boundaries
    holds of every character of every line. *)
Lemma splitlines_forall_n (Q : char -> bool) (k : nat) :
  forall s, length s <= k ->
    Forall (fun c => is_linebreak c = false -> Q c = true) s ->
    Forall (fun l => forallb Q l = true) (splitlines s).
Proof.
  induction k as [|k IH]; intros s Hlen Hs.
  - destruct s; [constructor | simpl in Hlen; lia].
  - destruct s as [|c rest]; [constructor|].
    simpl in Hlen. inversion Hs as [|? ? Hc Hrest]; subst. simpl.
    destruct (is_linebreak c) eqn:Eb.
    + constructor; [reflexivity|].
      destruct (N.eqb c CR); [|apply IH; [lia | assumption]].
      destruct rest as [|d rest']; [constructor|].
      destruct (N.eqb d LF); [|apply IH; [lia | assumption]].
      inversion Hrest; subst.
      apply IH; [simpl in Hlen; lia | assumption].
    + apply Forall_cons_first; [auto|]. apply IH; [lia | assumption].
Qed.

Lemma splitlines_no_linebreak s :
  Forall (fun l => no_linebreak l = true) (splitlines s).
Proof.
  apply (@splitlines_forall_n (fun c => negb (is_linebreak c)) (length s));
    [apply Nat.le_refl|].
  apply Forall_forall. intros c _ ->. reflexivity.
Qed.

Lemma splitlines_scalar s :
  forallb scalar s = true ->
  Forall (fun l => forallb scalar l = true) (splitlines s).
Proof.
  intros H. apply (@splitlines_forall_n scalar (length s));
    [apply Nat.le_refl|].
  rewrite forallb_forall in H. apply Forall_forall. intros c Hin _. auto.
Qed.

(** The lines the demuxer sees hold scalar values only. *)
Lemma chunk_lines_scalar chunks : forall ls,
  chunk_lines chunks = Some ls ->
  Forall (fun l => forallb scalar l = true) ls.
Proof.
  induction chunks as [|c cs IH]; simpl; intros ls.
  - intros H; inversion H; constructor.
  - destruct (utf8_decode c) as [text|] eqn:Ed; [|discriminate].
    destruct (chunk_lines cs) as [ls0|]; [|discriminate].
    intros H; inversion H; subst. apply Forall_app. split.
    + apply splitlines_scalar. eapply utf8_decode_scalar; eassumption.
    + apply IH; reflexivity.
Qed.

(** ** Line endings *)

Lemma splitlines_line_crlf l rest :
  no_linebreak l = true ->
  splitlines (l ++ CR :: LF :: rest) = l :: splitlines rest.
Proof.
  unfold no_linebreak.
  induction l as [|c l IH]; simpl; [reflexivity|].
  rewrite andb_true_iff, negb_true_iff. intros [Hc Hl].
  rewrite Hc.
  change (cons_first c (splitlines (l ++ CR :: LF :: rest))
          = (c :: l) :: splitlines rest).
  rewrite (IH Hl). reflexivity.
Qed.

Lemma splitlines_line_cr l rest :
  no_linebreak l = true ->
  match rest with d :: _ => N.eqb d LF = false | [] => True end ->
  splitlines (l ++ CR :: rest) = l :: splitlines rest.
Proof.
  unfold no_linebreak. intros Hl Hrest.
  induction l as [|c l IH]; simpl.
  - destruct rest as [|d rest']; [reflexivity|]. rewrite Hrest. reflexivity.
  - simpl in Hl. rewrite andb_true_iff, negb_true_iff in Hl.
    destruct Hl as [Hc Hl]. rewrite Hc.
    change (cons_first c (splitlines (l ++ CR :: rest))
            = (c :: l) :: splitlines rest).
    rewrite (IH Hl). reflexivity.
Qed.

Lemma text_of_cr_head ls :
  Forall (fun l => no_linebreak l = true) ls ->
  match text_of [CR] ls with d :: _ => N.eqb d LF = false | [] => True end.
Proof.
  intros H. destruct ls as [|l ls]; simpl; [exact I|].
  inversion H as [|? ? Hl _]; subst.
  destruct l as [|c l]; simpl; [reflexivity|].
  unfold no_linebreak in Hl. simpl in Hl.
  apply andb_true_iff in Hl. destruct Hl as [Hc _].
  apply negb_true_iff in Hc.
  destruct (N.eqb c LF) eqn:E; [|reflexivity].
  apply N.eqb_eq in E. subst c. discriminate Hc.
Qed.

(** Whichever of the three line endings a text uses throughout, its
    lines are the same. *)
Lemma splitlines_text_of nl ls :
  line_end nl ->
  Forall (fun l => no_linebreak l = true) ls ->
  splitlines (text_of nl ls) = ls.
Proof.
  intros Hnl Hls. induction Hls as [|l ls Hl Hls IH]; [reflexivity|].
  simpl. rewrite <- app_assoc.
  destruct Hnl as [->|[->| ->]]; simpl app.
  - rewrite (splitlines_line _ _ Hl), IH. reflexivity.
  - rewrite (splitlines_line_crlf _ _ Hl), IH. reflexivity.
  - rewrite (splitlines_line_cr _ _ Hl), IH; [reflexivity|].
    apply text_of_cr_head; assumption.
Qed.

Lemma not_LF_head tail :
  no_linebreak tail = true ->
  match tail with d :: _ => N.eqb d LF = false | [] => True end.
Proof.
  destruct tail as [|d t]; [intros; exact I|].
  unfold no_linebreak. simpl. rewrite andb_true_iff, negb_true_iff.
  intros [Hd _]. destruct (N.eqb d LF) eqn:E; [|reflexivity].
  apply N.eqb_eq in E. subst d. discriminate Hd.
Qed.

(** A text whose last line has no line end. *)
Lemma splitlines_text_of_tail nl ls tail :
  line_end nl ->
  Forall (fun l => no_linebreak l = true) ls ->
  no_linebreak tail = true ->
  splitlines (text_of nl ls ++ tail) = ls ++ splitlines tail.
Proof.
  intros Hnl Hls Ht. induction Hls as [|l ls Hl Hls IH]; [reflexivity|].
  simpl. rewrite <- !app_assoc.
  destruct Hnl as [->|[->| ->]]; simpl app.
  - rewrite (splitlines_line _ _ Hl), IH. reflexivity.
  - rewrite (splitlines_line_crlf _ _ Hl), IH. reflexivity.
  - rewrite (splitlines_line_cr _ _ Hl), IH; [reflexivity|].
    destruct ls as [|l' ls'].
    + simpl. apply not_LF_head; assumption.
    + inversion Hls as [|? ? Hl' _]; subst. simpl. rewrite <- app_assoc.
      destruct l' as [|c l'']; [reflexivity|].
      apply (not_LF_head (c :: l'')) in Hl'. exact Hl'.
Qed.

(** In a text joined from lines, the line boundaries are the joining
    [\n] and no other. *)
Lemma joined_only_LF ls :
  Forall (fun l => no_linebreak l = true) ls ->
  Forall (fun c => is_linebreak c = true -> c = LF) (join [LF] ls ++ [LF]).
Proof.
  intros H. apply Forall_app. split; [|repeat constructor].
  assert (Hline : forall l, no_linebreak l = true ->
                            Forall (fun c => is_linebreak c = true -> c = LF) l).
  { intros l Hl. unfold no_linebreak in Hl. rewrite forallb_forall in Hl.
    apply Forall_forall. intros c Hin Hc. specialize (Hl c Hin).
    rewrite Hc in Hl. discriminate Hl. }
  induction H as [|l ls Hl Hls IH]; [constructor|].
  destruct ls as [|l' ls']; [apply Hline; assumption|].
  change (join [LF] (l :: l' :: ls')) with (l ++ [LF] ++ join [LF] (l' :: ls')).
  apply Forall_app. split; [apply Hline; assumption|].
  apply Forall_app. split; [repeat constructor | exact IH].
Qed.

End CodecProps.

(* ================================================================== *)
(** * The content demuxer (services/ingest.py) *)
(* ================================================================== *)

Module DemuxProps.

Import LangChain Ingest Shapes CodecProps TreeProps.

Lemma agree_refl {A} (r : (exn + A) * World) : agree r r.
Proof. split; reflexivity. Qed.

Lemma agree_trans {A} (r1 r2 r3 : (exn + A) * World) :
  agree r1 r2 -> agree r2 r3 -> agree r1 r3.
Proof. intros [H1 H2] [H3 H4]. split; congruence. Qed.

Lemma files_only_ret {A} (a : A) : files_only (ret a).
Proof. intros w1 w2 H. split; [reflexivity | exact H]. Qed.

Lemma files_only_raise {A} e : files_only (@raise A e).
Proof. intros w1 w2 H. split; [reflexivity | exact H]. Qed.

Lemma files_only_log l m : files_only (log l m).
Proof. intros w1 w2 H. split; [reflexivity | exact H]. Qed.

Lemma files_only_bind {A B} (m : M A) (k : A -> M B) :
  files_only m -> (forall a, files_only (k a)) -> files_only (bind m k).
Proof.
  intros Hm Hk w1 w2 H. unfold bind.
  destruct (Hm w1 w2 H) as [H1 H2].
  destruct (m w1) as [[e1|a1] w1'], (m w2) as [[e2|a2] w2'];
    simpl in *; try discriminate.
  - inversion H1; subst. split; [reflexivity | assumption].
  - inversion H1; subst. apply Hk; assumption.
Qed.

Lemma files_only_for_each {A S} (body : A -> S -> M S) xs :
  (forall x s, files_only (body x s)) ->
  forall s, files_only (for_each xs body s).
Proof.
  intros Hb. induction xs as [|x xs IH]; intros s; simpl.
  - apply files_only_ret.
  - apply files_only_bind; [apply Hb | exact IH].
Qed.

Lemma files_only_append p t : files_only (append_text p t).
Proof.
  intros w1 w2 H. unfold append_text, bind, get_world, modify, raise.
  rewrite H. destruct (utf8_encode t); simpl; split; reflexivity.
Qed.

Section Demuxer.

Variable env : Env.
Variables o n : str.

Lemma files_only_flush fname content d :
  files_only (flush env o n fname content d).
Proof.
  unfold flush.
  apply files_only_bind; [apply files_only_append | intros _].
  apply files_only_bind; [apply files_only_log | intros _].
  apply files_only_ret.
Qed.

Lemma files_only_process_line line st : files_only (process_line env o n line st).
Proof.
  unfold process_line.
  destruct (file_marker st) as [[m0 m1] m2].
  destruct (str_eqb line boundary_line).
  - destruct (negb (m0 || m1 || m2)); [apply files_only_ret|].
    destruct (m0 && m1 && negb m2); [apply files_only_ret|].
    destruct (m0 && m1 && m2); [|apply files_only_ret].
    destruct (cur_name st); [|apply files_only_raise].
    apply files_only_bind; [apply files_only_flush | intros d].
    apply files_only_ret.
  - destruct (m0 && negb m1 && startswith line FILE_PREFIX);
      [apply files_only_ret|].
    destruct (m0 && m1 && m2); apply files_only_ret.
Qed.

Lemma files_only_final_flush st : files_only (final_flush env o n st).
Proof.
  unfold final_flush.
  destruct (cur_name st) as [[|c fname]|]; try apply files_only_ret.
  destruct (file_content st); [apply files_only_ret|].
  apply files_only_flush.
Qed.

(** Reading chunk by chunk comes to running the loop body over the
    lines of all chunks, as long as every chunk decodes. *)
Lemma chunks_as_lines chunks : forall ls st w,
  chunk_lines chunks = Some ls ->
  agree (for_each chunks (process_chunk env o n) st w)
        (for_each ls (process_line env o n) st w).
Proof.
  induction chunks as [|c cs IH]; intros ls st w; simpl.
  - intros H; inversion H; subst. apply agree_refl.
  - destruct (utf8_decode c) as [text|] eqn:Ed; [|discriminate].
    destruct (chunk_lines cs) as [ls0|] eqn:El; [|discriminate].
    intros H; inversion H; subst. rewrite for_each_app.
    unfold process_chunk at 1. rewrite Ed. unfold bind, log, modify.
    set (w0 := set_logs _ w).
    assert (H0 : agree (for_each (splitlines text) (process_line env o n) st w0)
                       (for_each (splitlines text) (process_line env o n) st w)).
    { apply files_only_for_each; [|reflexivity].
      intros; apply files_only_process_line. }
    destruct H0 as [H1 H2].
    destruct (for_each (splitlines text) (process_line env o n) st w0)
      as [[e1|s1] w1],
             (for_each (splitlines text) (process_line env o n) st w)
        as [[e2|s2] w2]; simpl in *; try discriminate.
    + split; assumption.
    + inversion H1; subst.
      eapply agree_trans; [apply (IH ls0 s2 w1 eq_refl)|].
      apply files_only_for_each; [|assumption].
      intros; apply files_only_process_line.
Qed.

(** ** The loop body, state by state *)

Lemma step_body l c nm d w :
  l <> boundary_line ->
  process_line env o n l (inside true true c nm d) w
  = (inr (inside true true (c ++ [l]) nm d), w).
Proof.
  intros H. apply str_eqb_neq in H.
  unfold process_line, inside. cbn [file_marker]. rewrite H. reflexivity.
Qed.

Lemma step_junk l c nm d w :
  l <> boundary_line ->
  process_line env o n l (inside true false c nm d) w
  = (inr (inside true false c nm d), w).
Proof.
  intros H. apply str_eqb_neq in H.
  unfold process_line, inside. cbn [file_marker]. rewrite H. reflexivity.
Qed.

Lemma run_body body : forall c nm d w,
  Forall (fun l => l <> boundary_line) body ->
  for_each body (process_line env o n) (inside true true c nm d) w
  = (inr (inside true true (c ++ body) nm d), w).
Proof.
  induction body as [|l body IH]; intros c nm d w Hb; simpl.
  - rewrite app_nil_r. reflexivity.
  - inversion Hb; subst. unfold bind. rewrite step_body by assumption.
    rewrite IH by assumption. rewrite <- app_assoc. reflexivity.
Qed.

Lemma run_junk junk : forall c nm d w,
  Forall (fun l => l <> boundary_line) junk ->
  for_each junk (process_line env o n) (inside true false c nm d) w
  = (inr (inside true false c nm d), w).
Proof.
  induction junk as [|l junk IH]; intros c nm d w Hb; simpl.
  - reflexivity.
  - inversion Hb; subst. unfold bind. rewrite step_junk by assumption.
    apply IH; assumption.
Qed.

(** The opening boundary, the header and the boundary under it. *)
Lemma run_head b d w :
  for_each [boundary_line; header_line b; boundary_line]
           (process_line env o n) (idle d) w
  = (inr (inside true true [] (Some (block_name b)) d), w).
Proof. reflexivity. Qed.

Lemma scalar_joined content :
  Forall (fun l => forallb scalar l = true) content ->
  forallb scalar (join [LF] content ++ [LF]) = true.
Proof.
  intros H.
  assert (Hj : forallb scalar (join [LF] content) = true).
  { induction H as [|l content Hl Hc IH]; [reflexivity|].
    destruct content as [|l' content']; [exact Hl|].
    rewrite join_cons2, !forallb_app, Hl.
    apply andb_true_iff. split; [reflexivity|].
    apply andb_true_iff. split; [reflexivity | exact IH]. }
  rewrite forallb_app, Hj. reflexivity.
Qed.

Lemma flush_ok fname content d w :
  Forall (fun l => forallb scalar l = true) content ->
  flush env o n fname content d w
  = (inr (assign fname {| path := source_path env o n fname;
                          extension := snd (splitext fname) |} d),
     set_logs (logs w ++ [(INFO, MsgCompletedWriting fname)])
              (set_fs (appended (source_path env o n fname)
                                (join [LF] content ++ [LF]) (fs w)) w)).
Proof.
  intros H. unfold flush, append_text, bind, get_world, modify, log, ret.
  rewrite (utf8_encode_scalar _ (scalar_joined H)). reflexivity.
Qed.

Lemma step_close c fname d w :
  Forall (fun l => forallb scalar l = true) c ->
  process_line env o n boundary_line (inside true true c (Some fname) d) w
  = (inr (idle (assign fname {| path := source_path env o n fname;
                                extension := snd (splitext fname) |} d)),
     set_logs (logs w ++ [(INFO, MsgCompletedWriting fname)])
              (set_fs (appended (source_path env o n fname)
                                (join [LF] c ++ [LF]) (fs w)) w)).
Proof.
  intros H. unfold process_line, inside. cbn [file_marker cur_name].
  rewrite str_eqb_refl. cbn [negb orb andb file_content file_dict].
  unfold bind. rewrite (flush_ok _ _ _ H). reflexivity.
Qed.

(** ** Whole blocks *)

Lemma run_open_block b d w :
  Forall (fun l => l <> boundary_line) (body b) ->
  for_each (open_lines b) (process_line env o n) (idle d) w
  = (inr (inside true true (body b) (Some (block_name b)) d), w).
Proof.
  intros Hb. unfold open_lines. rewrite for_each_app. unfold bind.
  rewrite run_head. rewrite run_body by assumption. reflexivity.
Qed.

Lemma run_block b d w :
  well_formed b ->
  Forall (fun l => forallb scalar l = true) (body b) ->
  for_each (block_lines b) (process_line env o n) (idle d) w
  = (inr (idle (record_block env o n d b)), flushed env o n w b).
Proof.
  intros [_ Hb] Hs. unfold block_lines. rewrite for_each_app. unfold bind.
  rewrite run_open_block by assumption. simpl for_each. unfold bind.
  rewrite step_close by assumption. reflexivity.
Qed.

Lemma run_blocks blocks : forall d w,
  Forall well_formed blocks ->
  Forall (fun b => Forall (fun l => forallb scalar l = true) (body b)) blocks ->
  for_each (flat_map block_lines blocks) (process_line env o n) (idle d) w
  = (inr (idle (fold_left (record_block env o n) blocks d)),
     fold_left (flushed env o n) blocks w).
Proof.
  induction blocks as [|b blocks IH]; intros d w Hwf Hs; [reflexivity|].
  inversion Hwf; inversion Hs; subst.
  change (flat_map block_lines (b :: blocks))
    with (block_lines b ++ flat_map block_lines blocks).
  rewrite for_each_app. unfold bind. rewrite run_block by assumption.
  simpl fold_left. apply IH; assumption.
Qed.

Lemma fs_flushed blocks : forall w,
  fs (fold_left (flushed env o n) blocks w)
  = fold_left (stage_block env o n) blocks (fs w).
Proof.
  induction blocks as [|b blocks IH]; intros w; [reflexivity|].
  simpl. rewrite IH. reflexivity.
Qed.

Lemma recorded_names blocks : forall d,
  NoDup (map fst d ++ map block_name blocks) ->
  map fst (fold_left (record_block env o n) blocks d)
  = map fst d ++ map block_name blocks.
Proof.
  induction blocks as [|b blocks IH]; intros d Hnd; simpl.
  - symmetry; apply app_nil_r.
  - simpl in Hnd.
    assert (Hfresh : ~ In (block_name b) (map fst d)).
    { intros Hin. apply NoDup_remove_2 in Hnd. apply Hnd.
      apply in_or_app; left; assumption. }
    unfold record_block at 2. rewrite (assign_fresh _ _ _ Hfresh).
    rewrite IH; rewrite map_app; simpl; rewrite <- app_assoc;
      [reflexivity | exact Hnd].
Qed.

Lemma final_flush_idle d w : final_flush env o n (idle d) w = (inr d, w).
Proof. reflexivity. Qed.

Lemma final_flush_open b d w :
  block_name b <> [] -> body b <> [] ->
  final_flush env o n (inside true true (body b) (Some (block_name b)) d) w
  = flush env o n (block_name b) (body b) d w.
Proof.
  intros Hn Hb. unfold final_flush, inside. cbn [cur_name file_content file_dict].
  destruct (block_name b) as [|c nm]; [congruence|].
  destruct (body b) as [|l ls]; [congruence | reflexivity].
Qed.

(** ** From the dump file to the lines *)

Lemma parse_by_lines cs w data ls st w1 d w2 :
  lookup (content_file env o n) (fs w) = Some data ->
  chunk_lines (chunk_read data cs) = Some ls ->
  for_each ls (process_line env o n) initial_state w = (inr st, w1) ->
  final_flush env o n st w1 = (inr d, w2) ->
  fst (parse_repo_contents_chunked env o n cs w) = inr (Some d)
  /\ fs (snd (parse_repo_contents_chunked env o n cs w)) = fs w2.
Proof.
  intros Hl Hc Hrun Hfl.
  destruct (chunks_as_lines (chunk_read data cs) initial_state w Hc)
    as [A1 A2].
  rewrite Hrun in A1, A2. simpl in A1, A2.
  unfold parse_repo_contents_chunked, exists_, read_bytes.
  unfold bind, get_world, ret, log, modify. rewrite Hl. simpl. rewrite Hl.
  destruct (for_each (chunk_read data cs) (process_chunk env o n)
                     initial_state w) as [[e|st'] w1']; simpl in A1;
    [discriminate|].
  inversion A1; subst st'.
  destruct (files_only_final_flush st w1' w1 A2) as [B1 B2].
  rewrite Hfl in B1, B2. simpl in B1, B2.
  destruct (final_flush env o n st w1') as [[e|d'] w2']; simpl in B1;
    [discriminate|].
  inversion B1; subst d'. simpl. split; [reflexivity | exact B2].
Qed.

Lemma bodies_of_lines (P : str -> Prop) (f : Block -> list str) blocks :
  (forall b, Forall P (f b) -> Forall P (body b)) ->
  Forall P (flat_map f blocks) ->
  Forall (fun b => Forall P (body b)) blocks.
Proof.
  intros Hf. induction blocks as [|b blocks IH]; intros H; [constructor|].
  simpl in H. apply Forall_app in H. destruct H as [Hb Hrest].
  constructor; [apply Hf; exact Hb | apply IH; exact Hrest].
Qed.

Lemma body_of_open_lines (P : str -> Prop) b :
  Forall P (open_lines b) -> Forall P (body b).
Proof.
  unfold open_lines. intros H. apply Forall_app in H. tauto.
Qed.

Lemma body_of_block_lines (P : str -> Prop) b :
  Forall P (block_lines b) -> Forall P (body b).
Proof.
  unfold block_lines. intros H. apply Forall_app in H.
  apply body_of_open_lines. tauto.
Qed.

(** A dump that reads as closed blocks, followed at most by one block
    left open with a body: what the parse returns and stages. *)
Lemma parse_blocks cs w data blocks last :
  lookup (content_file env o n) (fs w) = Some data ->
  chunk_lines (chunk_read data cs)
  = Some (flat_map block_lines blocks ++ flat_map open_lines last) ->
  Forall well_formed (blocks ++ last) ->
  length last <= 1 ->
  Forall (fun b => body b <> []) last ->
  fst (parse_repo_contents_chunked env o n cs w)
  = inr (Some (fold_left (record_block env o n) (blocks ++ last) []))
  /\ fs (snd (parse_repo_contents_chunked env o n cs w))
     = fold_left (stage_block env o n) (blocks ++ last) (fs w).
Proof.
  intros Hfile Hlines Hwf Hlen Hbody.
  pose proof (chunk_lines_scalar _ Hlines) as Hsc.
  apply Forall_app in Hsc. destruct Hsc as [Hsc1 Hsc2].
  apply Forall_app in Hwf. destruct Hwf as [Hwf1 Hwf2].
  pose proof (@bodies_of_lines _ block_lines blocks
                (fun b => @body_of_block_lines _ b) Hsc1) as Hs1.
  pose proof (@bodies_of_lines _ open_lines last
                (fun b => @body_of_open_lines _ b) Hsc2) as Hs2.
  assert (Hrun1 :
            for_each (flat_map block_lines blocks ++ flat_map open_lines last)
                     (process_line env o n) initial_state w
            = for_each (flat_map open_lines last) (process_line env o n)
                       (idle (fold_left (record_block env o n) blocks []))
                       (fold_left (flushed env o n) blocks w)).
  { rewrite for_each_app. unfold bind.
    change initial_state with (idle []).
    rewrite run_blocks by assumption. reflexivity. }
  destruct last as [|b [|b' rest]].
  - simpl in Hrun1, Hlines. rewrite !app_nil_r in *.
    rewrite <- fs_flushed.
    eapply parse_by_lines;
      [exact Hfile | exact Hlines | exact Hrun1 | apply final_flush_idle].
  - inversion Hwf2 as [|? ? [Hname Hnb] _]; subst.
    inversion Hbody as [|? ? Hne _]; subst.
    inversion Hs2 as [|? ? Hsb _]; subst.
    change (flat_map open_lines [b]) with (open_lines b ++ []) in *.
    rewrite app_nil_r in *.
    rewrite run_open_block in Hrun1 by assumption.
    rewrite !fold_left_app.
    change (fold_left (stage_block env o n) [b]
                      (fold_left (stage_block env o n) blocks (fs w)))
      with (stage_block env o n
              (fold_left (stage_block env o n) blocks (fs w)) b).
    rewrite <- fs_flushed.
    change (stage_block env o n
              (fs (fold_left (flushed env o n) blocks w)) b)
      with (fs (flushed env o n (fold_left (flushed env o n) blocks w) b)).
    eapply parse_by_lines; [exact Hfile | exact Hlines | exact Hrun1 |].
    rewrite final_flush_open by assumption.
    rewrite flush_ok by assumption. reflexivity.
  - simpl in Hlen. lia.
Qed.

End Demuxer.

Import Scenario.

(** ** Reads that end inside a line *)

Lemma chunk_read_loop_S fuel cs data :
  chunk_read_loop (S fuel) cs data =
  match firstn cs data with
  | [] => []
  | chunk => chunk :: chunk_read_loop fuel cs (skipn cs data)
  end.
Proof. reflexivity. Qed.

Lemma chunk_read_loop_nil fuel cs : chunk_read_loop fuel cs [] = [].
Proof.
  destruct fuel; [reflexivity|]. rewrite chunk_read_loop_S, firstn_nil.
  reflexivity.
Qed.

(** The reads allowed for are enough: the chunks are the whole file,
    in order, none of them empty or longer than the read size. *)
Lemma chunk_read_loop_total cs :
  0 < cs ->
  forall fuel (data : bytes),
    length data < fuel ->
    concat (chunk_read_loop fuel cs data) = data
    /\ Forall (fun c => c <> [] /\ length c <= cs)
              (chunk_read_loop fuel cs data).
Proof.
  intros Hcs. induction fuel as [|fuel IH]; intros data Hlen; [lia|].
  rewrite chunk_read_loop_S.
  destruct data as [|b data']; [rewrite firstn_nil; split; constructor|].
  destruct cs as [|cs']; [lia|].
  destruct (IH (skipn cs' data')) as [Hc Hf].
  { rewrite length_skipn. simpl in Hlen. lia. }
  change (firstn (S cs') (b :: data')) with (b :: firstn cs' data').
  change (skipn (S cs') (b :: data')) with (skipn cs' data').
  cbv iota. split.
  - simpl concat. rewrite Hc, firstn_skipn. reflexivity.
  - constructor; [|exact Hf]. split; [discriminate|].
    simpl length. rewrite length_firstn. lia.
Qed.

Lemma chunk_read_total (data : bytes) cs :
  0 < cs ->
  concat (chunk_read data cs) = data
  /\ Forall (fun c => c <> [] /\ length c <= cs) (chunk_read data cs).
Proof.
  intros Hcs. apply chunk_read_loop_total; [assumption | lia].
Qed.

(** A file that fits in one read comes as one chunk. *)
Lemma chunk_read_one (data : bytes) cs :
  data <> [] -> length data <= cs -> chunk_read data cs = [data].
Proof.
  intros Hne Hlen. unfold chunk_read. rewrite chunk_read_loop_S.
  rewrite firstn_all2, skipn_all2 by assumption.
  rewrite chunk_read_loop_nil. destruct data; [congruence | reflexivity].
Qed.

(** A file of one full read and a rest comes as two chunks. *)
Lemma chunk_read_two (c1 c2 : bytes) cs :
  c1 <> [] -> length c1 = cs -> c2 <> [] -> length c2 <= cs ->
  chunk_read (c1 ++ c2) cs = [c1; c2].
Proof.
  intros H1 Hl1 H2 Hl2. unfold chunk_read.
  rewrite chunk_read_loop_S.
  rewrite firstn_app, skipn_app, Hl1, Nat.sub_diag.
  rewrite firstn_all2, skipn_all2 by lia.
  simpl firstn. simpl skipn. rewrite app_nil_r. simpl app.
  destruct c1 as [|b1 c1']; [congruence|].
  rewrite length_app. destruct c2 as [|b2 c2']; [congruence|].
  rewrite Nat.add_comm. simpl Nat.add.
  rewrite chunk_read_loop_S.
  rewrite firstn_all2, skipn_all2 by assumption.
  rewrite chunk_read_loop_nil. reflexivity.
Qed.

Lemma forallb_repeat {A} (f : A -> bool) x k :
  f x = true -> forallb f (repeat x k) = true.
Proof. intros H. induction k; simpl; [|rewrite H]; auto. Qed.

Lemma splitlines_text_LF ls rest :
  Forall (fun l => no_linebreak l = true) ls ->
  splitlines (text_of [LF] ls ++ rest) = ls ++ splitlines rest.
Proof.
  intros H. induction H as [|l ls Hl Hls IH]; [reflexivity|].
  simpl. rewrite <- !app_assoc. simpl app.
  rewrite (splitlines_line _ _ Hl), IH. reflexivity.
Qed.

Lemma long_line_no_linebreak cs : no_linebreak (long_line cs) = true.
Proof. apply forallb_repeat. reflexivity. Qed.

Lemma long_line_not_boundary cs : long_line cs <> boundary_line.
Proof.
  unfold long_line. destruct (cs - 216); simpl; intros H; discriminate H.
Qed.

Lemma straddling_dump_reads cs :
  straddling_dump cs = first_read cs ++ second_read.
Proof.
  unfold straddling_dump, first_read, second_read.
  rewrite <- !app_assoc, firstn_skipn. reflexivity.
Qed.

Lemma first_read_length cs : 216 <= cs -> length (first_read cs) = cs.
Proof.
  intros H. unfold first_read. rewrite !length_app, repeat_length.
  change (length straddle_head) with 110.
  change (length (firstn 106 straddle_tail)) with 106. lia.
Qed.

Lemma ascii_text (b : bytes) (t : str) :
  forallb (fun x => Byte.to_N x <? 128)%N b = true ->
  map Byte.to_N b = t ->
  utf8_decode b = Some t.
Proof. intros H <-. apply utf8_decode_ascii; exact H. Qed.

Lemma first_read_text cs :
  utf8_decode (first_read cs)
  = Some (text_of [LF] [boundary_line; py "FILE: a.txt"; boundary_line]
          ++ long_line cs
          ++ LF :: text_of [LF] [boundary_line; boundary_line]
          ++ py "FILE: b").
Proof.
  apply ascii_text.
  - unfold first_read. rewrite !forallb_app.
    rewrite (@forallb_repeat byte (fun x => (Byte.to_N x <? 128)%N)
                             "x"%byte (cs - 216) eq_refl).
    reflexivity.
  - unfold first_read, long_line. rewrite !map_app, map_repeat.
    reflexivity.
Qed.

Lemma first_read_lines cs :
  option_map splitlines (utf8_decode (first_read cs))
  = Some (block_lines (block_long cs) ++ [boundary_line; py "FILE: b"]).
Proof.
  rewrite first_read_text. cbn [option_map]. f_equal.
  rewrite splitlines_text_LF by (repeat constructor).
  rewrite (splitlines_line (long_line cs) _ (long_line_no_linebreak cs)).
  reflexivity.
Qed.

Lemma whole_text cs :
  utf8_decode (straddling_dump cs)
  = Some (text_of [LF] [boundary_line; py "FILE: a.txt"; boundary_line]
          ++ long_line cs
          ++ LF :: text_of [LF] (boundary_line :: block_lines block_bcd)).
Proof.
  apply ascii_text.
  - unfold straddling_dump. rewrite !forallb_app.
    rewrite (@forallb_repeat byte (fun x => (Byte.to_N x <? 128)%N)
                             "x"%byte (cs - 216) eq_refl).
    reflexivity.
  - unfold straddling_dump, long_line. rewrite !map_app, map_repeat.
    reflexivity.
Qed.

Lemma whole_lines cs :
  option_map splitlines (utf8_decode (straddling_dump cs))
  = Some (block_lines (block_long cs) ++ block_lines block_bcd).
Proof.
  rewrite whole_text. cbn [option_map]. f_equal.
  rewrite splitlines_text_LF by (repeat constructor).
  rewrite (splitlines_line (long_line cs) _ (long_line_no_linebreak cs)).
  reflexivity.
Qed.

Lemma chunk_lines_one (c : bytes) ls :
  option_map splitlines (utf8_decode c) = Some ls ->
  chunk_lines [c] = Some ls.
Proof.
  simpl. destruct (utf8_decode c); simpl; [|discriminate].
  intros H; inversion H. rewrite app_nil_r. reflexivity.
Qed.

Lemma chunk_lines_two (c1 c2 : bytes) l1 l2 :
  option_map splitlines (utf8_decode c1) = Some l1 ->
  option_map splitlines (utf8_decode c2) = Some l2 ->
  chunk_lines [c1; c2] = Some (l1 ++ l2).
Proof.
  simpl. destruct (utf8_decode c1); simpl; [|discriminate].
  destruct (utf8_decode c2); simpl; [|discriminate].
  intros H1 H2; inversion H1; inversion H2. rewrite app_nil_r. reflexivity.
Qed.

(** The lines the demuxer sees when the dump is read [cs] bytes at a
    time: the second header arrives as two lines. *)
Lemma straddled_lines cs :
  216 <= cs ->
  chunk_lines (chunk_read (straddling_dump cs) cs)
  = Some (block_lines (block_long cs) ++ torn_lines).
Proof.
  intros H. rewrite straddling_dump_reads.
  rewrite chunk_read_two.
  - change (block_lines (block_long cs) ++ torn_lines)
      with ((block_lines (block_long cs) ++ [boundary_line; py "FILE: b"])
            ++ [py "cd.py"; boundary_line; py "y"; boundary_line]).
    apply chunk_lines_two; [apply first_read_lines | reflexivity].
  - unfold first_read. discriminate.
  - apply first_read_length; assumption.
  - discriminate.
  - change (length second_read) with 106. lia.
Qed.

(** The lines it sees when the dump comes in one read. *)
Lemma unstraddled_lines cs :
  chunk_lines (chunk_read (straddling_dump cs) (length (straddling_dump cs)))
  = Some (flat_map block_lines [block_long cs; block_bcd]
          ++ flat_map open_lines []).
Proof.
  rewrite chunk_read_one; [| unfold straddling_dump; discriminate | lia].
  apply chunk_lines_one. rewrite whole_lines. simpl flat_map.
  rewrite !app_nil_r. reflexivity.
Qed.

(** After a block, the torn header names a file [b]. *)
Lemma run_torn env o n d w :
  exists w',
    for_each torn_lines (process_line env o n) (idle d) w
    = (inr (idle (assign (py "b")
                         {| path := source_path env o n (py "b");
                            extension := [] |} d)), w').
Proof.
  eexists. unfold torn_lines. simpl for_each. unfold bind.
  change (process_line env o n boundary_line (idle d) w)
    with (@inr exn _ (inside false false [] None d), w).
  cbv beta iota.
  change (process_line env o n (py "FILE: b") (inside false false [] None d) w)
    with (@inr exn _ (inside true false [] (Some (py "b")) d), w).
  cbv beta iota.
  rewrite step_junk by discriminate.
  change (process_line env o n boundary_line
                       (inside true false [] (Some (py "b")) d) w)
    with (@inr exn _ (inside true true [] (Some (py "b")) d), w).
  cbv beta iota.
  rewrite step_body by discriminate.
  rewrite step_close by (repeat constructor).
  reflexivity.
Qed.

Lemma lookup_world_with_dump env data :
  lookup (content_file env owner repo) (fs (world_with_dump env data))
  = Some data.
Proof.
  unfold world_with_dump. simpl. rewrite str_eqb_refl. reflexivity.
Qed.

(** Read [cs] bytes at a time, the dump yields [a.txt] and a file [b]
    without extension. *)
Lemma parse_straddled cs :
  216 <= cs ->
  records_of (parse_repo_contents_chunked
                env_ok owner repo cs
                (world_with_dump env_ok (straddling_dump cs)))
  = Some [(py "a.txt", py ".txt"); (py "b", [])].
Proof.
  intros H.
  set (w := world_with_dump env_ok (straddling_dump cs)).
  assert (Hwf : well_formed (block_long cs)).
  { split; [discriminate|].
    repeat constructor. apply long_line_not_boundary. }
  assert (Hsc : Forall (fun l => forallb scalar l = true)
                       (body (block_long cs))).
  { repeat constructor. apply forallb_repeat. reflexivity. }
  destruct (run_torn env_ok owner repo
                     (record_block env_ok owner repo [] (block_long cs))
                     (flushed env_ok owner repo w (block_long cs)))
    as [w' Htorn].
  assert (Hrun : for_each (block_lines (block_long cs) ++ torn_lines)
                          (process_line env_ok owner repo) initial_state w
                 = (inr (idle (assign (py "b")
                           {| path := source_path env_ok owner repo (py "b");
                              extension := [] |}
                           (record_block env_ok owner repo []
                                         (block_long cs)))), w')).
  { rewrite for_each_app. unfold bind. change initial_state with (idle []).
    rewrite (run_block env_ok owner repo [] w Hwf Hsc). exact Htorn. }
  destruct (parse_by_lines env_ok owner repo cs w
              (lookup_world_with_dump env_ok (straddling_dump cs))
              (straddled_lines H) Hrun (final_flush_idle _ _ _ _ _))
    as [Hres _].
  unfold records_of. rewrite Hres. reflexivity.
Qed.

(** Read at once, it yields [a.txt] and [bcd.py]. *)
Lemma parse_unstraddled cs :
  records_of (parse_repo_contents_chunked
                env_ok owner repo (length (straddling_dump cs))
                (world_with_dump env_ok (straddling_dump cs)))
  = Some [(py "a.txt", py ".txt"); (py "bcd.py", py ".py")].
Proof.
  destruct (@parse_blocks env_ok owner repo (length (straddling_dump cs))
              (world_with_dump env_ok (straddling_dump cs))
              (straddling_dump cs) [block_long cs; block_bcd] []
              (lookup_world_with_dump env_ok (straddling_dump cs))
              (unstraddled_lines cs)) as [Hres _].
  - repeat constructor; try discriminate. apply long_line_not_boundary.
  - simpl; lia.
  - constructor.
  - unfold records_of. rewrite Hres. reflexivity.
Qed.

(** C5, on the code.  A dump of two blocks, a little over one read of
    [chunk_read] long, whose first 1 MiB end inside the header line
    [FILE: bcd.py]: read with the default read size the header is cut
    into the lines [FILE: b] and [cd.py] and the second file is
    recorded as [b], without extension; delivered as one chunk the same
    dump yields [bcd.py]. *)
Theorem C5_read_boundary_changes_records :
  records_of (_parse_repo_contents
                env_ok owner repo
                (world_with_dump env_ok (straddling_dump default_chunk_size)))
  = Some [(py "a.txt", py ".txt"); (py "b", [])]
  /\ records_of (parse_repo_contents_chunked
                   env_ok owner repo
                   (length (straddling_dump default_chunk_size))
                   (world_with_dump env_ok
                                    (straddling_dump default_chunk_size)))
     = Some [(py "a.txt", py ".txt"); (py "bcd.py", py ".py")].
Proof.
  split.
  - apply parse_straddled. unfold default_chunk_size. lia.
  - apply parse_unstraddled.
Qed.

(** C4, as the code has it.  A dump that reads as [N] well-formed blocks
    with distinct names, each framed by three boundary lines of its own,
    yields [N] records, one per block and in the order of the blocks.
    When the boundary closing the last block is left out, that block is
    still recorded provided its body has at least one line. *)
Theorem C4_blocks_are_counted
        (env : Env) (o n : str) (cs : nat) (w : World) (data : bytes)
        (blocks last : list Block)
        (Hfile : lookup (content_file env o n) (fs w) = Some data)
        (Hlines : chunk_lines (chunk_read data cs)
                  = Some (flat_map block_lines blocks
                          ++ flat_map open_lines last))
        (Hwf : Forall well_formed (blocks ++ last))
        (Hlen : length last <= 1)
        (Hbody : Forall (fun b => body b <> []) last)
        (Hnames : NoDup (map block_name (blocks ++ last))) :
  exists fd,
    fst (parse_repo_contents_chunked env o n cs w) = inr (Some fd)
    /\ map fst fd = map block_name (blocks ++ last)
    /\ length fd = length blocks + length last.
Proof.
  destruct (@parse_blocks env o n cs w data blocks last
                          Hfile Hlines Hwf Hlen Hbody) as [Hres _].
  exists (fold_left (record_block env o n) (blocks ++ last) []).
  assert (Hmap : map fst (fold_left (record_block env o n) (blocks ++ last) [])
                 = map block_name (blocks ++ last)).
  { apply (@recorded_names env o n (blocks ++ last) []). exact Hnames. }
  split; [exact Hres | split; [exact Hmap|]].
  rewrite <- (length_map fst), Hmap, length_map, length_app. reflexivity.
Qed.

Lemma C4_witness :
  exists fd,
    fst (parse_repo_contents_chunked
           env_ok owner repo 4096
           (world_with_dump env_ok (dump_of dump_two_files_open)))
    = inr (Some fd)
    /\ map fst fd = [py "a.py"; py "b.txt"]
    /\ length fd = 2.
Proof.
  apply (@C4_blocks_are_counted
           env_ok owner repo 4096
           (world_with_dump env_ok (dump_of dump_two_files_open))
           (dump_of dump_two_files_open) [block_a] [block_b]).
  - reflexivity.
  - vm_compute. reflexivity.
  - repeat constructor; try discriminate;
      intros H; vm_compute in H; discriminate H.
  - simpl. lia.
  - repeat constructor. discriminate.
  - repeat constructor; simpl; intros H;
      repeat destruct H as [H|H]; try discriminate H; exact H.
Defined.

(** C4 as stated fails at an empty last file: with its closing boundary
    the dump yields both records, without it the last block is not
    flushed and one record is left. *)
Lemma C4_counterexample :
  records_of (_parse_repo_contents
                env_ok owner repo
                (world_with_dump env_ok (dump_of dump_empty_last)))
  = Some [(py "a.py", py ".py"); (py "empty.py", py ".py")]
  /\ records_of (_parse_repo_contents
                   env_ok owner repo
                   (world_with_dump env_ok (dump_of dump_empty_last_open)))
     = Some [(py "a.py", py ".py")].
Proof. split; vm_compute; reflexivity. Qed.

(** C10.  For a dump that reads as well-formed blocks (the last one
    possibly left open), the staging directory ends as if each block, in
    turn, had appended to its file the lines of its body joined by [\n]
    and one more [\n]; that is what every flush appends, at a closing
    boundary and at the end of the input, whatever lines were collected.
    The lines carry no line boundary of their own,
    so in the staged text every line boundary is a [\n]: a dump written
    with [\r\n] or [\r] line ends stages the same text as one written
    with [\n], and a body whose last line has no line end gets one.  Two
    blocks of one name leave both texts in the file, in order. *)
Theorem C10_staged_content
        (env : Env) (o n : str) (cs : nat) (w : World) (data : bytes)
        (blocks last : list Block)
        (Hfile : lookup (content_file env o n) (fs w) = Some data)
        (Hlines : chunk_lines (chunk_read data cs)
                  = Some (flat_map block_lines blocks
                          ++ flat_map open_lines last))
        (Hwf : Forall well_formed (blocks ++ last))
        (Hlen : length last <= 1)
        (Hbody : Forall (fun b => body b <> []) last) :
  fs (snd (parse_repo_contents_chunked env o n cs w))
  = fold_left (stage_block env o n) (blocks ++ last) (fs w)
  /\ (forall content fname d w0,
        Forall (fun l => forallb scalar l = true) content ->
        fs (snd (process_line env o n boundary_line
                              (inside true true content (Some fname) d) w0))
        = appended (source_path env o n fname) (join [LF] content ++ [LF])
                   (fs w0)
        /\ fs (snd (flush env o n fname content d w0))
           = appended (source_path env o n fname) (join [LF] content ++ [LF])
                      (fs w0))
  /\ (forall f b,
        lookup (source_path env o n (block_name b)) (stage_block env o n f b)
        = Some (match lookup (source_path env o n (block_name b)) f with
                | Some old => old
                | None => []
                end ++ written (join [LF] (body b) ++ [LF])))
  /\ (forall f b1 b2,
        block_name b1 = block_name b2 ->
        lookup (source_path env o n (block_name b1))
               (stage_block env o n (stage_block env o n f b1) b2)
        = Some ((match lookup (source_path env o n (block_name b1)) f with
                 | Some old => old
                 | None => []
                 end ++ written (join [LF] (body b1) ++ [LF]))
                ++ written (join [LF] (body b2) ++ [LF])))
  /\ (forall text,
        Forall (fun l => no_linebreak l = true) (splitlines text)
        /\ Forall (fun c => is_linebreak c = true -> c = LF)
                  (join [LF] (splitlines text) ++ [LF]))
  /\ (forall nl ls tail,
        nl = [LF] \/ nl = [CR; LF] \/ nl = [CR] ->
        Forall (fun l => no_linebreak l = true) ls ->
        no_linebreak tail = true ->
        splitlines (text_of nl ls ++ tail) = ls ++ splitlines tail
        /\ splitlines (text_of nl ls) = splitlines (text_of [LF] ls)).
Proof.
  destruct (@parse_blocks env o n cs w data blocks last
                          Hfile Hlines Hwf Hlen Hbody) as [_ Hfs].
  split; [exact Hfs|]. split; [|split; [|split; [|split]]].
  - intros content fname d w0 Hsc.
    rewrite (step_close env o n fname d w0 Hsc).
    rewrite (flush_ok env o n fname d w0 Hsc). split; reflexivity.
  - intros f b. unfold stage_block, appended, staged_text.
    apply lookup_assign_same.
  - intros f b1 b2 E. unfold stage_block, appended, staged_text.
    rewrite <- E. rewrite !lookup_assign_same. reflexivity.
  - intros text. split; [apply splitlines_no_linebreak|].
    apply joined_only_LF. apply splitlines_no_linebreak.
  - intros nl ls tail Hnl Hls Ht. split.
    + apply splitlines_text_of_tail; assumption.
    + rewrite !splitlines_text_of; auto. left; reflexivity.
Qed.

Lemma C10_witness :
  staged_at env_ok (py "notes.txt")
            (snd (parse_repo_contents_chunked
                    env_ok owner repo 4096
                    (world_with_dump env_ok dump_crlf)))
  = Some (py "one" ++ [LF] ++ py "two" ++ [LF] ++ py "three" ++ [LF]).
Proof.
  unfold staged_at.
  rewrite (proj1 (@C10_staged_content
                    env_ok owner repo 4096
                    (world_with_dump env_ok dump_crlf) dump_crlf
                    [notes_1] [notes_2] eq_refl eq_refl
                    ltac:(repeat constructor; try discriminate;
                          intros H; vm_compute in H; discriminate H)
                    ltac:(simpl; lia)
                    ltac:(repeat constructor; discriminate))).
  vm_compute. reflexivity.
Defined.

(** C2, on the code.  In a dump written with shared delimiters the
    boundary that flushes a block resets the three flags and is not
    taken as the opening boundary of the block that follows: of two
    blocks only the first is recorded, of three the first and the
    third. *)
Theorem C2_shared_boundary_loses_blocks :
  records_of (_parse_repo_contents
                env_ok owner repo
                (world_with_dump env_ok (dump_of dump_shared_two)))
  = Some [(py "a.py", py ".py")]
  /\ records_of (_parse_repo_contents
                   env_ok owner repo
                   (world_with_dump env_ok (dump_of dump_shared_three)))
     = Some [(py "a.py", py ".py"); (py "c.md", py ".md")].
Proof. split; vm_compute; reflexivity. Qed.

End DemuxProps.

(* ================================================================== *)
(** * Reading in chunks (utils/platform.py) *)
(* ================================================================== *)

Module PlatformProps.

Import DemuxProps.

Lemma chunk_read_loop_full cs :
  forall fuel (data : bytes) pre c post,
    chunk_read_loop fuel cs data = pre ++ c :: post ->
    post <> [] -> length c = cs.
Proof.
  induction fuel as [|fuel IH]; intros data pre c post H Hpost.
  - destruct pre; discriminate H.
  - rewrite chunk_read_loop_S in H.
    destruct (firstn cs data) as [|b chunk] eqn:Ef;
      [destruct pre; discriminate H|].
    destruct pre as [|p pre'].
    + simpl in H. inversion H; subst.
      destruct (Nat.le_gt_cases (length data) cs) as [Hle|Hgt].
      * rewrite skipn_all2, chunk_read_loop_nil in Hpost by assumption.
        congruence.
      * rewrite <- Ef, length_firstn. lia.
    + simpl in H. inversion H; subst. eapply IH; eassumption.
Qed.

(** [chunk_read] cuts the file into consecutive reads: put end to end
    the chunks are the file, no chunk is empty or longer than the read
    size, and every chunk but the last has exactly the read size. *)
Theorem chunk_read_partitions (data : bytes) (cs : nat) (Hcs : 0 < cs) :
  concat (chunk_read data cs) = data
  /\ Forall (fun c => c <> [] /\ length c <= cs) (chunk_read data cs)
  /\ (forall pre c post,
        chunk_read data cs = pre ++ c :: post ->
        post <> [] -> length c = cs).
Proof.
  destruct (@chunk_read_total data cs Hcs) as [H1 H2].
  split; [exact H1 | split; [exact H2|]].
  intros pre c post. apply chunk_read_loop_full.
Qed.

Lemma chunk_read_partitions_witness :
  chunk_read (pyb "abcdefg") 3 = [pyb "abc"; pyb "def"; pyb "g"]
  /\ concat (chunk_read (pyb "abcdefg") 3) = pyb "abcdefg".
Proof.
  split; [reflexivity|].
  apply (@chunk_read_partitions (pyb "abcdefg") 3). lia.
Defined.

End PlatformProps.

(* ================================================================== *)
(** * The line pattern of the tree listing (services/ingest.py) *)
(* ================================================================== *)

Module PatternProps.

Import Ingest Shapes TreeProps MoreNotions.

(** The pattern matches exactly the lines made of whole indent units,
    one of the two markers and a name that is not empty; the groups are
    the indent and the name. *)
Theorem line_re_match_iff (line prefix name : str) :
  line_re_match line = Some (prefix, name) <->
  exists us m,
    (m = marker_corner \/ m = marker_tee)
    /\ prefix = units_str us
    /\ line = prefix ++ m ++ name
    /\ name <> [].
Proof.
  split.
  - intros H.
    destruct (@line_re_match_sound line prefix name H)
      as (us & m & Hp & Hm & Hl & Hn).
    exists us, m. auto.
  - intros (us & m & Hm & -> & -> & Hn).
    apply line_re_match_complete; assumption.
Qed.

End PatternProps.

(* ================================================================== *)
(** * What the tree decoder emits (services/ingest.py) *)
(* ================================================================== *)

Module TreeMoreProps.

Import Ingest Shapes TreeProps MoreNotions.





End TreeMoreProps.

(* ================================================================== *)
(** * Owner and name of a repository URL (services/git.py) *)
(* ================================================================== *)

Module GitProps.

Import Ingest Git.

Lemma split_char_nonempty c s : split_char c s <> [].
Proof.
  destruct s as [|d s]; simpl; [discriminate|].
  destruct (N.eqb d c); [discriminate|].
  destruct (split_char c s); discriminate.
Qed.

Lemma cons_first_app d (l1 l2 : list str) :
  l1 <> [] -> cons_first d (l1 ++ l2) = cons_first d l1 ++ l2.
Proof. destruct l1; [congruence | reflexivity]. Qed.

(** Cutting at a separator cuts the text before it and the text after
    it. *)
Lemma split_char_app c a rest :
  split_char c (a ++ c :: rest) = split_char c a ++ split_char c rest.
Proof.
  induction a as [|d a IH]; simpl.
  - rewrite N.eqb_refl. reflexivity.
  - destruct (N.eqb d c); rewrite IH; [reflexivity|].
    apply cons_first_app. apply split_char_nonempty.
Qed.

Lemma split_char_free c a : ~ In c a -> split_char c a = [a].
Proof.
  induction a as [|d a IH]; simpl; intros H; [reflexivity|].
  destruct (N.eqb d c) eqn:E.
  - apply N.eqb_eq in E. subst. tauto.
  - rewrite IH by tauto. reflexivity.
Qed.

Lemma dropwhile_slashes k s :
  dropwhile (char_in [SLASH]) (repeat SLASH k ++ s)
  = dropwhile (char_in [SLASH]) s.
Proof. induction k as [|k IH]; [reflexivity | exact IH]. Qed.

Lemma rev_repeat {A} (x : A) k : rev (repeat x k) = repeat x k.
Proof.
  induction k as [|k IH]; [reflexivity|]. simpl. rewrite IH.
  clear IH. induction k as [|k IH]; [reflexivity|].
  simpl. rewrite IH. reflexivity.
Qed.

(** Trailing slashes go, and nothing else, when the text before them
    does not end in a slash. *)
Lemma rstrip_slashes s k :
  match rev s with c :: _ => c <> SLASH | [] => True end ->
  rstrip [SLASH] (s ++ repeat SLASH k) = s.
Proof.
  intros H. unfold rstrip.
  rewrite rev_app_distr, rev_repeat, dropwhile_slashes.
  destruct (rev s) as [|c r] eqn:E.
  - simpl. destruct s as [|x s']; [reflexivity|].
    apply (f_equal (@length _)) in E. rewrite length_rev in E.
    discriminate E.
  - simpl. unfold char_in. simpl.
    destruct (N.eqb c SLASH) eqn:Ec;
      [apply N.eqb_eq in Ec; congruence|].
    change (rev (c :: r) = s). rewrite <- E. apply rev_involutive.
Qed.

Lemma last_not_slash (x n : str) :
  n <> [] -> ~ In SLASH n ->
  match rev (x ++ n) with c :: _ => c <> SLASH | [] => True end.
Proof.
  intros Hne Hfree. rewrite rev_app_distr.
  destruct (rev n) as [|c r] eqn:E.
  - destruct n; [congruence|].
    apply (f_equal (@length _)) in E. rewrite length_rev in E.
    discriminate E.
  - simpl. intros ->. apply Hfree. apply in_rev. rewrite E. left; reflexivity.
Qed.

Lemma free_not_slash (s : str) :
  ~ In SLASH s ->
  match rev s with c :: _ => c <> SLASH | [] => True end.
Proof.
  intros Hfree. destruct (rev s) as [|c r] eqn:E; [exact I|].
  intros ->. apply Hfree. apply in_rev. rewrite E. left; reflexivity.
Qed.

(** [parse_repo_url] returns the last two path segments, whatever comes
    before them (scheme, host, further segments) and however many
    slashes end the URL; in particular it gives back the owner and the
    name from which the ingestor builds the URL it fetches.  A URL with
    no slash before its trailing slashes raises [IndexError]. *)
Theorem parse_repo_url_last_two
        (o n : str)
        (Ho : ~ In SLASH o) (Hn : ~ In SLASH n) (Hne : n <> []) :
  (forall before k,
      parse_repo_url (before ++ SLASH :: o ++ SLASH :: n ++ repeat SLASH k)
      = inr (o, n))
  /\ parse_repo_url (repo_url o n) = inr (o, n)
  /\ (forall s k,
        ~ In SLASH s ->
        parse_repo_url (s ++ repeat SLASH k) = inl IndexError).
Proof.
  assert (Hgen : forall before k,
             parse_repo_url
               (before ++ SLASH :: o ++ SLASH :: n ++ repeat SLASH k)
             = inr (o, n)).
  { intros before k. unfold parse_repo_url.
    replace (before ++ SLASH :: o ++ SLASH :: n ++ repeat SLASH k)
      with ((before ++ SLASH :: o ++ [SLASH] ++ n) ++ repeat SLASH k)
      by (rewrite <- !app_assoc; simpl; rewrite <- !app_assoc; reflexivity).
    rewrite rstrip_slashes.
    - rewrite split_char_app. simpl app. rewrite split_char_app.
      rewrite (@split_char_free SLASH o Ho), (@split_char_free SLASH n Hn).
      rewrite !rev_app_distr. reflexivity.
    - replace (before ++ SLASH :: o ++ [SLASH] ++ n)
        with ((before ++ SLASH :: o ++ [SLASH]) ++ n)
        by (rewrite <- !app_assoc; simpl; rewrite <- !app_assoc; reflexivity).
      apply last_not_slash; assumption. }
  split; [exact Hgen | split].
  - specialize (Hgen (py "https://github.com") 0).
    simpl repeat in Hgen. rewrite app_nil_r in Hgen. exact Hgen.
  - intros s k Hs. unfold parse_repo_url.
    rewrite (@rstrip_slashes s k (@free_not_slash s Hs)).
    rewrite (@split_char_free SLASH s Hs). reflexivity.
Qed.

Lemma parse_repo_url_witness :
  parse_repo_url (py "https://github.com/octo/demo//") = inr (py "octo", py "demo").
Proof.
  apply (@parse_repo_url_last_two (py "octo") (py "demo")
           ltac:(simpl; intros H; repeat destruct H as [H|H]; try discriminate H; exact H)
           ltac:(simpl; intros H; repeat destruct H as [H|H]; try discriminate H; exact H)
           ltac:(discriminate)).
Defined.

End GitProps.

(* ================================================================== *)
(** * Exceptions and the vector store service (services/qdrant.py) *)
(* ================================================================== *)

Module QdrantProps.

Import Qdrant FlowNotions.

Lemma returns_ret {A} (a : A) : returns (ret a).
Proof. intros w. exists a. reflexivity. Qed.

Lemma returns_log l m : returns (log l m).
Proof. intros w. exists tt. reflexivity. Qed.

Lemma returns_bind {A B} (m : M A) (k : A -> M B) :
  returns m -> (forall a, returns (k a)) -> returns (bind m k).
Proof.
  intros Hm Hk w. unfold bind. destruct (Hm w) as [a Ha].
  destruct (m w) as [[e|a'] w']; simpl in Ha; [discriminate|].
  apply Hk.
Qed.

(** A handler that returns makes the whole [try] return. *)
Lemma returns_try {A} (m : M A) (h : exn -> M A) :
  (forall e, returns (h e)) -> returns (try_except m h).
Proof.
  intros Hh w. unfold try_except.
  destruct (m w) as [[e|a] w']; [apply Hh | exists a; reflexivity].
Qed.

Lemma returns_log_ret {A} l m (a : A) : returns (log l m ;;; ret a).
Proof. intros w. exists a. reflexivity. Qed.


End QdrantProps.

(* ================================================================== *)
(** * How a parse can end (services/ingest.py) *)
(* ================================================================== *)

Module ParseProps.

Import LangChain Ingest Shapes CodecProps DemuxProps FlowNotions.

Section Parse.

Variable env : Env.
Variables o n : str.

Lemma process_line_inv line st w :
  demux_inv st -> forallb scalar line = true ->
  exists st' w',
    process_line env o n line st w = (inr st', w') /\ demux_inv st'.
Proof.
  intros [Hname Hsc] Hline. unfold process_line.
  destruct st as [[[m0 m1] m2] content name d].
  cbn [file_marker cur_name file_content file_dict fst snd] in *.
  destruct (str_eqb line boundary_line).
  - destruct (negb (m0 || m1 || m2));
      [eexists; eexists; split; [reflexivity | split; assumption]|].
    destruct (m0 && m1 && negb m2);
      [eexists; eexists; split; [reflexivity | split; assumption]|].
    destruct (m0 && m1 && m2) eqn:E;
      [|eexists; eexists; split; [reflexivity | split; assumption]].
    apply andb_true_iff in E. destruct E as [E _].
    apply andb_true_iff in E. destruct E as [_ E1].
    destruct name as [fname|]; [|exfalso; apply (Hname E1); reflexivity].
    unfold bind. rewrite (flush_ok env o n fname d w Hsc).
    eexists; eexists; split; [reflexivity|].
    split; simpl; [discriminate | constructor].
  - destruct (m0 && negb m1 && startswith line FILE_PREFIX).
    + eexists; eexists; split; [reflexivity|].
      split; simpl; [discriminate | assumption].
    + destruct (m0 && m1 && m2);
        eexists; eexists; (split; [reflexivity|]); split; simpl;
        try assumption.
      apply Forall_app. split; [assumption | repeat constructor; assumption].
Qed.

Lemma lines_inv lines : forall st w,
  demux_inv st ->
  Forall (fun l => forallb scalar l = true) lines ->
  exists st' w',
    for_each lines (process_line env o n) st w = (inr st', w')
    /\ demux_inv st'.
Proof.
  induction lines as [|l ls IH]; intros st w Hinv Hls.
  - exists st, w. split; [reflexivity | assumption].
  - inversion Hls; subst.
    destruct (@process_line_inv l st w Hinv H1) as (st1 & w1 & E1 & Hinv1).
    simpl. unfold bind. rewrite E1. apply IH; assumption.
Qed.

Lemma chunk_inv chunk text st w :
  utf8_decode chunk = Some text -> demux_inv st ->
  exists st' w',
    process_chunk env o n chunk st w = (inr st', w') /\ demux_inv st'.
Proof.
  intros Ed Hinv. unfold process_chunk, bind, log, modify. rewrite Ed.
  apply lines_inv; [assumption|].
  apply splitlines_scalar. eapply utf8_decode_scalar; eassumption.
Qed.

(** Every chunk decodes: the loop over the chunks returns. *)
Lemma chunks_return chunks : forall ls st w,
  chunk_lines chunks = Some ls -> demux_inv st ->
  exists st' w',
    for_each chunks (process_chunk env o n) st w = (inr st', w')
    /\ demux_inv st'.
Proof.
  induction chunks as [|c cs IH]; intros ls st w Hl Hinv.
  - exists st, w. split; [reflexivity | assumption].
  - simpl in Hl.
    destruct (utf8_decode c) as [text|] eqn:Ed; [|discriminate].
    destruct (chunk_lines cs) as [ls0|] eqn:El; [|discriminate].
    destruct (@chunk_inv c text st w Ed Hinv) as (st1 & w1 & E1 & Hinv1).
    simpl. unfold bind. rewrite E1. apply (IH ls0); [reflexivity | assumption].
Qed.

(** Some chunk does not decode: the loop raises at the first such. *)
Lemma chunks_raise chunks : forall st w,
  chunk_lines chunks = None -> demux_inv st ->
  exists w',
    for_each chunks (process_chunk env o n) st w
    = (inl UnicodeDecodeError, w').
Proof.
  induction chunks as [|c cs IH]; intros st w Hl Hinv; [discriminate|].
  simpl in Hl. simpl. unfold bind.
  destruct (utf8_decode c) as [text|] eqn:Ed.
  - destruct (@chunk_inv c text st w Ed Hinv) as (st1 & w1 & E1 & Hinv1).
    rewrite E1. apply IH; [|assumption].
    destruct (chunk_lines cs); [discriminate | reflexivity].
  - unfold process_chunk, bind, log, modify, raise. rewrite Ed.
    eexists. reflexivity.
Qed.

Lemma final_flush_returns st w :
  demux_inv st -> exists d w', final_flush env o n st w = (inr d, w').
Proof.
  intros [_ Hsc]. unfold final_flush.
  destruct (cur_name st) as [[|c fname]|];
    try (eexists; eexists; reflexivity).
  destruct (file_content st) as [|l ls] eqn:E;
    [eexists; eexists; reflexivity|].
  rewrite (flush_ok env o n (c :: fname) (file_dict st) w Hsc).
  eexists; eexists; reflexivity.
Qed.

Lemma initial_inv : demux_inv initial_state.
Proof. split; [discriminate | constructor]. Qed.

End Parse.

Lemma chunk_lines_None chunks :
  chunk_lines chunks = None <-> Exists (fun c => utf8_decode c = None) chunks.
Proof.
  induction chunks as [|c cs IH]; simpl.
  - split; [discriminate | intros H; inversion H].
  - destruct (utf8_decode c) eqn:Ed.
    + destruct (chunk_lines cs); split; try discriminate.
      * intros H. inversion H; subst; [congruence|].
        apply IH in H1. discriminate H1.
      * intros _. apply Exists_cons_tl. apply IH. reflexivity.
      * reflexivity.
    + split; [intros _; apply Exists_cons_hd; assumption | reflexivity].
Qed.

(** The three ways [_parse_repo_contents] ends, in a staging directory
    that accepts every write.  Without [content.txt] it returns [None]
    and writes nothing.  With it, the call raises exactly when some
    chunk read from the file is not valid UTF-8 on its own, and what it
    raises is [UnicodeDecodeError]; otherwise it returns a dictionary.
    The state machine never joins a path with a missing name and never
    writes a text that cannot be encoded. *)
Theorem parse_outcomes (env : Env) (o n : str) (cs : nat) (w : World) :
  match lookup (content_file env o n) (fs w) with
  | None =>
      fst (parse_repo_contents_chunked env o n cs w) = inr None
      /\ fs (snd (parse_repo_contents_chunked env o n cs w)) = fs w
  | Some data =>
      (Exists (fun c => utf8_decode c = None) (chunk_read data cs) ->
       fst (parse_repo_contents_chunked env o n cs w)
       = inl UnicodeDecodeError)
      /\ (Forall (fun c => utf8_decode c <> None) (chunk_read data cs) ->
          exists fd,
            fst (parse_repo_contents_chunked env o n cs w) = inr (Some fd))
  end.
Proof.
  unfold parse_repo_contents_chunked, exists_, read_bytes.
  unfold bind, get_world, ret, log, modify, raise.
  destruct (lookup (content_file env o n) (fs w)) as [data|] eqn:El; simpl.
  - rewrite El. split.
    + intros Hex. apply chunk_lines_None in Hex.
      destruct (@chunks_raise env o n (chunk_read data cs) initial_state w
                              Hex initial_inv) as [w' E].
      rewrite E. reflexivity.
    + intros Hall.
      destruct (chunk_lines (chunk_read data cs)) as [ls|] eqn:Ec.
      * destruct (@chunks_return env o n (chunk_read data cs) ls
                                 initial_state w Ec initial_inv)
          as (st & w1 & E & Hinv).
        rewrite E.
        destruct (@final_flush_returns env o n st w1 Hinv) as (d & w2 & Ef).
        rewrite Ef. exists d. reflexivity.
      * apply chunk_lines_None in Ec. rewrite Forall_forall in Hall.
        apply Exists_exists in Ec. destruct Ec as (c & Hin & Hc).
        exfalso. exact (Hall c Hin Hc).
  - split; reflexivity.
Qed.

End ParseProps.

(* ================================================================== *)
(** * What a step leaves alone *)
(* ================================================================== *)

Module FrameProps.

Import LangChain Ingest Qdrant Worker FlowNotions.

Section Frame.

Variable B : Type.
Variable f : World -> B.
Hypothesis f_logs : forall l w, f (set_logs l w) = f w.
Hypothesis f_fs : forall x w, f (set_fs x w) = f w.

Lemma leaves_ret {A} (a : A) : leaves f (ret a).
Proof. intros w. reflexivity. Qed.

Lemma leaves_raise {A} (e : exn) : leaves f (@raise A e).
Proof. intros w. reflexivity. Qed.

Lemma leaves_get_world : leaves f get_world.
Proof. intros w. reflexivity. Qed.

Lemma leaves_log l m : leaves f (log l m).
Proof. intros w. unfold log, modify. simpl. apply f_logs. Qed.

Lemma leaves_bind {A C} (m : M A) (k : A -> M C) :
  leaves f m -> (forall a, leaves f (k a)) -> leaves f (bind m k).
Proof.
  intros Hm Hk w. unfold bind. specialize (Hm w).
  destruct (m w) as [[e|a] w1]; simpl in *; [assumption|].
  rewrite Hk. assumption.
Qed.

Lemma leaves_try {A} (m : M A) (h : exn -> M A) :
  leaves f m -> (forall e, leaves f (h e)) -> leaves f (try_except m h).
Proof.
  intros Hm Hh w. unfold try_except. specialize (Hm w).
  destruct (m w) as [[e|a] w1]; simpl in *; [|assumption].
  rewrite Hh. assumption.
Qed.

Lemma leaves_for_each {A S} (body : A -> S -> M S) xs :
  (forall x s, leaves f (body x s)) ->
  forall s, leaves f (for_each xs body s).
Proof.
  intros Hb. induction xs as [|x xs IH]; intros s; simpl.
  - apply leaves_ret.
  - apply leaves_bind; [apply Hb | exact IH].
Qed.

Lemma leaves_set_fs (g : World -> list (str * bytes)) :
  leaves f (modify (fun w => set_fs (g w) w)).
Proof. intros w. unfold modify. simpl. apply f_fs. Qed.

Lemma leaves_write_text p t : leaves f (write_text p t).
Proof.
  unfold write_text. destruct (utf8_encode t).
  - apply leaves_set_fs.
  - apply leaves_bind; [apply leaves_set_fs | intros; apply leaves_raise].
Qed.

Lemma leaves_append_text p t : leaves f (append_text p t).
Proof.
  unfold append_text. apply leaves_bind; [apply leaves_get_world|].
  intros w0. destruct (utf8_encode t).
  - intros w. unfold modify. simpl. apply f_fs.
  - apply leaves_bind; [|intros; apply leaves_raise].
    intros w. unfold modify. simpl. apply f_fs.
Qed.

Lemma leaves_exists p : leaves f (exists_ p).
Proof.
  unfold exists_. apply leaves_bind; [apply leaves_get_world|].
  intros; apply leaves_ret.
Qed.

Lemma leaves_read_bytes p : leaves f (read_bytes p).
Proof.
  unfold read_bytes. apply leaves_bind; [apply leaves_get_world|].
  intros a. destruct (lookup p (fs a)); [apply leaves_ret | apply leaves_raise].
Qed.

Lemma leaves_read_text p : leaves f (read_text p).
Proof.
  unfold read_text. apply leaves_bind; [apply leaves_read_bytes|].
  intros b. destruct (utf8_decode b); [apply leaves_ret | apply leaves_raise].
Qed.

Lemma leaves_flush env o n fname content d :
  leaves f (flush env o n fname content d).
Proof.
  unfold flush. apply leaves_bind; [apply leaves_append_text | intros _].
  apply leaves_bind; [apply leaves_log | intros _]. apply leaves_ret.
Qed.

Lemma leaves_process_line env o n line st :
  leaves f (process_line env o n line st).
Proof.
  unfold process_line. destruct (file_marker st) as [[m0 m1] m2].
  destruct (str_eqb line boundary_line).
  - destruct (negb (m0 || m1 || m2)); [apply leaves_ret|].
    destruct (m0 && m1 && negb m2); [apply leaves_ret|].
    destruct (m0 && m1 && m2); [|apply leaves_ret].
    destruct (cur_name st); [|apply leaves_raise].
    apply leaves_bind; [apply leaves_flush | intros; apply leaves_ret].
  - destruct (m0 && negb m1 && startswith line FILE_PREFIX);
      [apply leaves_ret|].
    destruct (m0 && m1 && m2); apply leaves_ret.
Qed.

Lemma leaves_process_chunk env o n chunk st :
  leaves f (process_chunk env o n chunk st).
Proof.
  unfold process_chunk. apply leaves_bind; [apply leaves_log | intros _].
  destruct (utf8_decode chunk); [|apply leaves_raise].
  apply leaves_for_each. intros; apply leaves_process_line.
Qed.

Lemma leaves_final_flush env o n st : leaves f (final_flush env o n st).
Proof.
  unfold final_flush.
  destruct (cur_name st) as [[|c fname]|]; try apply leaves_ret.
  destruct (file_content st); [apply leaves_ret | apply leaves_flush].
Qed.

Lemma leaves_parse env o n cs :
  leaves f (parse_repo_contents_chunked env o n cs).
Proof.
  unfold parse_repo_contents_chunked.
  apply leaves_bind; [apply leaves_exists | intros ex].
  destruct (negb ex).
  - apply leaves_bind; [apply leaves_log | intros; apply leaves_ret].
  - apply leaves_bind; [apply leaves_read_bytes | intros data].
    apply leaves_bind.
    + apply leaves_for_each. intros; apply leaves_process_chunk.
    + intros st. apply leaves_bind; [apply leaves_final_flush | intros d].
      apply leaves_bind; [apply leaves_log | intros; apply leaves_ret].
Qed.

Lemma leaves_ingest_git_repo env o n : leaves f (_ingest_git_repo env o n).
Proof.
  unfold _ingest_git_repo. apply leaves_try.
  - apply leaves_bind; [apply leaves_log | intros _].
    apply leaves_bind.
    + destruct (fetch_dump env (repo_url o n));
        [apply leaves_ret | apply leaves_raise].
    + intros [[summary tree] content].
      apply leaves_bind; [apply leaves_write_text | intros _].
      apply leaves_bind; [apply leaves_write_text | intros _].
      apply leaves_bind; [apply leaves_write_text | intros _].
      apply leaves_bind; [apply leaves_log | intros; apply leaves_ret].
  - intros e. apply leaves_bind; [apply leaves_log | intros; apply leaves_ret].
Qed.

Lemma leaves_get_file_names env o n : leaves f (_get_file_names env o n).
Proof.
  unfold _get_file_names.
  apply leaves_bind; [apply leaves_exists | intros ex].
  destruct (negb ex).
  - apply leaves_bind; [apply leaves_log | intros; apply leaves_ret].
  - apply leaves_bind; [apply leaves_read_text | intros; apply leaves_ret].
Qed.

Hypothesis f_collections : forall c w, f (set_collections c w) = f w.
Hypothesis f_calls : forall c w, f (set_calls c w) = f w.

Lemma leaves_init env fname meta : leaves f (__init__ env fname meta).
Proof.
  unfold __init__, _infer_language.
  apply leaves_bind; [|intros; apply leaves_ret].
  apply leaves_try.
  - destruct (supported_languages env) as [table|]; [|apply leaves_raise].
    destruct (find _ table) as [[lang exts]|].
    + destruct (language_member env lang);
        [apply leaves_ret | apply leaves_raise].
    + apply leaves_bind; [apply leaves_log | intros; apply leaves_raise].
  - intros []; try apply leaves_raise.
    apply leaves_bind; [apply leaves_log | intros; apply leaves_ret].
Qed.

Lemma leaves_split env self : leaves f (split env self).
Proof.
  unfold split.
  apply leaves_bind; [apply leaves_exists | intros ex].
  destruct (negb ex).
  - apply leaves_bind; [apply leaves_log | intros; apply leaves_ret].
  - apply leaves_bind; [apply leaves_read_text | intros content].
    apply leaves_try.
    + apply leaves_bind; [apply leaves_log | intros _].
      apply leaves_bind.
      * destruct (split_second _ _); [apply leaves_ret | apply leaves_raise].
      * intros rel. apply leaves_bind; [|intros; apply leaves_ret].
        destruct (create_documents env _ content);
          [apply leaves_ret | apply leaves_raise].
    + intros e.
      apply leaves_bind; [apply leaves_log | intros; apply leaves_ret].
Qed.

Lemma leaves_vector_store_add env vs docs :
  leaves f (vector_store_add_documents env vs docs).
Proof.
  unfold vector_store_add_documents. apply leaves_bind.
  - intros w. unfold modify. simpl. apply f_calls.
  - intros _. destruct (add_documents_ok env vs docs); [|apply leaves_raise].
    intros w. unfold modify. simpl. apply f_collections.
Qed.

Lemma leaves_ingest_file env vs item u :
  leaves f (ingest_file env vs item u).
Proof.
  unfold ingest_file. destruct item as [fname metadata].
  apply leaves_bind; [apply leaves_log | intros _].
  apply leaves_bind; [apply leaves_init | intros splitter].
  apply leaves_bind; [apply leaves_split | intros documents].
  destruct documents; [apply leaves_log|].
  apply leaves_bind; [apply leaves_log | intros _].
  apply leaves_bind; [apply leaves_vector_store_add | intros _].
  apply leaves_log.
Qed.

Lemma leaves_get_collection name : leaves f (get_collection name).
Proof.
  assert (Hc : leaves f (client_get_collection name)).
  { unfold client_get_collection.
    apply leaves_bind; [apply leaves_get_world | intros a].
    destruct (lookup name (collections a));
      [apply leaves_ret | apply leaves_raise]. }
  unfold get_collection. apply leaves_try.
  - apply leaves_bind; [exact Hc | intros _].
    apply leaves_bind; [exact Hc | intros; apply leaves_ret].
  - intros e. apply leaves_bind; [apply leaves_log | intros; apply leaves_ret].
Qed.

Lemma leaves_create_collection env name :
  leaves f (create_collection env name).
Proof.
  unfold create_collection, client_recreate_collection. apply leaves_try.
  - apply leaves_bind.
    + destruct (recreate_ok env name); [|apply leaves_raise].
      intros w. unfold modify. simpl. apply f_collections.
    + intros _.
      apply leaves_bind; [apply leaves_log | intros; apply leaves_ret].
  - intros e. apply leaves_bind; [apply leaves_log | intros; apply leaves_ret].
Qed.

Lemma leaves_get_vector_store env name :
  leaves f (get_vector_store env name).
Proof.
  unfold get_vector_store, _get_open_ai_embedding. apply leaves_try.
  - apply leaves_bind.
    + apply leaves_try.
      * destruct (embedding_ok env); [apply leaves_ret | apply leaves_raise].
      * intros e.
        apply leaves_bind; [apply leaves_log | intros; apply leaves_ret].
    + intros b. destruct (negb b); [apply leaves_raise | apply leaves_ret].
  - intros e. apply leaves_bind; [apply leaves_log | intros; apply leaves_ret].
Qed.

Lemma leaves_orchestrator env o n fd :
  leaves f (_ingest_into_vector_store env o n fd).
Proof.
  unfold _ingest_into_vector_store. apply leaves_try.
  - apply leaves_bind; [apply leaves_get_collection | intros existing].
    destruct existing.
    + apply leaves_bind; [apply leaves_log | intros; apply leaves_ret].
    + apply leaves_bind; [apply leaves_create_collection | intros created].
      apply leaves_bind.
      * destruct created; [apply leaves_get_vector_store | apply leaves_ret].
      * intros [vs|].
        -- apply leaves_bind; [|intros; apply leaves_ret].
           apply leaves_for_each. intros; apply leaves_ingest_file.
        -- apply leaves_bind; [apply leaves_log | intros; apply leaves_ret].
  - intros e. apply leaves_bind; [apply leaves_log | intros; apply leaves_ret].
Qed.

Lemma leaves_ingest env o n : leaves f (ingest env o n).
Proof.
  unfold ingest, _parse_repo_contents.
  apply leaves_bind; [apply leaves_ingest_git_repo | intros _].
  apply leaves_bind; [apply leaves_parse | intros fd].
  destruct fd as [[|item items]|].
  - apply leaves_bind; [apply leaves_log | intros; apply leaves_ret].
  - apply leaves_bind; [apply leaves_log | intros _].
    apply leaves_bind; [apply leaves_orchestrator | intros; apply leaves_ret].
  - apply leaves_bind; [apply leaves_log | intros; apply leaves_ret].
Qed.

End Frame.

End FrameProps.

(* ================================================================== *)
(** * The status of a job (worker.py, services/ingest.py) *)
(* ================================================================== *)

Module StatusProps.

Import LangChain Ingest Qdrant Worker Scenario FlowNotions QdrantProps.

Lemma ingest_git_repo_returns env o n : returns (_ingest_git_repo env o n).
Proof.
  unfold _ingest_git_repo. apply returns_try. intros e.
  apply returns_log_ret.
Qed.

Lemma orchestrator_returns env o n fd :
  returns (_ingest_into_vector_store env o n fd).
Proof.
  unfold _ingest_into_vector_store. apply returns_try. intros e.
  apply returns_log_ret.
Qed.

Lemma ingest_kept_status env o n w :
  status_updates (snd (ingest env o n w)) = status_updates w.
Proof.
  apply (@FrameProps.leaves_ingest _ status_updates); reflexivity.
Qed.

(** What [ingest] answers, read off the parse. *)
Lemma ingest_result env o n w :
  fst (ingest env o n w)
  = match fst (_parse_repo_contents env o n
                 (snd (_ingest_git_repo env o n w))) with
    | inl e => inl e
    | inr None => inr false
    | inr (Some []) => inr false
    | inr (Some (_ :: _)) => inr true
    end.
Proof.
  unfold ingest. unfold bind at 1.
  destruct (ingest_git_repo_returns env o n w) as [b Hb].
  destruct (_ingest_git_repo env o n w) as [[e|b'] w1];
    simpl in Hb; [discriminate|]. simpl snd.
  unfold bind at 1.
  destruct (_parse_repo_contents env o n w1) as [[e|[[|item items]|]] w2];
    simpl fst; try reflexivity.
  unfold bind, log, modify, ret.
  destruct (orchestrator_returns env o n (item :: items)
              (set_logs (logs w2 ++ [(INFO, MsgParsedDict)]) w2)) as [r Hr].
  destruct (_ingest_into_vector_store env o n (item :: items) _)
    as [[e|r'] w4]; simpl in Hr; [discriminate|].
  reflexivity.
Qed.

(** [process_repo] in one piece: the [ingesting] update, the run of
    [ingest], the final update and the log record. *)
Lemma process_repo_eq env url o n w :
  process_repo env url o n w
  = let w0 := set_status
                (status_updates w ++ [(url, py "ingesting", false)]) w in
    let r := match fst (ingest env o n w0) with
             | inl _ => (py "failed", false)
             | inr true => (py "ingested", true)
             | inr false => (py "failed_to_ingest", false)
             end in
    let w2 := match fst (ingest env o n w0) with
              | inl e =>
                  set_logs (logs (snd (ingest env o n w0))
                            ++ [(ERROR, MsgFailedToIngest url e)])
                           (snd (ingest env o n w0))
              | inr _ => snd (ingest env o n w0)
              end in
    (inr r,
     set_logs (logs w2 ++ [(INFO, MsgStatus (fst r))])
              (set_status (status_updates w2 ++ [(url, fst r, snd r)]) w2)).
Proof.
  unfold process_repo, update_repo_metadata. run. cbv zeta.
  destruct (ingest env o n _) as [[e|[|]] w2]; reflexivity.
Qed.

(** The job's status is decided by the parse alone.  It is [failed]
    exactly when [_parse_repo_contents] raised, [failed_to_ingest]
    exactly when it returned [None] or an empty dictionary, and
    [ingested] (and available) otherwise: neither a failed fetch nor
    anything the vector store did changes it.  The status store
    receives two updates for the job, [ingesting] and then the final
    status with its availability, and nothing else. *)
Theorem job_status (env : Env) (url o n : str) (w : World) :
  let w0 := set_status (status_updates w ++ [(url, py "ingesting", false)]) w in
  let w1 := snd (_ingest_git_repo env o n w0) in
  let r := match fst (_parse_repo_contents env o n w1) with
           | inl _ => (py "failed", false)
           | inr None => (py "failed_to_ingest", false)
           | inr (Some []) => (py "failed_to_ingest", false)
           | inr (Some (_ :: _)) => (py "ingested", true)
           end in
  fst (process_repo env url o n w) = inr r
  /\ status_updates (snd (process_repo env url o n w))
     = status_updates w
       ++ [(url, py "ingesting", false); (url, fst r, snd r)].
Proof.
  intros w0 w1 r. rewrite process_repo_eq. cbv zeta. fold w0.
  pose proof (ingest_result env o n w0) as Hi. fold w1 in Hi.
  pose proof (ingest_kept_status env o n w0) as Hs.
  assert (Er : match fst (ingest env o n w0) with
               | inl _ => (py "failed", false)
               | inr true => (py "ingested", true)
               | inr false => (py "failed_to_ingest", false)
               end = r).
  { rewrite Hi. unfold r.
    destruct (fst (_parse_repo_contents env o n w1))
      as [e'|[[|item items]|]]; reflexivity. }
  rewrite Er. split; [reflexivity|].
  assert (Hw : status_updates
               (match fst (ingest env o n w0) with
                | inl e =>
                    set_logs (logs (snd (ingest env o n w0))
                              ++ [(ERROR, MsgFailedToIngest url e)])
                             (snd (ingest env o n w0))
                | inr _ => snd (ingest env o n w0)
                end) = status_updates w0).
  { destruct (fst (ingest env o n w0)); simpl; exact Hs. }
  simpl. rewrite Hw. unfold w0. simpl.
  rewrite <- app_assoc. reflexivity.
Qed.

Lemma ingest_store env o n w :
  fst (ingest env o n w) <> inr true ->
  store (snd (ingest env o n w)) = store w.
Proof.
  intros Hne.
  assert (Hg : store (snd (_ingest_git_repo env o n w)) = store w).
  { apply (@FrameProps.leaves_ingest_git_repo _ store); reflexivity. }
  assert (Hp : forall w1, store (snd (_parse_repo_contents env o n w1))
                          = store w1).
  { apply (@FrameProps.leaves_parse _ store); reflexivity. }
  rewrite ingest_result in Hne. revert Hne.
  unfold ingest. unfold bind at 1.
  destruct (ingest_git_repo_returns env o n w) as [b Hb].
  destruct (_ingest_git_repo env o n w) as [[e|b'] w1];
    simpl in Hb; [discriminate|]. simpl snd in *.
  unfold bind at 1. specialize (Hp w1).
  destruct (_parse_repo_contents env o n w1) as [[e|[[|item items]|]] w2];
    simpl fst; simpl snd in *; intros Hne.
  - congruence.
  - unfold bind, log, modify, ret. simpl snd.
    change (store w2 = store w). congruence.
  - exfalso. apply Hne. reflexivity.
  - unfold bind, log, modify, ret. simpl snd.
    change (store w2 = store w). congruence.
Qed.

(** A job that does not end as [ingested] has left the vector store
    as it found it: no collection was created, dropped or filled and
    [add_documents] was not called. *)
Theorem store_untouched_unless_ingested
        (env : Env) (url o n : str) (w : World)
        (Hstatus : fst (process_repo env url o n w)
                   <> inr (py "ingested", true)) :
  collections (snd (process_repo env url o n w)) = collections w
  /\ add_documents_calls (snd (process_repo env url o n w))
     = add_documents_calls w.
Proof.
  revert Hstatus. rewrite process_repo_eq. cbv zeta.
  set (w0 := set_status (status_updates w ++ [(url, py "ingesting", false)]) w).
  intros Hstatus.
  assert (Hi : fst (ingest env o n w0) <> inr true).
  { intros Hi. apply Hstatus. simpl. rewrite Hi. reflexivity. }
  apply ingest_store in Hi. unfold store in Hi.
  assert (Hc : collections (snd (ingest env o n w0)) = collections w)
    by (inversion Hi; reflexivity).
  assert (Ha : add_documents_calls (snd (ingest env o n w0))
               = add_documents_calls w) by (inversion Hi; reflexivity).
  destruct (fst (ingest env o n w0)); simpl; split; assumption.
Qed.

Lemma store_untouched_witness :
  collections (snd (process_repo env_ok repo_url_text owner repo empty_world))
  = []
  /\ add_documents_calls
       (snd (process_repo env_ok repo_url_text owner repo empty_world)) = [].
Proof.
  apply (store_untouched_unless_ingested
           env_ok repo_url_text owner repo empty_world).
  vm_compute. intros H. discriminate H.
Defined.

End StatusProps.

(* ================================================================== *)
(** * The UTF-8 codec read back *)
(* ================================================================== *)

Module Utf8Props.

Import Shapes CodecProps MoreNotions.

Lemma to_N_byte_of n : (n < 256)%N -> Byte.to_N (byte_of n) = n.
Proof.
  intros H. unfold byte_of. destruct (Byte.of_N n) as [b|] eqn:E.
  - apply Byte.to_of_N. exact E.
  - apply Byte.of_N_None_iff in E. lia.
Qed.

Lemma utf8_decode_cons b0 r0 :
  utf8_decode (b0 :: r0)
  = let n0 := Byte.to_N b0 in
    if (n0 <? 128)%N then option_map (cons n0) (utf8_decode r0)
    else if ((194 <=? n0) && (n0 <=? 223))%N then
      match r0 with
      | b1 :: r1 =>
          if in_range 128 191 b1
          then option_map (cons ((n0 - 192) * 64 + cont b1)%N)
                          (utf8_decode r1)
          else None
      | _ => None
      end
    else if ((224 <=? n0) && (n0 <=? 239))%N then
      match r0 with
      | b1 :: b2 :: r2 =>
          let lo := if (n0 =? 224)%N then 160%N else 128%N in
          let hi := if (n0 =? 237)%N then 159%N else 191%N in
          if in_range lo hi b1 && in_range 128 191 b2
          then option_map
                 (cons ((n0 - 224) * 4096 + cont b1 * 64 + cont b2)%N)
                 (utf8_decode r2)
          else None
      | _ => None
      end
    else if ((240 <=? n0) && (n0 <=? 244))%N then
      match r0 with
      | b1 :: b2 :: b3 :: r3 =>
          let lo := if (n0 =? 240)%N then 144%N else 128%N in
          let hi := if (n0 =? 244)%N then 143%N else 191%N in
          if in_range lo hi b1 && in_range 128 191 b2
             && in_range 128 191 b3
          then option_map
                 (cons ((n0 - 240) * 262144 + cont b1 * 4096
                        + cont b2 * 64 + cont b3)%N)
                 (utf8_decode r3)
          else None
      | _ => None
      end
    else None.
Proof. reflexivity. Qed.

(** The digits of a code point in base 64. *)
Lemma base64_digits (c : N) :
  exists q3 d2 d1 d0 : N,
    (c mod 64 = d0 /\ (c / 64) mod 64 = d1 /\ (c / 4096) mod 64 = d2
     /\ c / 262144 = q3
     /\ c / 64 = 64 * (c / 4096) + d1
     /\ c / 4096 = 64 * q3 + d2
     /\ c = 64 * (c / 64) + d0
     /\ d0 < 64 /\ d1 < 64 /\ d2 < 64)%N.
Proof.
  exists (c / 262144)%N, ((c / 4096) mod 64)%N, ((c / 64) mod 64)%N,
         (c mod 64)%N.
  repeat split; try (apply N.mod_lt; discriminate).
  - change 4096%N with (64 * 64)%N. rewrite <- N.Div0.div_div.
    apply N.div_mod'.
  - change 262144%N with (4096 * 64)%N. rewrite <- N.Div0.div_div.
    apply N.div_mod'.
  - apply N.div_mod'.
Qed.

Lemma some_eq {A} (a b : A) : Some a = Some b -> b = a.
Proof. congruence. Qed.

(** Decoding reads back the code point the encoder wrote. *)
Lemma utf8_decode_encode_char c b rest :
  utf8_encode_char c = Some b ->
  utf8_decode (b ++ rest) = option_map (cons c) (utf8_decode rest).
Proof.
  destruct (base64_digits c)
    as (q3 & d2 & d1 & d0 & E0 & E1 & E2 & E3 & H1 & H2 & H0 & L0 & L1 & L2).
  unfold utf8_encode_char. rewrite E0, E1, E2, E3. clear E0 E1 E2 E3.
  set (q1 := (c / 64)%N) in *. set (q2 := (c / 4096)%N) in *.
  clearbody q1 q2.
  destruct (N.ltb_spec c 128) as [C1|C1].
  { intros Hb; apply some_eq in Hb; subst b. cbn [app]. rewrite utf8_decode_cons.
    cbv zeta. rewrite to_N_byte_of by lia.
    destruct (N.ltb_spec c 128); [reflexivity | lia]. }
  destruct (N.ltb_spec c 2048) as [C2|C2].
  { intros Hb; apply some_eq in Hb; subst b. cbn [app]. rewrite utf8_decode_cons.
    cbv zeta. unfold in_range, cont.
    rewrite !to_N_byte_of by lia.
    compare_all. do 2 f_equal. lia. }
  destruct (N.ltb_spec c 65536) as [C3|C3].
  { destruct ((55296 <=? c) && (c <=? 57343))%N eqn:Es; [discriminate|].
    assert (Hs : (c < 55296 \/ 57343 < c)%N).
    { apply andb_false_iff in Es. destruct Es as [Es|Es];
        apply N.leb_gt in Es; lia. }
    intros Hb; apply some_eq in Hb; subst b. cbn [app]. rewrite utf8_decode_cons.
    cbv zeta. unfold in_range, cont.
    rewrite !to_N_byte_of by lia.
    compare_all; do 2 f_equal; lia. }
  destruct (N.ltb_spec c 1114112) as [C4|C4]; [|discriminate].
  intros Hb; apply some_eq in Hb; subst b. cbn [app]. rewrite utf8_decode_cons.
  cbv zeta. unfold in_range, cont.
  rewrite !to_N_byte_of by lia.
  compare_all; do 2 f_equal; lia.
Qed.

(** What was written as text decodes to that text. *)
Lemma utf8_decode_encode s : forall b,
  utf8_encode s = Some b -> utf8_decode b = Some s.
Proof.
  induction s as [|c s IH]; simpl; intros b H.
  - inversion H; reflexivity.
  - destruct (utf8_encode_char c) as [bc|] eqn:Ec; [|discriminate].
    destruct (utf8_encode s) as [bs|]; [|discriminate].
    inversion H; subst b.
    rewrite (utf8_decode_encode_char _ _ Ec), (IH bs eq_refl). reflexivity.
Qed.

End Utf8Props.

(* ================================================================== *)
(** * Fetching and staging the dump (services/ingest.py) *)
(* ================================================================== *)

Module FetchProps.

Import LangChain Ingest Shapes CodecProps Utf8Props.

Lemma utf8_encode_char_not_scalar c :
  scalar c = false -> utf8_encode_char c = None.
Proof.
  unfold scalar, utf8_encode_char. intros H.
  apply orb_false_iff in H. destruct H as [H1 H2]. apply N.ltb_ge in H1.
  destruct (N.ltb_spec c 128); [lia|].
  destruct (N.ltb_spec c 2048); [lia|].
  destruct (N.ltb_spec c 65536).
  - destruct (N.leb_spec 55296 c); [|lia].
    destruct (N.leb_spec c 57343); [reflexivity|].
    destruct (N.ltb_spec 57343 c); [|lia].
    destruct (N.ltb_spec c 1114112); [discriminate | lia].
  - destruct (N.ltb_spec 57343 c); [|lia].
    destruct (N.ltb_spec c 1114112); [discriminate | reflexivity].
Qed.

Lemma utf8_encode_not_scalar s :
  forallb scalar s = false -> utf8_encode s = None.
Proof.
  induction s as [|c s IH]; simpl; [discriminate|].
  destruct (scalar c) eqn:Ec; simpl.
  - intros H. rewrite (IH H). destruct (utf8_encode_char c); reflexivity.
  - intros _. rewrite (utf8_encode_char_not_scalar _ Ec). reflexivity.
Qed.

(** A relative last component is appended to one and the same prefix. *)
Lemma path_join2_relative dir :
  exists pre, forall b,
      startswith b [SLASH] = false -> path_join2 dir b = pre ++ b.
Proof.
  unfold path_join2.
  destruct (match dir with [] => true | _ => endswith dir [SLASH] end).
  - exists dir. intros b ->. reflexivity.
  - exists (dir ++ [SLASH]). intros b ->. rewrite <- app_assoc. reflexivity.
Qed.

Lemma staged_names_differ env o n :
  path_join (repo_dir env o n) [py "summary.txt"] <> tree_file env o n
  /\ path_join (repo_dir env o n) [py "summary.txt"] <> content_file env o n
  /\ tree_file env o n <> content_file env o n.
Proof.
  change (content_file env o n)
    with (path_join2 (repo_dir env o n) (py "content.txt")).
  change (tree_file env o n)
    with (path_join2 (repo_dir env o n) (py "tree.txt")).
  change (path_join (repo_dir env o n) [py "summary.txt"])
    with (path_join2 (repo_dir env o n) (py "summary.txt")).
  destruct (path_join2_relative (repo_dir env o n)) as [pre Hpre].
  rewrite !Hpre by reflexivity.
  repeat split; intros H; apply app_inv_head in H; discriminate H.
Qed.

(** [_ingest_git_repo] never raises, in a staging directory that
    accepts every write.  When the fetch fails it answers [False] and
    touches no file.  When the three texts can be encoded it answers
    [True], [content.txt] decodes to the fetched content,
    [_get_file_names] decodes the fetched listing (its line ends read
    as [\n]), and no other file than the three staged ones changes.
    A text that cannot be encoded makes it answer [False]. *)
Theorem ingest_git_repo_outcomes (env : Env) (o n : str) (w : World) :
  let r := _ingest_git_repo env o n w in
  match fetch_dump env (repo_url o n) with
  | None => fst r = inr false /\ fs (snd r) = fs w
  | Some (summary, tree, content) =>
      if forallb scalar summary && forallb scalar tree
         && forallb scalar content
      then
        fst r = inr true
        /\ (exists b, lookup (content_file env o n) (fs (snd r)) = Some b
                      /\ utf8_decode b = Some content)
        /\ fst (_get_file_names env o n (snd r))
           = inr (decode_tree (universal_newlines tree))
        /\ (forall p,
               p <> path_join (repo_dir env o n) [py "summary.txt"] ->
               p <> tree_file env o n ->
               p <> content_file env o n ->
               lookup p (fs (snd r)) = lookup p (fs w))
      else fst r = inr false
  end.
Proof.
  intros r. subst r. unfold _ingest_git_repo.
  destruct (fetch_dump env (repo_url o n)) as [[[summary tree] content]|].
  2: { run. simpl. split; reflexivity. }
  destruct (staged_names_differ env o n) as (D1 & D2 & D3).
  fold (tree_file env o n).
  change (path_join (repo_dir env o n) [py "content.txt"])
    with (content_file env o n).
  set (ps := path_join (repo_dir env o n) [py "summary.txt"]) in *.
  unfold write_text. run. cbv beta iota.
  destruct (forallb scalar summary) eqn:Es; cbn [andb].
  2: { rewrite (utf8_encode_not_scalar _ Es). reflexivity. }
  rewrite (utf8_encode_scalar _ Es). cbv beta iota.
  destruct (forallb scalar tree) eqn:Et; cbn [andb].
  2: { rewrite (utf8_encode_not_scalar _ Et). reflexivity. }
  rewrite (utf8_encode_scalar _ Et). cbv beta iota.
  destruct (forallb scalar content) eqn:Ec.
  2: { rewrite (utf8_encode_not_scalar _ Ec). reflexivity. }
  rewrite (utf8_encode_scalar _ Ec). cbv beta iota.
  cbn [fst snd]. split; [reflexivity|]. cbn [fs set_fs set_logs].
  split; [|split].
  - exists (written content). split; [apply lookup_assign_same|].
    apply utf8_decode_encode. apply utf8_encode_scalar. exact Ec.
  - unfold _get_file_names, exists_, read_text, read_bytes. run.
    cbn [fs set_fs set_logs].
    rewrite (lookup_assign_other _ _ D3), lookup_assign_same.
    cbn [negb fst snd fs set_fs set_logs].
    rewrite (lookup_assign_other _ _ D3), lookup_assign_same. cbn [fst snd].
    rewrite (utf8_decode_encode _ (utf8_encode_scalar _ Et)). reflexivity.
  - intros p P1 P2 P3.
    rewrite !lookup_assign_other by assumption. reflexivity.
Qed.

End FetchProps.

(* ================================================================== *)
(** * Reads that end where a line ends (services/ingest.py) *)
(* ================================================================== *)

Module LineEndProps.

Import LangChain Ingest Shapes Scenario CodecProps DemuxProps Utf8Props.

Lemma splitlines_cons c rest :
  splitlines (c :: rest)
  = if is_linebreak c then
      [] :: (if N.eqb c CR then
               match rest with
               | d :: rest' =>
                   if N.eqb d LF then splitlines rest' else splitlines rest
               | [] => splitlines rest
               end
             else splitlines rest)
    else cons_first c (splitlines rest).
Proof. reflexivity. Qed.

Lemma splitlines_nonempty c rest : splitlines (c :: rest) <> [].
Proof.
  rewrite splitlines_cons. destruct (is_linebreak c); [discriminate|].
  destruct (splitlines rest); discriminate.
Qed.

(** A text ended by [\n] is split on its own: what follows it starts a
    new line. *)
Lemma splitlines_app_LF_n (k : nat) : forall s t,
  length s <= k ->
  splitlines ((s ++ [LF]) ++ t) = splitlines (s ++ [LF]) ++ splitlines t.
Proof.
  induction k as [|k IH]; intros s t Hk.
  - destruct s; [reflexivity | simpl in Hk; lia].
  - destruct s as [|c s]; [reflexivity|].
    simpl in Hk. cbn [app]. rewrite !splitlines_cons.
    destruct (is_linebreak c).
    + destruct (N.eqb c CR).
      * destruct s as [|d s]; [reflexivity|]. cbn [app].
        destruct (N.eqb d LF).
        -- rewrite (IH s t) by (simpl in Hk; lia). reflexivity.
        -- assert (Hd : length (d :: s) <= k) by (simpl in *; lia).
           pose proof (IH (d :: s) t Hd) as E. cbn [app] in E.
           rewrite E. reflexivity.
      * rewrite (IH s t) by lia. reflexivity.
    + rewrite (IH s t) by lia. apply GitProps.cons_first_app.
      destruct s; apply splitlines_nonempty.
Qed.

Lemma splitlines_app_LF s t :
  splitlines ((s ++ [LF]) ++ t) = splitlines (s ++ [LF]) ++ splitlines t.
Proof. apply (@splitlines_app_LF_n (length s)). apply Nat.le_refl. Qed.

Lemma option_map_cons_app {A} (x : A) s (o : option (list A)) :
  option_map (cons x) (option_map (app s) o) = option_map (app (x :: s)) o.
Proof. destruct o; reflexivity. Qed.

Lemma option_map_Some {A B} (f : A -> B) o y :
  option_map f o = Some y -> exists x, o = Some x /\ y = f x.
Proof.
  destruct o as [x|]; simpl; [|discriminate].
  intros H; inversion H. exists x. split; reflexivity.
Qed.

(** Bytes that decode on their own decode the same at the head of a
    longer input. *)
Lemma utf8_decode_app_n (k : nat) : forall a b s,
  length a <= k ->
  utf8_decode a = Some s ->
  utf8_decode (a ++ b) = option_map (app s) (utf8_decode b).
Proof.
  induction k as [|k IH]; intros a b s Hk.
  - destruct a; [|simpl in Hk; lia]. simpl. intros H; inversion H.
    destruct (utf8_decode b); reflexivity.
  - destruct a as [|b0 r0].
    { simpl. intros H; inversion H. destruct (utf8_decode b); reflexivity. }
    cbn [app]. rewrite !utf8_decode_cons. cbv zeta. simpl in Hk.
    destruct (Byte.to_N b0 <? 128)%N.
    { intros H. apply option_map_Some in H. destruct H as (s0 & H & ->).
      rewrite (IH r0 b s0) by (assumption || lia).
      apply option_map_cons_app. }
    destruct ((194 <=? Byte.to_N b0) && (Byte.to_N b0 <=? 223))%N.
    { destruct r0 as [|b1 r1]; [discriminate|]. cbn [app].
      destruct (in_range 128 191 b1); [|discriminate].
      intros H. apply option_map_Some in H. destruct H as (s0 & H & ->).
      rewrite (IH r1 b s0) by (assumption || simpl in Hk; lia).
      apply option_map_cons_app. }
    destruct ((224 <=? Byte.to_N b0) && (Byte.to_N b0 <=? 239))%N.
    { destruct r0 as [|b1 [|b2 r2]]; try discriminate. cbn [app].
      destruct (in_range _ _ b1 && in_range 128 191 b2); [|discriminate].
      intros H. apply option_map_Some in H. destruct H as (s0 & H & ->).
      rewrite (IH r2 b s0) by (assumption || simpl in Hk; lia).
      apply option_map_cons_app. }
    destruct ((240 <=? Byte.to_N b0) && (Byte.to_N b0 <=? 244))%N;
      [|discriminate].
    destruct r0 as [|b1 [|b2 [|b3 r3]]]; try discriminate. cbn [app].
    destruct (in_range _ _ b1 && in_range 128 191 b2 && in_range 128 191 b3);
      [|discriminate].
    intros H. apply option_map_Some in H. destruct H as (s0 & H & ->).
    rewrite (IH r3 b s0) by (assumption || simpl in Hk; lia).
    apply option_map_cons_app.
Qed.

Lemma utf8_decode_app a b s :
  utf8_decode a = Some s ->
  utf8_decode (a ++ b) = option_map (app s) (utf8_decode b).
Proof. apply (@utf8_decode_app_n (length a)). apply Nat.le_refl. Qed.

Lemma in_range_LF lo hi : (128 <= lo)%N -> in_range lo hi x0a = false.
Proof.
  intros H. unfold in_range. change (Byte.to_N x0a) with 10%N.
  destruct (N.leb_spec lo 10); [lia | reflexivity].
Qed.

Lemma lo_bound (c : bool) (a b : N) :
  (128 <= a)%N -> (128 <= b)%N -> (128 <= if c then a else b)%N.
Proof. destruct c; auto. Qed.

(** The byte [\n] is never inside a character: an input that decodes
    decodes up to any [\n] byte, and from there on. *)
Lemma utf8_decode_cut_n (k : nat) : forall a b t,
  length a <= k ->
  utf8_decode (a ++ x0a :: b) = Some t ->
  exists s, utf8_decode a = Some s.
Proof.
  induction k as [|k IH]; intros a b t Hk.
  - destruct a; [|simpl in Hk; lia]. exists []. reflexivity.
  - destruct a as [|b0 r0]; [exists []; reflexivity|].
    cbn [app]. rewrite !utf8_decode_cons. cbv zeta. simpl in Hk.
    destruct (Byte.to_N b0 <? 128)%N.
    { intros H. apply option_map_Some in H. destruct H as (s0 & H & ->).
      destruct (IH r0 b s0) as [s Hs]; [lia | assumption|].
      rewrite Hs. eexists; reflexivity. }
    destruct ((194 <=? Byte.to_N b0) && (Byte.to_N b0 <=? 223))%N.
    { destruct r0 as [|b1 r1]; cbn [app].
      { rewrite in_range_LF by lia. discriminate. }
      destruct (in_range 128 191 b1); [|discriminate].
      intros H. apply option_map_Some in H. destruct H as (s0 & H & ->).
      destruct (IH r1 b s0) as [s Hs]; [simpl in Hk; lia | assumption|].
      rewrite Hs. eexists; reflexivity. }
    destruct ((224 <=? Byte.to_N b0) && (Byte.to_N b0 <=? 239))%N.
    { destruct r0 as [|b1 [|b2 r2]]; cbn [app].
      { destruct b; [discriminate|].
        rewrite in_range_LF by (apply lo_bound; lia). discriminate. }
      { rewrite (@in_range_LF 128 191) by lia. rewrite andb_false_r.
        discriminate. }
      destruct (in_range _ _ b1 && in_range 128 191 b2); [|discriminate].
      intros H. apply option_map_Some in H. destruct H as (s0 & H & ->).
      destruct (IH r2 b s0) as [s Hs]; [simpl in Hk; lia | assumption|].
      rewrite Hs. eexists; reflexivity. }
    destruct ((240 <=? Byte.to_N b0) && (Byte.to_N b0 <=? 244))%N;
      [|discriminate].
    destruct r0 as [|b1 [|b2 [|b3 r3]]]; cbn [app].
    { destruct b as [|? [|? ?]]; try discriminate.
      rewrite in_range_LF by (apply lo_bound; lia). discriminate. }
    { destruct b as [|? ?]; [discriminate|].
      rewrite (@in_range_LF 128 191) by lia. rewrite andb_false_r.
      discriminate. }
    { rewrite (@in_range_LF 128 191) by lia. rewrite andb_false_r.
      discriminate. }
    destruct (in_range _ _ b1 && in_range 128 191 b2 && in_range 128 191 b3);
      [|discriminate].
    intros H. apply option_map_Some in H. destruct H as (s0 & H & ->).
    destruct (IH r3 b s0) as [s Hs]; [simpl in Hk; lia | assumption|].
    rewrite Hs. eexists; reflexivity.
Qed.

Lemma utf8_decode_cut a b t :
  utf8_decode (a ++ x0a :: b) = Some t ->
  exists s t2, utf8_decode (a ++ [x0a]) = Some (s ++ [LF])
               /\ utf8_decode b = Some t2
               /\ t = (s ++ [LF]) ++ t2.
Proof.
  intros H.
  destruct (@utf8_decode_cut_n (length a) a b t (Nat.le_refl _) H) as [s Hs].
  pose proof (@utf8_decode_app a (x0a :: b) s Hs) as H1. rewrite H in H1.
  rewrite utf8_decode_cons in H1. cbv zeta in H1.
  change (Byte.to_N x0a) with LF in H1.
  change (LF <? 128)%N with true in H1. cbv iota in H1.
  destruct (utf8_decode b) as [t2|]; [|discriminate]. simpl in H1.
  exists s, t2. split; [|split].
  - rewrite (@utf8_decode_app a [x0a] s Hs). reflexivity.
  - reflexivity.
  - inversion H1. rewrite <- app_assoc. reflexivity.
Qed.

(** Reads that end where a line ends hand the loop the lines of the
    whole text. *)
Lemma chunk_lines_at_line_ends chunks : forall text,
  Forall (fun c => last c x00 = x0a) (removelast chunks) ->
  utf8_decode (concat chunks) = Some text ->
  chunk_lines chunks = Some (splitlines text).
Proof.
  induction chunks as [|c cs IH]; intros text Hends Htext.
  - simpl in Htext. inversion Htext. reflexivity.
  - destruct cs as [|c' cs'].
    + simpl in Htext. rewrite app_nil_r in Htext. simpl. rewrite Htext.
      rewrite app_nil_r. reflexivity.
    + change (removelast (c :: c' :: cs'))
        with (c :: removelast (c' :: cs')) in Hends.
      inversion Hends as [|? ? Hc Hrest]; subst.
      destruct c as [|b0 c0] using rev_ind; [discriminate Hc|].
      clear IHc0. rewrite last_last in Hc. subst b0.
      change (concat ((c0 ++ [x0a]) :: c' :: cs'))
        with ((c0 ++ [x0a]) ++ concat (c' :: cs')) in Htext.
      rewrite <- app_assoc in Htext. cbn [app] in Htext.
      destruct (@utf8_decode_cut _ _ _ Htext) as (s & t2 & H1 & H2 & ->).
      change (chunk_lines ((c0 ++ [x0a]) :: c' :: cs'))
        with (match utf8_decode (c0 ++ [x0a]), chunk_lines (c' :: cs') with
              | Some text, Some ls => Some (splitlines text ++ ls)
              | _, _ => None
              end).
      rewrite H1, (IH t2 Hrest H2), splitlines_app_LF. reflexivity.
Qed.

Section Reads.

Variable env : Env.
Variables o n : str.

(** Two read sizes that hand the loop the same lines give the same
    result and the same files. *)
Lemma same_lines_agree cs1 cs2 w data ls :
  lookup (content_file env o n) (fs w) = Some data ->
  chunk_lines (chunk_read data cs1) = Some ls ->
  chunk_lines (chunk_read data cs2) = Some ls ->
  agree (parse_repo_contents_chunked env o n cs1 w)
        (parse_repo_contents_chunked env o n cs2 w).
Proof.
  intros Hl H1 H2.
  pose proof (@chunks_as_lines env o n (chunk_read data cs1) ls initial_state w H1)
    as [A1 A2].
  pose proof (@chunks_as_lines env o n (chunk_read data cs2) ls initial_state w H2)
    as [B1 B2].
  unfold parse_repo_contents_chunked, exists_, read_bytes.
  unfold bind, get_world, ret, log, modify. rewrite Hl. simpl. rewrite Hl.
  destruct (for_each (chunk_read data cs1) (process_chunk env o n)
                     initial_state w) as [[e1|st1] w1],
           (for_each (chunk_read data cs2) (process_chunk env o n)
                     initial_state w) as [[e2|st2] w2]; simpl in *;
    rewrite <- B1 in A1; try discriminate A1.
  - inversion A1. split; [reflexivity | simpl; congruence].
  - inversion A1; subst st2.
    assert (Hfs : fs w1 = fs w2) by congruence.
    destruct (@files_only_final_flush env o n st1 w1 w2 Hfs) as [C1 C2].
    destruct (final_flush env o n st1 w1) as [[e1|d1] w1'],
             (final_flush env o n st1 w2) as [[e2|d2] w2']; simpl in *;
      try discriminate C1.
    + inversion C1. split; [reflexivity | exact C2].
    + inversion C1; subst. split; [reflexivity | exact C2].
Qed.

End Reads.

(** When every read of [chunk_read] but the last ends with the byte
    [\n], and the dump is valid UTF-8, the loop sees the lines of the
    whole text: the parse returns and stages what it would reading the
    dump in one piece. *)
Theorem reads_ending_at_line_ends
        (env : Env) (o n : str) (cs : nat) (w : World)
        (data : bytes) (text : str)
        (Hfile : lookup (content_file env o n) (fs w) = Some data)
        (Hcs : 0 < cs)
        (Htext : utf8_decode data = Some text)
        (Hends : Forall (fun c => last c x00 = x0a)
                        (removelast (chunk_read data cs))) :
  chunk_lines (chunk_read data cs) = Some (splitlines text)
  /\ agree (parse_repo_contents_chunked env o n cs w)
           (parse_repo_contents_chunked env o n (length data) w).
Proof.
  assert (H1 : chunk_lines (chunk_read data cs) = Some (splitlines text)).
  { apply chunk_lines_at_line_ends; [exact Hends|].
    rewrite (proj1 (@chunk_read_total data cs Hcs)). exact Htext. }
  split; [exact H1|].
  apply (@same_lines_agree env o n cs (length data) w data (splitlines text));
    try assumption.
  destruct data as [|b data].
  - simpl in Htext. inversion Htext. reflexivity.
  - rewrite chunk_read_one by (discriminate || apply Nat.le_refl).
    apply chunk_lines_one. rewrite Htext. reflexivity.
Qed.

Lemma reads_ending_at_line_ends_witness :
  chunk_lines (chunk_read (dump_of [BOUNDARY; BOUNDARY; BOUNDARY]) 49)
  = Some [boundary_line; boundary_line; boundary_line]
  /\ agree (parse_repo_contents_chunked
              env_ok owner repo 49
              (world_with_dump env_ok
                 (dump_of [BOUNDARY; BOUNDARY; BOUNDARY])))
           (parse_repo_contents_chunked
              env_ok owner repo 147
              (world_with_dump env_ok
                 (dump_of [BOUNDARY; BOUNDARY; BOUNDARY]))).
Proof.
  apply (@reads_ending_at_line_ends
           env_ok owner repo 49
           (world_with_dump env_ok (dump_of [BOUNDARY; BOUNDARY; BOUNDARY]))
           (dump_of [BOUNDARY; BOUNDARY; BOUNDARY])
           (map Byte.to_N (dump_of [BOUNDARY; BOUNDARY; BOUNDARY]))).
  - reflexivity.
  - lia.
  - reflexivity.
  - repeat constructor.
Defined.

End LineEndProps.

(* ================================================================== *)
(** * The orchestrator on a fresh collection (services/ingest.py) *)
(* ================================================================== *)

Module OrchestratorProps.

Import LangChain Ingest Qdrant Scenario FlowNotions OrchestratorNotions.
Import DemuxProps.

Lemma files_only_try {A} (m : M A) (h : exn -> M A) :
  files_only m -> (forall e, files_only (h e)) -> files_only (try_except m h).
Proof.
  intros Hm Hh w1 w2 H. unfold try_except.
  destruct (Hm w1 w2 H) as [H1 H2].
  destruct (m w1) as [[e1|a1] w1'], (m w2) as [[e2|a2] w2']; simpl in *;
    try discriminate.
  - inversion H1; subst. apply Hh; assumption.
  - inversion H1; subst. split; [reflexivity | assumption].
Qed.

Lemma files_only_exists p : files_only (exists_ p).
Proof.
  intros w1 w2 H. unfold exists_, bind, get_world, ret. simpl.
  rewrite H. split; [reflexivity | exact H].
Qed.

Lemma files_only_read_text p : files_only (read_text p).
Proof.
  intros w1 w2 H. unfold read_text, read_bytes, bind, get_world, ret, raise.
  simpl. rewrite H. destruct (lookup p (fs w2)) as [b|]; simpl.
  - destruct (utf8_decode b); split; simpl; (reflexivity || exact H).
  - split; [reflexivity | exact H].
Qed.

Lemma files_only_init env fname meta : files_only (__init__ env fname meta).
Proof.
  unfold __init__, _infer_language.
  apply files_only_bind; [|intros; apply files_only_ret].
  apply files_only_try.
  - destruct (supported_languages env) as [table|]; [|apply files_only_raise].
    destruct (find _ table) as [[lang exts]|].
    + destruct (language_member env lang);
        [apply files_only_ret | apply files_only_raise].
    + apply files_only_bind; [apply files_only_log|].
      intros; apply files_only_raise.
  - intros []; try apply files_only_raise.
    apply files_only_bind; [apply files_only_log|].
    intros; apply files_only_ret.
Qed.

Lemma files_only_split env self : files_only (split env self).
Proof.
  unfold split.
  apply files_only_bind; [apply files_only_exists | intros ex].
  destruct (negb ex).
  - apply files_only_bind; [apply files_only_log|].
    intros; apply files_only_ret.
  - apply files_only_bind; [apply files_only_read_text | intros content].
    apply files_only_try.
    + apply files_only_bind; [apply files_only_log | intros _].
      apply files_only_bind.
      * destruct (split_second _ _);
          [apply files_only_ret | apply files_only_raise].
      * intros rel. apply files_only_bind; [|intros; apply files_only_ret].
        destruct (create_documents env _ content);
          [apply files_only_ret | apply files_only_raise].
    + intros e. apply files_only_bind; [apply files_only_log|].
      intros; apply files_only_ret.
Qed.

(** The documents of a file depend on the staged files only. *)
Lemma files_only_split_file env item : files_only (split_file env item).
Proof.
  unfold split_file. apply files_only_bind; [apply files_only_init|].
  intros; apply files_only_split.
Qed.

(** Splitting writes nothing but log records. *)
Lemma split_file_beside_logs env item :
  leaves beside_logs (split_file env item).
Proof.
  unfold split_file.
  apply FrameProps.leaves_bind.
  - apply FrameProps.leaves_init. reflexivity.
  - intros a. apply FrameProps.leaves_split. reflexivity.
Qed.

Lemma bind_assoc {A B C} (m : M A) (k : A -> M B) (h : B -> M C) w :
  bind (bind m k) h w = bind m (fun a => bind (k a) h) w.
Proof. unfold bind. destruct (m w) as [[e|a] w']; reflexivity. Qed.

(** One turn of the loop over a file whose documents are [d]. *)
Lemma ingest_file_step env vs item d w w' :
  fs w' = fs w ->
  documents_of env w item = Some d ->
  d = [] \/ add_documents_ok env vs d = true ->
  exists w'',
    ingest_file env vs item tt w' = (inr tt, w'')
    /\ fs w'' = fs w'
    /\ add_documents_calls w''
       = add_documents_calls w' ++ (if nonempty d then [(vs, d)] else [])
    /\ collections w''
       = if nonempty d
         then assign vs (match lookup vs (collections w') with
                         | Some c => c
                         | None => []
                         end ++ d) (collections w')
         else collections w'.
Proof.
  intros Hfs Hd Hok. unfold ingest_file. destruct item as [fname metadata].
  unfold bind at 1. unfold log at 1, modify at 1.
  set (w1 := set_logs _ w').
  rewrite <- (@bind_assoc _ _ _ (__init__ env fname metadata)
                          (fun splitter => split env splitter)).
  change (bind (__init__ env fname metadata)
               (fun splitter => split env splitter))
    with (split_file env (fname, metadata)).
  unfold bind at 1.
  assert (Hfs1 : fs w1 = fs w) by exact Hfs.
  destruct (files_only_split_file env (fname, metadata) w1 w Hfs1) as [A1 _].
  pose proof (split_file_beside_logs env (fname, metadata) w1) as Hrest.
  unfold documents_of in Hd.
  destruct (split_file env (fname, metadata) w) as [[e|d0] w0];
    simpl in Hd; [discriminate|]. inversion Hd; subst d0. simpl in A1.
  destruct (split_file env (fname, metadata) w1) as [[e|d1] ws];
    simpl in A1; [discriminate|]. inversion A1; subst d1.
  simpl in Hrest. unfold beside_logs in Hrest. inversion Hrest as [[R1 R2 R3]].
  destruct d as [|x d].
  - eexists. split; [reflexivity|]. cbn [nonempty]. simpl.
    rewrite app_nil_r. auto.
  - destruct Hok as [Hok|Hok]; [discriminate|].
    unfold vector_store_add_documents. run. rewrite Hok.
    eexists. split; [reflexivity|]. cbn [nonempty]. simpl.
    rewrite R1, R2, R3. auto.
Qed.

(** The loop over the files, none of which raises. *)
Lemma ingest_loop env vs w : forall fd docs,
  Forall2 (fun item d => documents_of env w item = Some d) fd docs ->
  Forall (fun d => d = [] \/ add_documents_ok env vs d = true) docs ->
  forall w' old,
    fs w' = fs w ->
    lookup vs (collections w') = Some old ->
    exists w'',
      for_each fd (ingest_file env vs) tt w' = (inr tt, w'')
      /\ fs w'' = fs w'
      /\ add_documents_calls w''
         = add_documents_calls w' ++ map (pair vs) (filter nonempty docs)
      /\ lookup vs (collections w'') = Some (old ++ concat docs).
Proof.
  induction 1 as [|item d fd docs Hd Hrest IH]; intros Hok w' old Hfs Hold.
  - exists w'. simpl. rewrite !app_nil_r. auto.
  - inversion Hok as [|? ? Hd_ok Hdocs_ok]; subst.
    destruct (@ingest_file_step env vs item d w w' Hfs Hd Hd_ok)
      as (w1 & E1 & F1 & C1 & L1).
    assert (Hold1 : lookup vs (collections w1) = Some (old ++ d)).
    { rewrite L1, Hold. destruct d; simpl.
      - rewrite app_nil_r. exact Hold.
      - apply lookup_assign_same. }
    destruct (IH Hdocs_ok w1 (old ++ d) (eq_trans F1 Hfs) Hold1)
      as (w2 & E2 & F2 & C2 & L2).
    exists w2. simpl for_each. unfold bind. rewrite E1.
    split; [exact E2|]. split; [congruence|]. split.
    + rewrite C2, C1. simpl filter. destruct d; simpl.
      * rewrite app_nil_r. reflexivity.
      * rewrite <- app_assoc. reflexivity.
    + rewrite L2. simpl concat. rewrite app_assoc. reflexivity.
Qed.

(** On a repository whose collection does not exist yet, with a store
    that answers and files that split without raising, the
    orchestrator reports success, staged files are left alone, the
    files without documents are passed over, [add_documents] is
    called once for each other file, in the order of [file_dict], and
    the new collection ends up holding the documents of all files in
    that order. *)
Theorem fresh_collection_is_filled
        (env : Env) (o n : str) (fd : FileDict) (w : World)
        (docs : list (list Document))
        (Hnew : lookup (collection_name o n) (collections w) = None)
        (Hcreate : recreate_ok env (collection_name o n) = true)
        (Hemb : embedding_ok env = true)
        (Hsplit : Forall2 (fun item d => documents_of env w item = Some d)
                          fd docs)
        (Hadd : Forall (fun d => d = []
                                 \/ add_documents_ok env (collection_name o n) d
                                    = true) docs) :
  let r := _ingest_into_vector_store env o n fd w in
  fst r = inr true
  /\ fs (snd r) = fs w
  /\ add_documents_calls (snd r)
     = add_documents_calls w
       ++ map (pair (collection_name o n)) (filter nonempty docs)
  /\ lookup (collection_name o n) (collections (snd r)) = Some (concat docs).
Proof.
  intros r. subst r.
  unfold _ingest_into_vector_store, get_collection, client_get_collection,
    create_collection, client_recreate_collection, get_vector_store,
    _get_open_ai_embedding.
  rewrite Hcreate, Hemb. run. rewrite Hnew. cbn [fst snd negb].
  match goal with
  | |- context [for_each fd (ingest_file env (collection_name o n)) tt ?w3] =>
      destruct (@ingest_loop env (collection_name o n) w fd docs Hsplit Hadd
                             w3 [] eq_refl (lookup_assign_same _ _ _))
        as (w4 & E & F & C & L);
      rewrite E
  end.
  cbn [fst snd]. split; [reflexivity|]. split; [exact F|].
  split; [exact C | exact L].
Qed.

Lemma fresh_collection_witness :
  fst (_ingest_into_vector_store env_ok owner repo two_files world_two_staged)
  = inr true
  /\ upserted_files
       (snd (_ingest_into_vector_store env_ok owner repo two_files
                                       world_two_staged))
     = [py "a.py"; py "b.txt"].
Proof.
  pose proof (@fresh_collection_is_filled
                env_ok owner repo two_files world_two_staged
                (map (fun item =>
                        match documents_of env_ok world_two_staged item with
                        | Some d => d
                        | None => []
                        end) two_files)
                eq_refl eq_refl eq_refl
                ltac:(repeat constructor)
                ltac:(repeat constructor; right; reflexivity)) as H.
  cbv zeta in H. destruct H as (H1 & _ & H3 & _).
  split; [exact H1|]. unfold upserted_files. rewrite H3. reflexivity.
Defined.

End OrchestratorProps.

(* ================================================================== *)
(** * The metadata of the documents (services/lang_chain.py) *)
(* ================================================================== *)

Module SplitProps.

Import LangChain Ingest Shapes Scenario TreeProps FlowNotions.
Import OrchestratorNotions.

Lemma contains_app sep a b : contains sep (a ++ sep ++ b) = true.
Proof.
  unfold contains.
  destruct (partition_complete sep a b) as (a0 & b0 & ->). reflexivity.
Qed.

Lemma contains_app_r sep a b :
  contains sep (a ++ b) = false -> contains sep a = false.
Proof.
  intros H. destruct (contains sep a) eqn:E; [|reflexivity].
  unfold contains in E.
  destruct (partition sep a) as [[x y]|] eqn:Ep; [|discriminate].
  apply partition_sound in Ep. subst a.
  rewrite <- !app_assoc, contains_app in H. discriminate.
Qed.

(** The slash of [sourcefiles/] is its last character only. *)
Lemma slash_is_last j :
  j < 11 -> nth j (py "sourcefiles/") 0%N <> SLASH.
Proof.
  intros Hj. do 11 (destruct j as [|j]; [discriminate|]). lia.
Qed.

(** Cut lists: one of two prefixes of a list extends the other. *)
Lemma app_eq_split {A} (a : list A) : forall x b y,
  a ++ b = x ++ y -> length a < length x ->
  exists m, x = a ++ m /\ m <> [] /\ b = m ++ y.
Proof.
  induction a as [|c a IH]; intros x b y H Hl.
  - exists x. simpl in *. split; [reflexivity|]. split; [|exact H].
    destruct x; [simpl in Hl; lia | discriminate].
  - destruct x as [|d x]; [simpl in Hl; lia|].
    simpl in H. inversion H; subst.
    destruct (IH x b y H2) as (m & -> & Hm & ->); [simpl in Hl; lia|].
    exists m. auto.
Qed.

(** After a prefix free of [sourcefiles/], the first [sourcefiles/] is
    the one that follows the prefix. *)
Lemma first_sourcefiles pre rest :
  contains (py "sourcefiles/") pre = false ->
  partition (py "sourcefiles/") (pre ++ py "sourcefiles/" ++ rest)
  = Some (pre, rest).
Proof.
  intros Hpre. apply partition_of_first_split. split; [reflexivity|].
  intros a' b' H.
  destruct (Nat.le_gt_cases (length pre) (length a')) as [|Hlt];
    [assumption | exfalso].
  symmetry in H.
  destruct (app_eq_split _ _ _ _ H Hlt) as (m & -> & Hm & H1).
  destruct (Nat.le_gt_cases (length (py "sourcefiles/")) (length m))
    as [Hge|Hlt2].
  - assert (Hs : exists y, m = py "sourcefiles/" ++ y).
    { destruct (Nat.eq_dec (length (py "sourcefiles/")) (length m)) as [E|E].
      - destruct (app_same_length _ _ _ _ H1 E) as [<- _].
        exists []. rewrite app_nil_r. reflexivity.
      - assert (Hl : length (py "sourcefiles/") < length m) by lia.
        destruct (app_eq_split _ _ _ _ H1 Hl) as (y & -> & _ & _).
        exists y. reflexivity. }
    destruct Hs as [y ->]. rewrite contains_app in Hpre. discriminate.
  - assert (E : nth 11 (py "sourcefiles/" ++ b') 0%N
                = nth 11 (m ++ py "sourcefiles/" ++ rest) 0%N)
      by (rewrite H1; reflexivity).
    change (nth 11 (py "sourcefiles/" ++ b') 0%N) with SLASH in E.
    change (length (py "sourcefiles/")) with 12 in Hlt2.
    rewrite app_nth2 in E by lia.
    assert (Hm0 : length m <> 0) by (destruct m; [congruence | discriminate]).
    rewrite app_nth1 in E by (change (length (py "sourcefiles/")) with 12; lia).
    symmetry in E. revert E. apply slash_is_last. lia.
Qed.

(** A relative name is staged right after [sourcefiles/]. *)
Lemma source_path_relative env o n fname :
  startswith fname [SLASH] = false ->
  exists pre,
    source_path env o n fname = pre ++ py "sourcefiles/" ++ fname
    /\ (pre = repo_dir env o n \/ pre = repo_dir env o n ++ [SLASH]).
Proof.
  intros Hrel.
  change (source_path env o n fname)
    with (path_join2 (path_join2 (repo_dir env o n) (py "sourcefiles/"))
                     fname).
  assert (Hd : exists pre,
             path_join2 (repo_dir env o n) (py "sourcefiles/")
             = pre ++ py "sourcefiles/"
             /\ (pre = repo_dir env o n \/ pre = repo_dir env o n ++ [SLASH])).
  { unfold path_join2 at 1.
    change (startswith (py "sourcefiles/") [SLASH]) with false. cbv iota.
    destruct (match repo_dir env o n with
              | [] => true
              | _ => endswith (repo_dir env o n) [SLASH]
              end).
    - exists (repo_dir env o n). auto.
    - exists (repo_dir env o n ++ [SLASH]). rewrite <- app_assoc. auto. }
  destruct Hd as (pre & -> & Hpre). exists pre. split; [|exact Hpre].
  assert (He : endswith (pre ++ py "sourcefiles/") [SLASH] = true).
  { unfold endswith. rewrite rev_app_distr. reflexivity. }
  assert (Hc : match pre ++ py "sourcefiles/" with
               | [] => true
               | _ => endswith (pre ++ py "sourcefiles/") [SLASH]
               end = true).
  { destruct (pre ++ py "sourcefiles/"); [reflexivity | exact He]. }
  unfold path_join2. rewrite Hrel, Hc. rewrite <- app_assoc. reflexivity.
Qed.

(** What [split] cuts out of the path of a staged file. *)
Lemma staged_path_is_cut env o n fname :
  startswith fname [SLASH] = false ->
  contains (py "sourcefiles/") (repo_dir env o n ++ [SLASH]) = false ->
  split_second (py "sourcefiles/") (source_path env o n fname)
  = Some (split1_head (py "sourcefiles/") fname).
Proof.
  intros Hrel Hroot.
  destruct (source_path_relative env o n fname Hrel) as (pre & -> & Hpre).
  unfold split_second. rewrite first_sourcefiles; [reflexivity|].
  destruct Hpre as [->| ->]; [|exact Hroot].
  apply (contains_app_r _ _ _ Hroot).
Qed.

Lemma init_fields env fname meta w sp w' :
  __init__ env fname meta w = (inr sp, w') ->
  file_name sp = fname /\ self_path sp = path meta.
Proof.
  unfold __init__. intros H. apply bind_inr in H.
  destruct H as (lang & w1 & _ & H). apply ret_inr in H.
  destruct H as [<- _]. split; reflexivity.
Qed.

(** Every document [split] returns is labelled with the name given to
    the splitter and with the second piece of its path cut at
    [sourcefiles/]. *)
Lemma split_labels env sp w docs w' :
  split env sp w = (inr docs, w') ->
  Forall (fun d => doc_name d = file_name sp
                   /\ split_second (py "sourcefiles/") (self_path sp)
                      = Some (doc_path d)) docs.
Proof.
  unfold split. intros H.
  apply bind_inr in H. destruct H as (ex & w1 & _ & H).
  destruct (negb ex).
  { apply bind_inr in H. destruct H as (u & w2 & _ & H).
    apply ret_inr in H. destruct H as [<- _]. constructor. }
  apply bind_inr in H. destruct H as (content & w2 & _ & H).
  unfold try_except in H.
  match type of H with
  | (let (_, _) := ?m w2 in _) = _ => destruct (m w2) as [[e|d] w3] eqn:E
  end.
  { unfold bind, log, modify, ret in H. inversion H. constructor. }
  inversion H; subst d w3. clear H.
  apply bind_inr in E. destruct E as (u & w4 & _ & E).
  apply bind_inr in E. destruct E as (rel & w5 & Hrel & E).
  apply bind_inr in E. destruct E as (chunks & w6 & _ & E).
  apply ret_inr in E. destruct E as [<- _].
  destruct (split_second (py "sourcefiles/") (self_path sp)) as [r|];
    [|discriminate Hrel].
  apply ret_inr in Hrel. destruct Hrel as [-> _].
  apply Forall_forall. intros d Hin.
  apply in_map_iff in Hin. destruct Hin as (c & <- & _).
  split; reflexivity.
Qed.

(** The documents made from a file staged under a relative name carry
    that name and, as their path, the name up to a [sourcefiles/] it
    may contain: the logical path of the file whenever the name is
    free of [sourcefiles/], provided the staging root is. *)
Theorem documents_carry_the_name
        (env : Env) (o n fname : str) (meta : FileMeta) (w : World)
        (docs : list Document)
        (Hrel : startswith fname [SLASH] = false)
        (Hroot : contains (py "sourcefiles/") (repo_dir env o n ++ [SLASH])
                 = false)
        (Hpath : path meta = source_path env o n fname)
        (Hdocs : documents_of env w (fname, meta) = Some docs) :
  Forall (fun d => doc_name d = fname
                   /\ doc_path d = split1_head (py "sourcefiles/") fname)
         docs
  /\ (contains (py "sourcefiles/") fname = false ->
      Forall (fun d => doc_path d = fname) docs).
Proof.
  assert (H1 : Forall (fun d => doc_name d = fname
                                /\ doc_path d
                                   = split1_head (py "sourcefiles/") fname)
                      docs).
  { unfold documents_of, split_file in Hdocs. cbn [fst snd] in Hdocs.
    destruct (bind (__init__ env fname meta) (fun sp => split env sp) w)
      as [[e|d] w2] eqn:E; simpl in Hdocs; [discriminate|].
    inversion Hdocs; subst d. apply bind_inr in E.
    destruct E as (sp & w1 & Hi & Hs).
    destruct (init_fields _ _ _ _ Hi) as [Hn Hp].
    pose proof (split_labels _ _ _ Hs) as Hl.
    rewrite Hn, Hp, Hpath, (staged_path_is_cut env o n fname Hrel Hroot) in Hl.
    eapply Forall_impl; [|exact Hl]. intros d [Ha Hb].
    split; [exact Ha | congruence]. }
  split; [exact H1|]. intros Hfree.
  eapply Forall_impl; [|exact H1]. intros d [_ ->].
  unfold split1_head. unfold contains in Hfree.
  destruct (partition (py "sourcefiles/") fname) as [[a b]|];
    [discriminate | reflexivity].
Qed.

Lemma documents_carry_the_name_witness :
  documents_of env_ok world_two_staged
               (py "a.py", meta_for (source_path env_ok owner repo (py "a.py"))
                                    (py "a.py"))
  = Some [{| page_content := py "print(1)" ++ [LF];
             doc_name := py "a.py";
             doc_path := py "a.py";
             start_index := 0 |}]
  /\ Forall (fun d => doc_path d = py "a.py")
            [{| page_content := py "print(1)" ++ [LF];
                doc_name := py "a.py";
                doc_path := py "a.py";
                start_index := 0 |}].
Proof.
  split; [reflexivity|].
  apply (proj2 (@documents_carry_the_name
                  env_ok owner repo (py "a.py")
                  (meta_for (source_path env_ok owner repo (py "a.py"))
                            (py "a.py"))
                  world_two_staged _
                  eq_refl eq_refl eq_refl eq_refl)).
  reflexivity.
Defined.

End SplitProps.

(* ================================================================== *)
(** * Names that leave the staging directory (services/ingest.py) *)
(* ================================================================== *)

Module EscapeProps.

Import LangChain Ingest Shapes Scenario MoreScenario FlowNotions.
Import OrchestratorNotions DemuxProps SplitProps.

(** [os.path.join] drops what comes before an absolute component. *)
Lemma source_path_absolute env o n r :
  source_path env o n (SLASH :: r) = SLASH :: r.
Proof. reflexivity. Qed.

Section Blocks.

Variable env : Env.
Variables o n : str.

Lemma record_kept bs : forall d k,
  lookup k d = Some (record_for env o n k) ->
  lookup k (fold_left (record_block env o n) bs d)
  = Some (record_for env o n k).
Proof.
  induction bs as [|b bs IH]; intros d k H; [exact H|].
  simpl. apply IH. unfold record_block.
  destruct (str_eqb k (block_name b)) eqn:E.
  - apply str_eqb_eq in E. subst k. apply lookup_assign_same.
  - apply str_eqb_neq in E. rewrite lookup_assign_other by exact E. exact H.
Qed.

Lemma record_of_block bs : forall d b,
  In b bs ->
  lookup (block_name b) (fold_left (record_block env o n) bs d)
  = Some (record_for env o n (block_name b)).
Proof.
  induction bs as [|b0 bs IH]; intros d b Hin; [destruct Hin|].
  simpl. destruct Hin as [->|Hin].
  - apply record_kept. apply lookup_assign_same.
  - apply IH. exact Hin.
Qed.

Lemma staged_kept bs : forall f p,
  lookup p f <> None ->
  lookup p (fold_left (stage_block env o n) bs f) <> None.
Proof.
  induction bs as [|b bs IH]; intros f p H; [exact H|].
  simpl. apply IH. unfold stage_block, appended.
  apply lookup_assign_some. exact H.
Qed.

Lemma staged_of_block bs : forall f b,
  In b bs ->
  lookup (source_path env o n (block_name b))
         (fold_left (stage_block env o n) bs f) <> None.
Proof.
  induction bs as [|b0 bs IH]; intros f b Hin; [destruct Hin|].
  simpl. destruct Hin as [->|Hin].
  - apply staged_kept. unfold stage_block, appended.
    rewrite lookup_assign_same. discriminate.
  - apply IH. exact Hin.
Qed.

End Blocks.

(** A path without [sourcefiles/] yields no document. *)
Lemma no_documents env item w docs :
  contains (py "sourcefiles/") (path (snd item)) = false ->
  documents_of env w item = Some docs -> docs = [].
Proof.
  intros Hfree Hdocs. unfold documents_of, split_file in Hdocs.
  destruct (bind (__init__ env (fst item) (snd item))
                 (fun sp => split env sp) w) as [[e|d] w2] eqn:E;
    simpl in Hdocs; [discriminate|].
  inversion Hdocs; subst d. apply bind_inr in E.
  destruct E as (sp & w1 & Hi & Hs).
  destruct (init_fields _ _ _ _ Hi) as [_ Hp].
  pose proof (split_labels _ _ _ Hs) as Hl. rewrite Hp in Hl.
  destruct docs as [|d docs]; [reflexivity|].
  inversion Hl as [|? ? [_ Hd] _]. unfold split_second in Hd.
  unfold contains in Hfree.
  destruct (partition (py "sourcefiles/") (path (snd item))) as [[a b]|];
    discriminate.
Qed.

(** A block whose name starts with [/] is not staged under the
    staging directory: its body is written to the path the dump
    names, and that path is what the dictionary records for it.  When
    the path has no [sourcefiles/] in it, the splitter makes no
    document out of such a record, whatever the file holds. *)
Theorem absolute_name_leaves_staging
        (env : Env) (o n : str) (cs : nat) (w : World) (data : bytes)
        (blocks last : list Block) (b : Block) (r : str)
        (Hfile : lookup (content_file env o n) (fs w) = Some data)
        (Hlines : chunk_lines (chunk_read data cs)
                  = Some (flat_map block_lines blocks
                          ++ flat_map open_lines last))
        (Hwf : Forall well_formed (blocks ++ last))
        (Hlen : length last <= 1)
        (Hbody : Forall (fun b => body b <> []) last)
        (Hin : In b (blocks ++ last))
        (Habs : block_name b = SLASH :: r) :
  exists fd,
    fst (parse_repo_contents_chunked env o n cs w) = inr (Some fd)
    /\ lookup (SLASH :: r) fd
       = Some {| path := SLASH :: r;
                 extension := snd (splitext (SLASH :: r)) |}
    /\ lookup (SLASH :: r)
              (fs (snd (parse_repo_contents_chunked env o n cs w))) <> None
    /\ (contains (py "sourcefiles/") (SLASH :: r) = false ->
        forall w' meta docs,
          lookup (SLASH :: r) fd = Some meta ->
          documents_of env w' (SLASH :: r, meta) = Some docs ->
          docs = []).
Proof.
  destruct (@parse_blocks env o n cs w data blocks last
                          Hfile Hlines Hwf Hlen Hbody) as [Hres Hfs].
  exists (fold_left (record_block env o n) (blocks ++ last) []).
  pose proof (@record_of_block env o n (blocks ++ last) [] b Hin) as Hrec.
  rewrite Habs in Hrec. unfold record_for in Hrec.
  rewrite source_path_absolute in Hrec.
  split; [exact Hres|]. split; [exact Hrec|]. split.
  - rewrite Hfs.
    pose proof (@staged_of_block env o n (blocks ++ last) (fs w) b Hin) as H.
    rewrite Habs, source_path_absolute in H. exact H.
  - intros Hfree w' meta docs Hmeta Hdocs. rewrite Hrec in Hmeta.
    inversion Hmeta; subst meta.
    apply (@no_documents env _ w' docs) in Hdocs; [exact Hdocs|].
    exact Hfree.
Qed.

Lemma absolute_name_witness :
  exists fd,
    fst (parse_repo_contents_chunked
           env_ok owner repo 4096
           (world_with_dump env_ok dump_absolute)) = inr (Some fd)
    /\ lookup (py "/srv/x.txt") fd
       = Some {| path := py "/srv/x.txt"; extension := py ".txt" |}.
Proof.
  destruct (@absolute_name_leaves_staging
              env_ok owner repo 4096
              (world_with_dump env_ok dump_absolute) dump_absolute
              [block_absolute] [] block_absolute (py "srv/x.txt")
              eq_refl eq_refl
              ltac:(repeat constructor; try discriminate;
                    intros H; vm_compute in H; discriminate H)
              ltac:(simpl; lia)
              ltac:(constructor)
              ltac:(left; reflexivity)
              eq_refl) as (fd & H1 & H2 & _).
  exists fd. split; [exact H1 | exact H2].
Defined.

End EscapeProps.

(* ================================================================== *)
(** * A collection left behind (services/ingest.py) *)
(* ================================================================== *)

Module RetryProps.

Import LangChain Ingest Qdrant Worker Scenario JobProps.



End RetryProps.

(* ================================================================== *)
(** * The language table (services/lang_chain.py, services/ingest.py) *)
(* ================================================================== *)

Module TableProps.

Import LangChain Ingest Qdrant Scenario TableScenario.

(** [LangChainSplitter.__init__] handles [ValueError] only.  When the
    language table cannot be loaded the exception leaves the
    constructor, and in the orchestrator it ends the loop at the first
    file: for a repository without a collection the run answers
    [False] and [add_documents] is never called, whatever the files
    are. *)
Theorem missing_language_table
        (env : Env) (Hnone : supported_languages env = None) :
  (forall fname meta w,
      fst (__init__ env fname meta w) = inl FileNotFoundError)
  /\ (forall o n item fd w,
         lookup (collection_name o n) (collections w) = None ->
         fst (_ingest_into_vector_store env o n (item :: fd) w) = inr false
         /\ add_documents_calls
              (snd (_ingest_into_vector_store env o n (item :: fd) w))
            = add_documents_calls w).
Proof.
  assert (Hinit : forall fname meta w,
             exists w', __init__ env fname meta w = (inl FileNotFoundError, w')
                        /\ add_documents_calls w' = add_documents_calls w).
  { intros fname meta w. unfold __init__, _infer_language.
    rewrite Hnone. run. eexists. split; reflexivity. }
  split.
  - intros fname meta w. destruct (Hinit fname meta w) as (w' & -> & _).
    reflexivity.
  - intros o n [fname meta] fd w Hnew.
    unfold _ingest_into_vector_store, get_collection, client_get_collection,
      create_collection, client_recreate_collection, get_vector_store,
      _get_open_ai_embedding.
    run. rewrite Hnew. cbn [fst snd].
    destruct (recreate_ok env (collection_name o n)); cbn [fst snd negb];
      [|split; reflexivity].
    destruct (embedding_ok env); cbn [fst snd negb]; [|split; reflexivity].
    simpl for_each. unfold ingest_file, bind, log, modify.
    match goal with
    | |- context [__init__ env fname meta ?w3] =>
        destruct (Hinit fname meta w3) as (w' & -> & Hc)
    end.
    cbn [fst snd]. split; [reflexivity|]. simpl. exact Hc.
Qed.

Lemma missing_language_table_witness :
  fst (_ingest_into_vector_store env_no_table owner repo two_files
                                 world_two_staged) = inr false
  /\ add_documents_calls
       (snd (_ingest_into_vector_store env_no_table owner repo two_files
                                       world_two_staged)) = [].
Proof.
  apply (proj2 (@missing_language_table env_no_table eq_refl)
               owner repo _ _ world_two_staged eq_refl).
Defined.

End TableProps.

(* ================================================================== *)
(** * The language of a known extension (services/lang_chain.py) *)
(* ================================================================== *)

Module LanguageProps.

Import LangChain Scenario.

Lemma find_first {A} (f : A -> bool) pre x post :
  (forall y, In y pre -> f y = false) -> f x = true ->
  find f (pre ++ x :: post) = Some x.
Proof.
  intros Hpre Hx. induction pre as [|y pre IH]; simpl.
  - rewrite Hx. reflexivity.
  - rewrite (Hpre y (or_introl eq_refl)). apply IH.
    intros z Hz. apply Hpre. right. exact Hz.
Qed.

(** The language of a file is that of the first entry of the table, in
    the order of the table, that lists its extension, compared as it
    is written; when LangChain has no such language the splitter falls
    back to plain text, and nothing is raised. *)
Theorem known_extension_language
        (env : Env) (table pre post : list (str * list str))
        (lang : str) (exts : list str)
        (fname : str) (meta : FileMeta) (w : World)
        (Htable : supported_languages env = Some table)
        (Hsplit : table = pre ++ (lang, exts) :: post)
        (Hin : In (extension meta) exts)
        (Hfirst : forall l e, In (l, e) pre -> ~ In (extension meta) e) :
  fst (__init__ env fname meta w)
  = inr {| file_name := fname;
           self_path := path meta;
           self_extension := extension meta;
           self_language := if language_member env lang
                            then Language lang else PlainText |}.
Proof.
  unfold __init__, _infer_language. rewrite Htable, Hsplit.
  rewrite (@find_first _ (fun le => existsb (str_eqb (extension meta)) (snd le))
                       pre (lang, exts) post).
  - run. destruct (language_member env lang); reflexivity.
  - intros [l e] Hy. simpl. apply existsb_str_eqb_false.
    apply (Hfirst l e Hy).
  - simpl. apply existsb_str_eqb. exact Hin.
Qed.

Lemma known_extension_witness :
  fst (__init__ env_ok (py "README.md") (meta_for [] (py "README.md"))
                empty_world)
  = inr {| file_name := py "README.md";
           self_path := [];
           self_extension := py ".md";
           self_language := Language (py "markdown") |}.
Proof.
  apply (@known_extension_language
           env_ok sample_table [(py "python", [py ".py"])] []
           (py "markdown") [py ".md"] (py "README.md")
           (meta_for [] (py "README.md")) empty_world
           eq_refl eq_refl (or_introl eq_refl)).
  intros l e [H|[]]. inversion H; subst.
  intros [Hm|[]]. vm_compute in Hm. discriminate Hm.
Defined.

End LanguageProps.
